(** * dblab: the B+Tree index and the character trie

    A shallow embedding of [BPlusTree::IsEmpty], [GetValue], [Insert] and
    [Remove] (storage/index/b_plus_tree.cpp, the complete variant with the
    goto-driven insertion and the borrow-or-merge deletion) and of the
    trie of primer/p0_trie.h, followed by the properties of the
    specification that concern them.

    Pages live in the buffer pool and are reached through page ids only, so
    the tree is modelled as a store of pages: every accessor of the source
    ([KeyAt], [SetKeyAt], [IncreaseSize], ...) takes the page id of the guard
    it is called on.  Two guards on one page therefore see each other's
    writes, as in the source.  Latches and pins are not modelled. *)

From stdpp Require Import gmap strings list.
From Stdlib Require Import ZArith Lia Ascii.

#[local] Open Scope Z_scope.
#[local] Set Warnings "-register-all".

(** ** Pages *)

Module BPT.

(** Page ids are 32-bit integers, keys are the integers of the tests
    ([SetFromInteger]) and a value is a record id, kept opaque. *)
Abbreviation page_id_t := Z (only parsing).
Abbreviation KeyType := Z (only parsing).
Abbreviation ValueType := Z (only parsing).

Definition INVALID_PAGE_ID : page_id_t := -1.

(** The comparator injected into the tree; keys are integers
    ([SetFromInteger]) and the comparator yields a negative, zero or positive
    int. *)
Definition comparator_ (a b : KeyType) : Z :=
  match a ?= b with Lt => -1 | Eq => 0 | Gt => 1 end.

Inductive IndexPageType := INVALID_INDEX_PAGE | LEAF_PAGE | INTERNAL_PAGE.

(** The shared page header, the leaf's forward pointer, and the slot area
    [array_].  In an internal page the second component of a slot is a child
    page id, in a leaf it is the record id.  The list holds the slots written
    so far; [size_] says how many of them are live. *)
Record BPlusTreePage := mkPage {
  page_type_ : IndexPageType;
  size_ : Z;
  max_size_ : Z;
  next_page_id_ : page_id_t;
  array_ : list (KeyType * Z)
}.

(** A frame as the buffer pool hands it out: all bytes zero. *)
Definition zero_page : BPlusTreePage := mkPage INVALID_INDEX_PAGE 0 0 0 [].

(** Slot [i] of a slot area.  Slots never written read as the zero entry.
    An index below zero is outside the page (undefined behaviour in the
    source); it reads as the zero entry and a write to it is dropped. *)
Definition slot (a : list (KeyType * Z)) (i : Z) : KeyType * Z :=
  if i <? 0 then (0, 0) else default (0, 0) (a !! Z.to_nat i).

Definition set_slot (a : list (KeyType * Z)) (i : Z) (e : KeyType * Z)
  : list (KeyType * Z) :=
  if i <? 0 then a
  else
    let n := Z.to_nat i in
    if (n <? length a)%nat then <[n := e]> a
    else a ++ replicate (n - length a) (0, 0) ++ [e].

(** ** The tree: header page, buffer pool, configuration *)

Record BPlusTree := mkTree {
  pages_ : gmap Z BPlusTreePage;   (* the frames of the buffer pool *)
  next_alloc_ : page_id_t;         (* the id the next NewPage hands out *)
  root_page_id_ : page_id_t;       (* the header page *)
  leaf_max_size_ : Z;
  internal_max_size_ : Z
}.

(** The constructor: the header records an empty tree.  Page 0 is the header
    page, so tree pages are numbered from 1. *)
Definition BPlusTree_new (leaf_max_size internal_max_size : Z) : BPlusTree :=
  mkTree ∅ 1 INVALID_PAGE_ID leaf_max_size internal_max_size.

Definition page (t : BPlusTree) (p : page_id_t) : BPlusTreePage :=
  default zero_page (pages_ t !! p).

Definition upd (p : page_id_t) (f : BPlusTreePage → BPlusTreePage)
    (t : BPlusTree) : BPlusTree :=
  mkTree (<[p := f (page t p)]> (pages_ t)) (next_alloc_ t) (root_page_id_ t)
         (leaf_max_size_ t) (internal_max_size_ t).

Definition set_root (r : page_id_t) (t : BPlusTree) : BPlusTree :=
  mkTree (pages_ t) (next_alloc_ t) r (leaf_max_size_ t) (internal_max_size_ t).

(** [FetchPageRead] / [FetchPageWrite] / [FetchPageBasic]: the page must be
    in the pool. *)
Definition FetchPage (t : BPlusTree) (p : page_id_t) : option page_id_t :=
  match pages_ t !! p with Some _ => Some p | None => None end.

(** [NewPageGuarded]: a zeroed frame under the next free id. *)
Definition NewPageGuarded (t : BPlusTree) : page_id_t * BPlusTree :=
  let p := next_alloc_ t in
  (p, mkTree (<[p := zero_page]> (pages_ t)) (p + 1) (root_page_id_ t)
             (leaf_max_size_ t) (internal_max_size_ t)).

(** *** Accessors of the page classes *)

Definition IsLeafPage (t : BPlusTree) (p : page_id_t) : bool :=
  match page_type_ (page t p) with LEAF_PAGE => true | _ => false end.
Definition GetSize (t : BPlusTree) (p : page_id_t) : Z := size_ (page t p).
Definition GetMaxSize (t : BPlusTree) (p : page_id_t) : Z := max_size_ (page t p).
Definition GetNextPageId (t : BPlusTree) (p : page_id_t) : Z :=
  next_page_id_ (page t p).
Definition KeyAt (t : BPlusTree) (p : page_id_t) (i : Z) : KeyType :=
  fst (slot (array_ (page t p)) i).
Definition ValueAt (t : BPlusTree) (p : page_id_t) (i : Z) : Z :=
  snd (slot (array_ (page t p)) i).

(** Modelled from the spec: [GetMinSize] of the page classes, which are not
    among the sources; "min_size = ceil(max_size / 2)". *)
Definition GetMinSize (t : BPlusTree) (p : page_id_t) : Z :=
  (GetMaxSize t p + 1) / 2.

Definition IncreaseSize (p : page_id_t) (n : Z) : BPlusTree → BPlusTree :=
  upd p (λ pg, mkPage (page_type_ pg) (size_ pg + n) (max_size_ pg)
                      (next_page_id_ pg) (array_ pg)).
Definition SetNextPageId (p : page_id_t) (n : page_id_t) : BPlusTree → BPlusTree :=
  upd p (λ pg, mkPage (page_type_ pg) (size_ pg) (max_size_ pg) n (array_ pg)).
Definition SetKeyAt (p : page_id_t) (i : Z) (k : KeyType) : BPlusTree → BPlusTree :=
  upd p (λ pg, mkPage (page_type_ pg) (size_ pg) (max_size_ pg) (next_page_id_ pg)
                      (set_slot (array_ pg) i (k, snd (slot (array_ pg) i)))).
Definition SetValueAt (p : page_id_t) (i : Z) (v : Z) : BPlusTree → BPlusTree :=
  upd p (λ pg, mkPage (page_type_ pg) (size_ pg) (max_size_ pg) (next_page_id_ pg)
                      (set_slot (array_ pg) i (fst (slot (array_ pg) i), v))).

(** What a page shows apart from its slots, and one slot of a page. *)
Definition hdr (t : BPlusTree) (p : page_id_t) : IndexPageType * Z * Z * Z :=
  (page_type_ (page t p), size_ (page t p), max_size_ (page t p),
   next_page_id_ (page t p)).
Definition slot_at (t : BPlusTree) (p : page_id_t) (i : Z) : KeyType * Z :=
  slot (array_ (page t p)) i.

(** The statement pair
    [dst->SetKeyAt(i, src->KeyAt(j)); dst->SetValueAt(i, src->ValueAt(j));]
    that moves one slot. *)
Definition copy_slot (dst : page_id_t) (i : Z) (src : page_id_t) (j : Z)
    (t : BPlusTree) : BPlusTree :=
  let t := SetKeyAt dst i (KeyAt t src j) t in
  SetValueAt dst i (ValueAt t src j) t.

(** Modelled from the spec: [Init] of the two page classes, which are not
    among the sources.  A leaf starts with no entry and no successor; an
    internal page starts with the one child pointer of slot 0, so that the
    new root of a split has "size = 2" after one [IncreaseSize(1)]. *)
Definition LeafPage_Init (p : page_id_t) (max_size : Z) : BPlusTree → BPlusTree :=
  upd p (λ pg, mkPage LEAF_PAGE 0 max_size INVALID_PAGE_ID (array_ pg)).
Definition InternalPage_Init (p : page_id_t) (max_size : Z) : BPlusTree → BPlusTree :=
  upd p (λ pg, mkPage INTERNAL_PAGE 1 max_size (next_page_id_ pg) (array_ pg)).

(** *** Loops *)

(** [for (j = a; j < b; j++) body], [n] iterations from [j]. *)
Fixpoint loop_up {St : Type} (n : nat) (j : Z) (body : Z → St → St) (s : St) : St :=
  match n with
  | O => s
  | S n' => loop_up n' (j + 1) body (body j s)
  end.
Definition for_up {St : Type} (a b : Z) (body : Z → St → St) (s : St) : St :=
  loop_up (Z.to_nat (b - a)) a body s.

(** [for (j = a; j >= b; j--) body]. *)
Fixpoint loop_down {St : Type} (n : nat) (j : Z) (body : Z → St → St) (s : St) : St :=
  match n with
  | O => s
  | S n' => loop_down n' (j - 1) body (body j s)
  end.
Definition for_down {St : Type} (a b : Z) (body : Z → St → St) (s : St) : St :=
  loop_down (Z.to_nat (a - b + 1)) a body s.

(** [for (i = a; i < b; i++) if (P i) break;] : the value of [i] after the
    loop, which is [b] (or [a], when [b < a]) if no [i] was accepted. *)
Fixpoint scan_from (n : nat) (i : Z) (P : Z → bool) : Z :=
  match n with
  | O => i
  | S n' => if P i then i else scan_from n' (i + 1) P
  end.
Definition scan (a b : Z) (P : Z → bool) : Z := scan_from (Z.to_nat (b - a)) a P.


(** ** IsEmpty *)

Definition IsEmpty (t : BPlusTree) : option bool :=
  if root_page_id_ t =? INVALID_PAGE_ID then Some true
  else
    root_page ← FetchPage t (root_page_id_ t);
    if IsLeafPage t root_page then Some (GetSize t root_page =? 0)
    else Some (GetSize t root_page <=? 1).

(** ** The search path *)

(** The inner loop of every descent,
    [for (i = 1; i < root->GetSize(); i++) if (comparator_(key, root->KeyAt(i)) < 0) break;]
    as the value of [i] after it.  The loop has found a key ([flag]) exactly
    when that value is below the size. *)
Definition descend_index (t : BPlusTree) (root : page_id_t) (key : KeyType) : Z :=
  scan 1 (GetSize t root) (λ i, comparator_ key (KeyAt t root i) <? 0).

(** The child the descent moves to: [ValueAt(i - 1)] when the loop broke,
    the rightmost child otherwise. *)
Definition descend_child (t : BPlusTree) (root : page_id_t) (key : KeyType) : page_id_t :=
  let i := descend_index t root key in
  if i <? GetSize t root then ValueAt t root (i - 1)
  else ValueAt t root (GetSize t root - 1).

(** The descents are [while (true)] loops.  A descent that visits more pages
    than the pool holds has visited one page twice and never ends, so the
    loops are run for one step more than there are pages; [None] stands for a
    run that does not return (or fetches a page that is not in the pool). *)
Definition descent_fuel (t : BPlusTree) : nat := S (size (pages_ t)).

(** The leaf scan of [GetValue] and the duplicate check of [Insert]:
    the first [i] in [0, size) with [comparator_(key, leaf->KeyAt(i)) == 0],
    or the size. *)
Definition leaf_find (t : BPlusTree) (leaf : page_id_t) (key : KeyType) : Z :=
  scan 0 (GetSize t leaf) (λ i, comparator_ key (KeyAt t leaf i) =? 0).

(** ** GetValue *)

Fixpoint GetValue_loop (fuel : nat) (t : BPlusTree) (root : page_id_t)
    (key : KeyType) (result : list ValueType) : option (bool * list ValueType) :=
  match fuel with
  | O => None
  | S fuel' =>
      if IsLeafPage t root then
        let i := leaf_find t root key in
        if i <? GetSize t root then Some (true, result ++ [ValueAt t root i])
        else Some (false, result)
      else
        child ← FetchPage t (descend_child t root key);
        GetValue_loop fuel' t child key result
  end.

(** [result] is the vector the caller passes in; a hit appends to it. *)
Definition GetValue (t : BPlusTree) (key : KeyType) (result : list ValueType)
  : option (bool * list ValueType) :=
  if root_page_id_ t =? INVALID_PAGE_ID then Some (false, result)
  else
    root ← FetchPage t (root_page_id_ t);
    GetValue_loop (descent_fuel t) t root key result.

(** ** Insert *)

(** Step 1 of [Insert]: the write descent.  [write_set] is [ctx.write_set_]
    with its back at the head of the list; the page the loop stands on is
    its head. *)
Fixpoint Insert_descend (fuel : nat) (t : BPlusTree) (root : page_id_t)
    (key : KeyType) (write_set : list page_id_t) : option (list page_id_t) :=
  match fuel with
  | O => None
  | S fuel' =>
      if IsLeafPage t root then Some write_set
      else
        child ← FetchPage t (descend_child t root key);
        Insert_descend fuel' t child key (child :: write_set)
  end.

(** The sorted insertion the source writes out three times (into the parent,
    into the half of a split internal page, into the leaf):
    [for (i = lo; i <= size; i++) {
       if (i != size && comparator_(key, KeyAt(i)) > 0) continue;
       IncreaseSize(1);
       for (j = size - 1; j >= i + 1; j--) { slot j = slot j - 1 }
       SetKeyAt(i, key); SetValueAt(i, value); break; }] *)
Definition shift_insert (p : page_id_t) (lo : Z) (key : KeyType) (value : Z)
    (t : BPlusTree) : BPlusTree :=
  let size := GetSize t p in
  let i := scan lo (size + 1)
             (λ i, negb ((negb (i =? size)) && (comparator_ key (KeyAt t p i) >? 0))) in
  if i <=? size then
    let t := IncreaseSize p 1 t in
    let t := for_down (GetSize t p - 1) (i + 1)
               (λ j t, copy_slot p j p (j - 1) t) t in
    SetValueAt p i value (SetKeyAt p i key t)
  else t.

(** Step 2 of [Insert], the block under
    [if (leaf->GetSize() == leaf->GetMaxSize())] up to the threading of the
    leaf list: the state after it, the id of the new leaf ([page_id]) and
    the promoted key ([tmp_key]). *)
Definition split_leaf (leaf : page_id_t) (t : BPlusTree)
  : BPlusTree * page_id_t * KeyType :=
  let m := GetSize t leaf in
  let tmp_key := KeyAt t leaf ((m + 1) / 2) in
  let '(page_id, t) := NewPageGuarded t in
  let t := LeafPage_Init page_id (leaf_max_size_ t) t in
  let t := IncreaseSize page_id (m / 2) t in
  let t := for_up ((m + 1) / 2) m
             (λ i t, let idx := i - (m + 1) / 2 in
                     copy_slot page_id idx leaf i t) t in
  let t := IncreaseSize leaf (Z.quot (- m) 2) t in
  let t := SetNextPageId page_id (GetNextPageId t leaf) t in
  let t := SetNextPageId leaf page_id t in
  (t, page_id, tmp_key).

(** The block under [ROOT_SPLIT:]. *)
Definition root_split (tmp_key : KeyType) (page_id : page_id_t) (t : BPlusTree)
  : BPlusTree :=
  let '(new_root_page_id, t) := NewPageGuarded t in
  let t := InternalPage_Init new_root_page_id (internal_max_size_ t) t in
  let t := SetValueAt new_root_page_id 0 (root_page_id_ t) t in
  let t := set_root new_root_page_id t in
  let t := IncreaseSize new_root_page_id 1 t in
  let t := SetKeyAt new_root_page_id 1 tmp_key t in
  SetValueAt new_root_page_id 1 page_id t.

(** The split of a full internal page [root] against the pending pair
    [(insert_key, insert_val)], from [m = root->GetSize()] to
    [root->IncreaseSize(-(idx))]: the state, the new page, the promoted key,
    the pair still to be inserted and whether it goes to the old page
    ([insert_small_than_tmp_key]). *)
Definition split_internal (root : page_id_t) (insert_key : KeyType)
    (insert_val : page_id_t) (t : BPlusTree)
  : BPlusTree * page_id_t * KeyType * KeyType * page_id_t * bool :=
  let m := GetSize t root in
  let middle := (m + 1) / 2 in
  let tmp_key := KeyAt t root middle in
  let insert_small_than_tmp_key := comparator_ insert_key tmp_key <? 0 in
  let middle := if insert_small_than_tmp_key then m / 2 else middle in
  let tmp_key := if insert_small_than_tmp_key then KeyAt t root middle else tmp_key in
  let special := insert_small_than_tmp_key && (comparator_ insert_key tmp_key >=? 0) in
  let '(insert_key, tmp_key) :=
    if special then (tmp_key, insert_key) else (insert_key, tmp_key) in
  let '(page_id, t) := NewPageGuarded t in
  let t := InternalPage_Init page_id (internal_max_size_ t) t in
  let '(t, insert_val) :=
    if special then
      let t := SetValueAt page_id 0 insert_val t in (t, ValueAt t root middle)
    else (SetValueAt page_id 0 (ValueAt t root middle) t, insert_val) in
  let t := for_up (middle + 1) m
             (λ i t, let idx := i - middle in
                     copy_slot page_id idx root i (IncreaseSize page_id 1 t)) t in
  let idx := 1 + Z.max 0 (m - (middle + 1)) in
  let t := IncreaseSize root (- idx) t in
  (t, page_id, tmp_key, insert_key, insert_val, insert_small_than_tmp_key).

(** The [while (true)] loop under "split up" together with the jump it ends
    in: [root] is the parent that has to take [(insert_key, insert_val)],
    [write_set] the ancestors above it.  A failed [BUSTUB_ASSERT] aborts:
    [None].  (The assertion inside the insertion into [insert_page] is not
    listed: the loop body runs only for a size of at least 1, so the size it
    checks is at least 2.) *)
Fixpoint Insert_split_up (write_set : list page_id_t) (root : page_id_t)
    (insert_key : KeyType) (insert_val : page_id_t) (t : BPlusTree)
  : option BPlusTree :=
  if GetSize t root <? GetMaxSize t root then
    if IsLeafPage t root then None
    else if negb (GetSize t root >? 1) then None
    else Some (shift_insert root 1 insert_key insert_val t)
  else
    let m := GetSize t root in
    if negb (m >? 0) then None
    else
      let '(t, page_id, tmp_key, insert_key, insert_val, small) :=
        split_internal root insert_key insert_val t in
      let insert_page := if small then root else page_id in
      let t := shift_insert insert_page 1 insert_key insert_val t in
      match write_set with
      | [] => Some (root_split tmp_key page_id t)
      | parent :: write_set' =>
          Insert_split_up write_set' parent tmp_key page_id t
      end.

Definition Insert (t : BPlusTree) (key : KeyType) (value : ValueType)
  : option (bool * BPlusTree) :=
  if root_page_id_ t =? INVALID_PAGE_ID then
    let '(root, t) := NewPageGuarded t in
    let t := set_root root t in
    let t := LeafPage_Init root (leaf_max_size_ t) t in
    let t := IncreaseSize root 1 t in
    let t := SetKeyAt root 0 key t in
    let t := SetValueAt root 0 value t in
    Some (true, t)
  else
    root ← FetchPage t (root_page_id_ t);
    write_set ← Insert_descend (descent_fuel t) t root key [root];
    match write_set with
    | [] => None
    | leaf :: write_set =>
        if leaf_find t leaf key <? GetSize t leaf then Some (false, t)
        else if GetSize t leaf =? GetMaxSize t leaf then
          let m := GetSize t leaf in
          if negb (m >? 0) then None
          else
            let '(t, page_id, tmp_key) := split_leaf leaf t in
            let leaf := if comparator_ key tmp_key >? 0 then page_id else leaf in
            t ← match write_set with
                | [] => Some (root_split tmp_key page_id t)
                | root :: write_set' =>
                    Insert_split_up write_set' root tmp_key page_id t
                end;
            if negb (IsLeafPage t leaf) then None
            else Some (true, shift_insert leaf 0 key value t)
        else
          if negb (IsLeafPage t leaf) then None
          else Some (true, shift_insert leaf 0 key value t)
    end.


(** ** Remove *)

(** Step 1 of [Remove]: the write descent, which also records in
    [position_set] ([ctx.position_set_], back at the head) the value [i - 1]
    of each level. *)
Fixpoint Remove_descend (fuel : nat) (t : BPlusTree) (root : page_id_t)
    (key : KeyType) (write_set : list page_id_t) (position_set : list Z)
  : option (list page_id_t * list Z) :=
  match fuel with
  | O => None
  | S fuel' =>
      if IsLeafPage t root then Some (write_set, position_set)
      else
        let i := descend_index t root key in
        child ← FetchPage t (descend_child t root key);
        Remove_descend fuel' t child key (child :: write_set) ((i - 1) :: position_set)
  end.

(** "delete key" at the leaf: the first slot holding [key] is closed by
    moving the slots after it down. *)
Definition leaf_delete (leaf : page_id_t) (key : KeyType) (t : BPlusTree) : BPlusTree :=
  let i := leaf_find t leaf key in
  if i <? GetSize t leaf then
    let t := for_up (i + 1) (GetSize t leaf)
               (λ j t, copy_slot leaf (j - 1) leaf j t) t in
    IncreaseSize leaf (-1) t
  else t.

(** The siblings of the child at [position] of [root], fetched as the source
    does: the previous one unless the child is leftmost, the next one unless
    it is rightmost (a rightmost child is tested first, so an only child
    fetches [ValueAt(position - 1)]).  Also [bigger_size]. *)
Definition fetch_siblings (t : BPlusTree) (root : page_id_t) (position : Z)
  : option (option page_id_t * option page_id_t * Z) :=
  if position =? GetSize t root - 1 then
    prev ← FetchPage t (ValueAt t root (position - 1));
    Some (Some prev, None, GetSize t prev)
  else if position =? 0 then
    next ← FetchPage t (ValueAt t root (position + 1));
    Some (None, Some next, GetSize t next)
  else
    prev ← FetchPage t (ValueAt t root (position - 1));
    next ← FetchPage t (ValueAt t root (position + 1));
    Some (Some prev, Some next, Z.max (GetSize t next) (GetSize t prev)).

(** The donor test shared by both levels:
    [next == nullptr || (prev != nullptr && next->GetSize() <= prev->GetSize())]. *)
Definition steal_from_prev (t : BPlusTree) (prev next : option page_id_t) : bool :=
  match next, prev with
  | None, _ => true
  | Some n, Some p => GetSize t n <=? GetSize t p
  | Some _, None => false
  end.

(** The two "update parent" loops: every remaining ancestor whose key at the
    traversed slot equals the removed key gets [update_key] there.  The
    latches of the page guards are not part of the model: the read fetch of
    the child at that slot stands for the lookup in the pool only, so a run
    in which that child is a page the operation still holds write-latched
    returns here, where the source waits for its own latch. *)
Fixpoint update_parents (write_set : list page_id_t) (position_set : list Z)
    (key update_key : KeyType) (t : BPlusTree) : option BPlusTree :=
  match write_set, position_set with
  | [], _ => Some t
  | _ :: _, [] => None
  | parent :: write_set', internal_position :: position_set' =>
      if comparator_ (KeyAt t parent internal_position) key =? 0 then
        _ ← FetchPage t (ValueAt t parent internal_position);
        update_parents write_set' position_set' key update_key
          (SetKeyAt parent internal_position update_key t)
      else update_parents write_set' position_set' key update_key t
  end.

(** The leaf steal, from [leaf->IncreaseSize(1)] to
    [update_key = leaf->KeyAt(0)]: the state and [update_key].  [None] when
    the sibling the donor test picks is a null pointer. *)
Definition leaf_steal (leaf root : page_id_t) (leaf_position : Z)
    (prev next : option page_id_t) (t : BPlusTree) : option (BPlusTree * KeyType) :=
  let t := IncreaseSize leaf 1 t in
  t ← (if steal_from_prev t prev next then
         prev_leaf_page ← prev;
         let t := for_up 1 (GetSize t leaf)
                    (λ j t, copy_slot leaf j leaf (j - 1) t) t in
         let t := copy_slot leaf 0 prev_leaf_page (GetSize t prev_leaf_page - 1) t in
         Some (IncreaseSize prev_leaf_page (-1) t)
       else
         next_leaf_page ← next;
         let t := copy_slot leaf (GetSize t leaf - 1) next_leaf_page 0 t in
         let t := for_up 1 (GetSize t next_leaf_page)
                    (λ j t, copy_slot next_leaf_page (j - 1) next_leaf_page j t) t in
         let t := IncreaseSize next_leaf_page (-1) t in
         Some (SetKeyAt root (leaf_position + 1) (KeyAt t next_leaf_page 0) t));
  let t := if leaf_position >? 0 then SetKeyAt root leaf_position (KeyAt t leaf 0) t
           else t in
  Some (t, KeyAt t leaf 0).

(** The appending loops of the two merges,
    [for (i = lo; i < merge_from_page->GetSize(); i++)
       { merge_to_page->IncreaseSize(1); slot idx of merge_to = slot i of
         merge_from; idx++; }].
    When both guards are on one page the bound grows with every round and
    the loop does not end. *)
Definition merge_append (merge_to merge_from : page_id_t) (lo idx : Z)
    (t : BPlusTree) : option BPlusTree :=
  if (merge_to =? merge_from) && (lo <? GetSize t merge_from) then None
  else
    Some (for_up lo (GetSize t merge_from)
            (λ i t, let idx := idx + (i - lo) in
                    copy_slot merge_to idx merge_from i (IncreaseSize merge_to 1 t)) t).

(** The leaf merge under [MERGE_NODE:], up to the two [Drop]s: the state,
    [delete_key] and [update_key].  [None] when the sibling to merge with is
    a null pointer. *)
Definition leaf_merge (leaf root : page_id_t) (leaf_position : Z)
    (prev next : option page_id_t) (t : BPlusTree)
  : option (BPlusTree * KeyType * KeyType) :=
  '(merge_to_page, merge_from_page, delete_key) ←
    (if negb (leaf_position =? 0)
     then prev ← prev; Some (prev, leaf, KeyAt t root leaf_position)
     else next ← next; Some (leaf, next, KeyAt t root (leaf_position + 1)));
  let idx := GetSize t merge_to_page in
  t ← merge_append merge_to_page merge_from_page 0 idx t;
  let update_key := KeyAt t merge_to_page 0 in
  let t := SetNextPageId merge_to_page (GetNextPageId t merge_from_page) t in
  let t := IncreaseSize merge_from_page (GetSize t merge_from_page) t in
  Some (t, delete_key, update_key).

(** "delete key" in the merge loop: the first slot in [1, size) holding
    [delete_key] is closed; [None] when the assertion [is_find] fails. *)
Definition internal_delete (root : page_id_t) (delete_key : KeyType) (t : BPlusTree)
  : option BPlusTree :=
  let i := scan 1 (GetSize t root) (λ i, comparator_ delete_key (KeyAt t root i) =? 0) in
  if i <? GetSize t root then
    let t := for_up (i + 1) (GetSize t root)
               (λ j t, copy_slot root (j - 1) root j t) t in
    Some (IncreaseSize root (-1) t)
  else None.

(** The internal merge inside the loop: the state and the new [delete_key]. *)
Definition internal_merge (root parent : page_id_t) (internal_position : Z)
    (prev next : option page_id_t) (t : BPlusTree) : option (BPlusTree * KeyType) :=
  '(merge_to_page, merge_from_page, delete_key) ←
    (if negb (internal_position =? 0)
     then prev ← prev; Some (prev, root, KeyAt t parent internal_position)
     else next ← next; Some (root, next, KeyAt t parent (internal_position + 1)));
  let idx := GetSize t merge_to_page in
  let t := IncreaseSize merge_to_page 1 t in
  let t := SetKeyAt merge_to_page idx delete_key t in
  let t := SetValueAt merge_to_page idx (ValueAt t merge_from_page 0) t in
  t ← merge_append merge_to_page merge_from_page 1 (idx + 1) t;
  let t := IncreaseSize merge_from_page (GetSize t merge_from_page) t in
  Some (t, delete_key).

(** The internal steal inside the loop; [None] when the assertion in the
    steal from the previous page fails. *)
Definition internal_steal (root parent : page_id_t) (internal_position : Z)
    (prev next : option page_id_t) (delete_key : KeyType) (t : BPlusTree)
  : option BPlusTree :=
  if steal_from_prev t prev next then
    prev_internal_page ← prev;
    if comparator_ delete_key (KeyAt t parent internal_position) =? 0 then None
    else
      let t := IncreaseSize root 1 t in
      let t := for_up 2 (GetSize t root)
                 (λ j t, copy_slot root j root (j - 1) t) t in
      let t := SetKeyAt root 1 (KeyAt t parent internal_position) t in
      let t := SetValueAt root 1 (ValueAt t root 0) t in
      let t := SetValueAt root 0
                 (ValueAt t prev_internal_page (GetSize t prev_internal_page - 1)) t in
      let t := SetKeyAt parent internal_position
                 (KeyAt t prev_internal_page (GetSize t prev_internal_page - 1)) t in
      Some (IncreaseSize prev_internal_page (-1) t)
  else
    next_internal_page ← next;
    let t := IncreaseSize root 1 t in
    let t := SetKeyAt root (GetSize t root - 1) (KeyAt t parent (internal_position + 1)) t in
    let t := SetValueAt root (GetSize t root - 1) (ValueAt t next_internal_page 0) t in
    let t := SetValueAt next_internal_page 0 (ValueAt t next_internal_page 1) t in
    let t := SetKeyAt parent (internal_position + 1) (KeyAt t next_internal_page 1) t in
    let t := for_up 2 (GetSize t next_internal_page)
               (λ j t, copy_slot next_internal_page (j - 1) next_internal_page j t) t in
    Some (IncreaseSize next_internal_page (-1) t).

(** The [while (true)] loop under [MERGE_NODE:].  [root] is the page that
    loses [delete_key]; [write_set] and [position_set] are what is left of
    the context. *)
Fixpoint Remove_merge_up (write_set : list page_id_t) (position_set : list Z)
    (root : page_id_t) (delete_key key update_key : KeyType) (t : BPlusTree)
  : option BPlusTree :=
  t ← internal_delete root delete_key t;
  match write_set with
  | [] =>
      if GetSize t root =? 1 then Some (set_root (ValueAt t root 0) t)
      else Some t
  | parent :: write_set' =>
      match position_set with
      | [] => None
      | internal_position :: position_set' =>
          '(prev, next, bigger_size) ← fetch_siblings t parent internal_position;
          if bigger_size - 1 <? GetMinSize t root then
            '(t, delete_key) ← internal_merge root parent internal_position prev next t;
            Remove_merge_up write_set' position_set' parent delete_key key update_key t
          else
            t ← internal_steal root parent internal_position prev next delete_key t;
            update_parents write_set' position_set' key update_key t
      end
  end.

Definition Remove (t : BPlusTree) (key : KeyType) : option BPlusTree :=
  if root_page_id_ t =? INVALID_PAGE_ID then Some t
  else
    root ← FetchPage t (root_page_id_ t);
    '(write_set, position_set) ← Remove_descend (descent_fuel t) t root key [root] [];
    match write_set with
    | [] => None
    | leaf :: write_set =>
        let t := leaf_delete leaf key t in
        if GetSize t leaf >=? GetMinSize t leaf then Some t
        else
          match write_set with
          | [] =>
              if GetSize t leaf >? 0 then Some t
              else Some (set_root INVALID_PAGE_ID t)
          | root :: write_set =>
              match position_set with
              | [] => None
              | leaf_position :: position_set =>
                  '(prev, next, bigger_size) ← fetch_siblings t root leaf_position;
                  if bigger_size - 1 <? GetMinSize t leaf then
                    '(t, delete_key, update_key) ←
                      leaf_merge leaf root leaf_position prev next t;
                    Remove_merge_up write_set position_set root delete_key key update_key t
                  else
                    '(t, update_key) ← leaf_steal leaf root leaf_position prev next t;
                    update_parents write_set position_set key update_key t
              end
          end
    end.


(** ** Begin, End, GetRootPageId *)

(** The index iterator is a class of its own, outside these sources:
    [Begin] and [End] stand for the page id their iterator is constructed
    with.  [Begin] follows child 0 from the root down to a leaf; [res_pgid]
    is the id of the page the loop stands on. *)
Fixpoint Begin_loop (fuel : nat) (t : BPlusTree) (root res_pgid : page_id_t)
  : option page_id_t :=
  match fuel with
  | O => None
  | S fuel' =>
      if IsLeafPage t root then Some res_pgid
      else
        let res_pgid := ValueAt t root 0 in
        child ← FetchPage t (ValueAt t root 0);
        Begin_loop fuel' t child res_pgid
  end.

Definition Begin (t : BPlusTree) : option page_id_t :=
  let res_pgid := root_page_id_ t in
  if root_page_id_ t =? INVALID_PAGE_ID then Some INVALID_PAGE_ID
  else
    root ← FetchPage t (root_page_id_ t);
    Begin_loop (descent_fuel t) t root res_pgid.

Definition End_ (t : BPlusTree) : page_id_t := INVALID_PAGE_ID.

Definition GetRootPageId (t : BPlusTree) : page_id_t := root_page_id_ t.


(** ** Operation sequences *)

Inductive op := OpInsert (key : KeyType) (value : ValueType) | OpRemove (key : KeyType).

Definition apply_op (t : BPlusTree) (o : op) : option BPlusTree :=
  match o with
  | OpInsert key value => snd <$> Insert t key value
  | OpRemove key => Remove t key
  end.

Fixpoint run (t : BPlusTree) (ops : list op) : option BPlusTree :=
  match ops with
  | [] => Some t
  | o :: ops' => t' ← apply_op t o; run t' ops'
  end.

(** The record id the tests store under an integer key. *)
Definition RID (key : Z) : ValueType := key.

Definition inserts (ks : list KeyType) : list op := (λ k, OpInsert k (RID k)) <$> ks.
Definition removes (ks : list KeyType) : list op := OpRemove <$> ks.

(** The keys a sequence of operations leaves live: inserted and not removed
    since. *)
Fixpoint live_keys_from (live : list KeyType) (ops : list op) : list KeyType :=
  match ops with
  | [] => live
  | OpInsert key _ :: ops' =>
      live_keys_from (if bool_decide (key ∈ live) then live else live ++ [key]) ops'
  | OpRemove key :: ops' =>
      live_keys_from (filter (λ k, k ≠ key) live) ops'
  end.
Definition live_keys (ops : list op) : list KeyType := live_keys_from [] ops.

(** The live slots of a page, for reading off a tree. *)
Definition entries (t : BPlusTree) (p : page_id_t) : list (KeyType * Z) :=
  (λ i, slot_at t p (Z.of_nat i)) <$> seq 0 (Z.to_nat (GetSize t p)).
Definition keys (t : BPlusTree) (p : page_id_t) : list KeyType := fst <$> entries t p.
Definition values (t : BPlusTree) (p : page_id_t) : list Z := snd <$> entries t p.

(** ** The structural steps in the words of the specification *)

(** The leaf split: with [m] the size of the leaf and [mid = ceil(m/2)], the
    slots [mid .. m-1] are the slots [0 .. m-mid-1] of the new leaf, the old
    leaf keeps its first [mid] slots and has size [mid], the new leaf is
    threaded into the leaf list after the old one, and the promoted key is
    the first key of the new leaf. *)
Definition leaf_split_as_specified (t : BPlusTree) (leaf : page_id_t) : Prop :=
  let m := GetSize t leaf in
  let mid := (m + 1) / 2 in
  let '(t', new_leaf, separator) := split_leaf leaf t in
  2 * mid - 1 ≤ m ≤ 2 * mid ∧
  IsLeafPage t' new_leaf = true ∧
  GetSize t' new_leaf = m - mid ∧
  (∀ i, 0 ≤ i < m - mid → slot_at t' new_leaf i = slot_at t leaf (mid + i)) ∧
  GetSize t' leaf = mid ∧
  (∀ i, 0 ≤ i < mid → slot_at t' leaf i = slot_at t leaf i) ∧
  GetNextPageId t' new_leaf = GetNextPageId t leaf ∧
  GetNextPageId t' leaf = new_leaf ∧
  separator = KeyAt t' new_leaf 0.

(** The donor of a leaf borrow when both siblings are there: the larger
    one, the left one when they are equally large; the donor ends one entry
    smaller, the other sibling keeps its size. *)
Definition donor_as_specified (t : BPlusTree) (leaf root : page_id_t)
    (leaf_position : Z) (prev next : page_id_t) : Prop :=
  ∃ t' update_key,
    leaf_steal leaf root leaf_position (Some prev) (Some next) t = Some (t', update_key) ∧
    if GetSize t next <=? GetSize t prev
    then GetSize t' prev = GetSize t prev - 1 ∧ GetSize t' next = GetSize t next
    else GetSize t' next = GetSize t next - 1 ∧ GetSize t' prev = GetSize t prev.

(** The borrow from the right sibling [next]: its first entry is appended to
    the leaf, its other entries move down by one, its size drops by one, and
    the parent's key at the sibling's slot is the sibling's new first key. *)
Definition borrow_from_right_as_specified (t : BPlusTree) (leaf root : page_id_t)
    (leaf_position : Z) (prev : option page_id_t) (next : page_id_t) : Prop :=
  ∃ t' update_key,
    leaf_steal leaf root leaf_position prev (Some next) t = Some (t', update_key) ∧
    GetSize t' leaf = GetSize t leaf + 1 ∧
    (∀ i, 0 ≤ i < GetSize t leaf → slot_at t' leaf i = slot_at t leaf i) ∧
    slot_at t' leaf (GetSize t leaf) = slot_at t next 0 ∧
    GetSize t' next = GetSize t next - 1 ∧
    (∀ i, 0 ≤ i < GetSize t next - 1 → slot_at t' next i = slot_at t next (i + 1)) ∧
    KeyAt t' root (leaf_position + 1) = KeyAt t' next 0.


(** The borrow from the left sibling [prev] as the code performs it: the
    leaf receives the last entry of the sibling in slot 0, and every other
    slot of the leaf ends as a copy of the leaf's old first entry. *)
Definition borrow_from_left_as_built (t : BPlusTree) (leaf root : page_id_t)
    (leaf_position : Z) (prev : page_id_t) (next : option page_id_t) : Prop :=
  ∃ t' update_key,
    leaf_steal leaf root leaf_position (Some prev) next t = Some (t', update_key) ∧
    GetSize t' leaf = GetSize t leaf + 1 ∧
    GetSize t' prev = GetSize t prev - 1 ∧
    slot_at t' leaf 0 = slot_at t prev (GetSize t prev - 1) ∧
    ∀ j, 1 ≤ j ≤ GetSize t leaf → slot_at t' leaf j = slot_at t leaf 0.

(** [Insert] of a new key into a tree whose root is the full leaf [leaf]:
    the new leaf and the new root are the next two pages of the pool; the
    root is internal with the old leaf as child 0 and the new leaf as child 1
    under the promoted key, the key at [ceil(m/2)] of the old leaf, which is
    still the first key of the new leaf; the old leaf is linked to the new
    one, and together they hold one entry more than the old leaf did. *)
Definition root_leaf_split_as_specified (t : BPlusTree) (key : KeyType)
    (value : ValueType) (leaf : page_id_t) : Prop :=
  let new_leaf := next_alloc_ t in
  let new_root := next_alloc_ t + 1 in
  let mid := (GetSize t leaf + 1) / 2 in
  ∃ t', Insert t key value = Some (true, t') ∧
    root_page_id_ t' = new_root ∧
    IsLeafPage t' new_root = false ∧ GetSize t' new_root = 2 ∧
    ValueAt t' new_root 0 = leaf ∧ ValueAt t' new_root 1 = new_leaf ∧
    KeyAt t' new_root 1 = KeyAt t leaf mid ∧
    KeyAt t' new_leaf 0 = KeyAt t leaf mid ∧
    IsLeafPage t' leaf = true ∧ IsLeafPage t' new_leaf = true ∧
    GetNextPageId t' leaf = new_leaf ∧
    GetNextPageId t' new_leaf = GetNextPageId t leaf ∧
    GetSize t' leaf + GetSize t' new_leaf = GetSize t leaf + 1.

(** [Remove] that ends in a borrow from the right sibling [next], against
    the leaf as the deletion left it ([leaf_delete]). *)
Definition Remove_borrows_from_right (t : BPlusTree) (key : KeyType)
    (leaf root : page_id_t) (leaf_position : Z) (next : page_id_t) : Prop :=
  let t1 := leaf_delete leaf key t in
  ∃ t', Remove t key = Some t' ∧
    GetSize t' leaf = GetSize t1 leaf + 1 ∧
    (∀ i, 0 ≤ i < GetSize t1 leaf → slot_at t' leaf i = slot_at t1 leaf i) ∧
    slot_at t' leaf (GetSize t1 leaf) = slot_at t next 0 ∧
    GetSize t' next = GetSize t next - 1 ∧
    (∀ i, 0 ≤ i < GetSize t next - 1 → slot_at t' next i = slot_at t next (i + 1)) ∧
    KeyAt t' root (leaf_position + 1) = KeyAt t' next 0.

(** [Remove] that ends in a merge below the root [root]: a root that had
    two children hands the tree over to its child 0, a larger root stays. *)
Definition root_collapse_as_specified (t : BPlusTree) (key : KeyType)
    (root : page_id_t) : Prop :=
  ∃ t', Remove t key = Some t' ∧
    root_page_id_ t' = if GetSize t root =? 2 then ValueAt t root 0 else root.

(** Where [split_internal] cuts a page of size [m] against the pending
    key: at [ceil(m/2)], or at [floor(m/2)] when the pending key is below the
    key there ([insert_small_than_tmp_key]); and whether the pending key
    lies between the two ([special]), in which case it is promoted itself. *)
Definition split_small (t : BPlusTree) (root : page_id_t) (insert_key : KeyType) : bool :=
  bool_decide (insert_key < KeyAt t root ((GetSize t root + 1) / 2)).
Definition split_middle (t : BPlusTree) (root : page_id_t) (insert_key : KeyType) : Z :=
  if split_small t root insert_key then GetSize t root / 2 else (GetSize t root + 1) / 2.
Definition split_special (t : BPlusTree) (root : page_id_t) (insert_key : KeyType) : bool :=
  split_small t root insert_key &&
  bool_decide (KeyAt t root (split_middle t root insert_key) ≤ insert_key).

(** The internal split as the specification words it.  With
    [mid = ceil(m/2)] the key at slot [mid] is promoted, the right sibling
    has [child[mid]] in slot 0 and the entries [mid+1 .. m-1] in the slots
    from 1 on; or ("mid chosen so the new separator is sep_key when it lies
    at the boundary") the pending key is promoted itself and the pointer it
    carries is slot 0 of the right sibling.  Either way the separator is
    moved: once the pending pair is in, the promoted key is a live key of
    neither half. *)
Definition internal_split_as_specified (t : BPlusTree) (root : page_id_t)
    (insert_key : KeyType) (insert_val : page_id_t) : Prop :=
  let m := GetSize t root in
  let mid := (m + 1) / 2 in
  let '(t', page_id, tmp_key, ik, iv, small) :=
    split_internal root insert_key insert_val t in
  let t'' := shift_insert (if small then root else page_id) 1 ik iv t' in
  ((tmp_key = KeyAt t root mid ∧
    ValueAt t' page_id 0 = ValueAt t root mid ∧
    (∀ i, mid + 1 ≤ i < m → slot_at t' page_id (i - mid) = slot_at t root i)) ∨
   (tmp_key = insert_key ∧ ValueAt t' page_id 0 = insert_val)) ∧
  (∀ q j, q = root ∨ q = page_id → 1 ≤ j < GetSize t'' q → KeyAt t'' q j ≠ tmp_key).

(** The internal split as the code performs it: the page is cut at
    [split_middle]; the old page keeps its slots below the cut, the right
    sibling has the entries after the cut in its slots from 1 on; in the
    [split_special] case the pending key is promoted, the pending child is
    slot 0 of the right sibling and the entry at the cut is the pair still
    to insert (into the old page); otherwise the key at the cut is promoted,
    its child is slot 0 of the right sibling and the pending pair is still to
    insert. *)
Definition internal_split_as_built (t : BPlusTree) (root : page_id_t)
    (insert_key : KeyType) (insert_val : page_id_t) : Prop :=
  let m := GetSize t root in
  let mid := split_middle t root insert_key in
  let '(t', page_id, tmp_key, ik, iv, small) :=
    split_internal root insert_key insert_val t in
  let t'' := shift_insert (if small then root else page_id) 1 ik iv t' in
  small = split_small t root insert_key ∧
  1 ≤ mid < m ∧ (m + 1) / 2 - 1 ≤ mid ≤ (m + 1) / 2 ∧
  GetSize t' root = mid ∧
  GetSize t' page_id = m - mid ∧
  (∀ i, 0 ≤ i < mid → slot_at t' root i = slot_at t root i) ∧
  (∀ i, mid + 1 ≤ i < m → slot_at t' page_id (i - mid) = slot_at t root i) ∧
  (tmp_key, ValueAt t' page_id 0, ik, iv) =
    (if split_special t root insert_key
     then (insert_key, insert_val, KeyAt t root mid, ValueAt t root mid)
     else (KeyAt t root mid, ValueAt t root mid, insert_key, insert_val)) ∧
  ((∀ i j, 1 ≤ i → i < j → j < m → KeyAt t root i < KeyAt t root j) →
   (∀ i, 1 ≤ i < m → KeyAt t root i ≠ insert_key) →
   ∀ q j, q = root ∨ q = page_id → 1 ≤ j < GetSize t'' q → KeyAt t'' q j ≠ tmp_key).

(** ** Trees of the scenarios *)

(** What the scenarios read off a tree: the root id and, for the pages
    asked for, kind, live keys, live values and successor. *)
Definition view (t : BPlusTree) (ps : list page_id_t)
  : page_id_t * list (page_id_t * bool * list KeyType * list Z * page_id_t) :=
  (root_page_id_ t,
   (λ p, (p, IsLeafPage t p, keys t p, values t p, GetNextPageId t p)) <$> ps).

(** Scenario 2 (leaf_max_size = internal_max_size = 4): the tree after
    1, 2, 3, 4, 5. *)
Definition five_keys_tree : BPlusTree :=
  default (BPlusTree_new 4 4) (run (BPlusTree_new 4 4) (inserts [1; 2; 3; 4; 5])).

(** The root leaf [1, 2, 3, 4] the fifth insertion of scenario 2 finds full,
    and the tree of scenario 2 once key 5 is removed again: the leaves
    [1, 2] and [3, 4] under the root key 3. *)
Definition four_keys_tree : BPlusTree :=
  default (BPlusTree_new 4 4) (run (BPlusTree_new 4 4) (inserts [1; 2; 3; 4])).
Definition two_leaves_tree : BPlusTree :=
  default five_keys_tree (Remove five_keys_tree 5).

(** Three leaves with both maximal sizes 4: after 1, ..., 7 the leaves
    [1, 2] (page 1), [3, 4] (page 2) and [5, 6, 7] (page 4) under the root
    (page 3). *)
Definition three_leaves_tree : BPlusTree :=
  default (BPlusTree_new 4 4) (run (BPlusTree_new 4 4) (inserts [1; 2; 3; 4; 5; 6; 7])).

(** The one-key tree of scenario 1. *)
Definition one_key_tree : BPlusTree :=
  default (BPlusTree_new 4 4) (run (BPlusTree_new 4 4) (inserts [10])).

(** Operation sequences on which lookups go wrong.  The first runs with
    leaf_max_size 2 and internal_max_size 4, the others with 6 and 6. *)
Definition misrouting_ops : list op :=
  inserts [2; 8; 4; 3; 9; 14; 10; 13] ++
  [OpRemove 9; OpInsert 1 (RID 1); OpRemove 10; OpRemove 2; OpRemove 1; OpRemove 8].
Definition borrow_left_ops : list op :=
  inserts [1; 2; 3; 4; 5; 6; 0] ++ [OpRemove 6].
Definition all_removed_ops : list op :=
  inserts [1; 2; 3; 4; 5; 6; 0] ++ removes [6; 0; 1; 2; 3; 4; 5].
Definition one_left_ops : list op :=
  inserts [1; 2; 3; 4; 5; 6; 0] ++ removes [6; 0; 1; 2; 3; 4; 4].

(** The tree after 1, 2, 3, 4, 5, 6, 0 with both maximal sizes 6: the
    leaves [0, 1, 2, 3] (page 1) and [4, 5, 6] (page 2) under the root
    (page 3). *)
Definition seven_keys_tree : BPlusTree :=
  default (BPlusTree_new 6 6) (run (BPlusTree_new 6 6) (inserts [1; 2; 3; 4; 5; 6; 0])).

(** The tree of the internal-split scenario (leaf_max_size 2,
    internal_max_size 3) after [10, 20, 30, 40, 25], and the state inside
    [Insert(22)] once the leaf on page 2 is split: the root on page 3 is full
    and has to take the pair (25, page 5). *)
Definition odd_tree : option BPlusTree :=
  run (BPlusTree_new 2 3) (inserts [10; 20; 30; 40; 25]).
Definition odd_tree_leaf_split : BPlusTree :=
  (split_leaf 2 (default (BPlusTree_new 2 3) odd_tree)).1.1.

(** The same configuration after [10, 20, 30, 40, 25, 5], where the leaf on
    page 1 is the full leaf [5, 10] under the full root (page 3: keys 20 and
    30), and the state inside [Insert(7)] once that leaf is split: the root
    has to take the pair (10, page 5). *)
Definition low_key_tree : option BPlusTree :=
  run (BPlusTree_new 2 3) (inserts [10; 20; 30; 40; 25; 5]).
Definition low_key_tree_leaf_split : BPlusTree :=
  (split_leaf 1 (default (BPlusTree_new 2 3) low_key_tree)).1.1.

End BPT.

(** ** The earlier version of Insert *)

(** [Insert] as storage/index/b_plus_tree.cpp has it, an earlier state of
    the same function (its [Remove] is empty; [IsEmpty] and [GetValue] are
    the ones above).  The descent, the duplicate check, the split of the
    leaf, the split of a root leaf and the sorted insertion are the
    statements of the later version; the choice of the leaf after a split,
    the split of an internal page and the loop that carries it upwards
    differ, and there are no assertions. *)
Module Snapshot.
Import BPT.

(** The split of a full internal page [root], from [m = root->GetSize()] to
    [root->IncreaseSize(-m/2)]: the upper half of the slots, the middle one
    included, is copied to the slots from 1 on of a new page.  The state,
    the new page ([page_id]) and the key of the middle slot ([tmp_key]). *)
Definition split_internal (root : page_id_t) (t : BPlusTree)
  : BPlusTree * page_id_t * KeyType :=
  let m := GetSize t root in
  let tmp_key := KeyAt t root ((m + 1) / 2) in
  let '(page_id, t) := NewPageGuarded t in
  let t := InternalPage_Init page_id (internal_max_size_ t) t in
  let t := IncreaseSize page_id (m / 2) t in
  let t := for_up ((m + 1) / 2) m
             (λ i t, let idx := 1 + (i - (m + 1) / 2) in
                     copy_slot page_id idx root i t) t in
  let t := IncreaseSize root (Z.quot (- m) 2) t in
  (t, page_id, tmp_key).

(** The block under [if(root->GetSize() == root->GetMaxSize())] behind the
    loop: a new root over the old one, the split of the old root, the
    pending pair into the new page, and the new page as child 1 of the new
    root. *)
Definition root_overflow (root : page_id_t) (insert_key : KeyType)
    (insert_val : page_id_t) (t : BPlusTree) : BPlusTree :=
  let '(new_root_page_id, t) := NewPageGuarded t in
  let t := InternalPage_Init new_root_page_id (internal_max_size_ t) t in
  let t := SetValueAt new_root_page_id 0 (root_page_id_ t) t in
  let t := set_root new_root_page_id t in
  let t := IncreaseSize new_root_page_id 1 t in
  let '(t, page_id, tmp_key) := split_internal root t in
  let t := shift_insert page_id 1 insert_key insert_val t in
  let t := SetKeyAt new_root_page_id 1 tmp_key t in
  SetValueAt new_root_page_id 1 page_id t.

(** What follows the [do ... while] loop when it is left with [root] and
    the pending pair. *)
Definition after_loop (root : page_id_t) (insert_key : KeyType)
    (insert_val : page_id_t) (t : BPlusTree) : BPlusTree :=
  if GetSize t root =? GetMaxSize t root
  then root_overflow root insert_key insert_val t
  else t.

(** The loop
    [do { if (root has room) { insert; goto INSERTION_END; }
          if (write_set.empty()) break;
          parent = pop; split root; insert into new_page;
          root = parent; insert_key = tmp_key; insert_val = page_id;
     } while (!write_set.empty());]
    together with what follows it. *)
Fixpoint Insert_split_up (write_set : list page_id_t) (root : page_id_t)
    (insert_key : KeyType) (insert_val : page_id_t) (t : BPlusTree) : BPlusTree :=
  if GetSize t root <? GetMaxSize t root then
    shift_insert root 1 insert_key insert_val t
  else
    match write_set with
    | [] => after_loop root insert_key insert_val t
    | parent :: write_set' =>
        let '(t, page_id, tmp_key) := split_internal root t in
        let t := shift_insert page_id 1 insert_key insert_val t in
        match write_set' with
        | [] => after_loop parent tmp_key page_id t
        | _ :: _ => Insert_split_up write_set' parent tmp_key page_id t
        end
    end.

Definition Insert (t : BPlusTree) (key : KeyType) (value : ValueType)
  : option (bool * BPlusTree) :=
  if root_page_id_ t =? INVALID_PAGE_ID then
    let '(root, t) := NewPageGuarded t in
    let t := set_root root t in
    let t := LeafPage_Init root (leaf_max_size_ t) t in
    let t := IncreaseSize root 1 t in
    let t := SetKeyAt root 0 key t in
    let t := SetValueAt root 0 value t in
    Some (true, t)
  else
    root ← FetchPage t (root_page_id_ t);
    write_set ← Insert_descend (descent_fuel t) t root key [root];
    match write_set with
    | [] => None
    | leaf :: write_set =>
        if leaf_find t leaf key <? GetSize t leaf then Some (false, t)
        else if GetSize t leaf =? GetMaxSize t leaf then
          let '(t, page_id, tmp_key) := split_leaf leaf t in
          let leaf := page_id in
          match write_set with
          | [] =>
              let t := root_split tmp_key page_id t in
              Some (true, shift_insert leaf 0 key value t)
          | root :: write_set' =>
              let t := shift_insert leaf 0 key value t in
              Some (true, Insert_split_up write_set' root tmp_key page_id t)
          end
        else Some (true, shift_insert leaf 0 key value t)
    end.


(** A run of insertions, and the tree the earlier version has built from
    10, 20, 30, 40, 50 with leaf_max_size 2 and internal_max_size 3: the
    root (page 6) over the internal pages 3 and 7, of which page 7 is
    full. *)
Fixpoint run_inserts (t : BPlusTree) (ks : list KeyType) : option BPlusTree :=
  match ks with
  | [] => Some t
  | k :: ks' => r ← Insert t k (RID k); run_inserts r.2 ks'
  end.
Definition five_inserts_tree : BPlusTree :=
  default (BPlusTree_new 2 3) (run_inserts (BPlusTree_new 2 3) [10; 20; 30; 40; 50]).

End Snapshot.

(** ** The trie of primer/p0_trie.h *)

Module Trie.

(** The template argument [T] of [Insert<T>] and [GetValue<T>], and a value
    together with its runtime type. *)
Inductive type_id := T_int | T_string.
Inductive any_value := VInt (n : Z) | VString (s : string).

Definition type_of (v : any_value) : type_id :=
  match v with VInt _ => T_int | VString _ => T_string end.

(** A default-constructed [T], the [return {}] of [GetValue]. *)
Definition default_value (T : type_id) : any_value :=
  match T with T_int => VInt 0 | T_string => VString "" end.

#[global] Instance type_id_eq_dec : EqDecision type_id.
Proof. solve_decision. Defined.

(** [TrieNode] and its subclass [TrieNodeWithValue<T>] as one tagged node:
    [value_] is [Some v] exactly for an object of the subclass, and then
    [type_of v] is its [T]. *)
Inductive TrieNode := mkTrieNode {
  key_ : ascii;
  is_end_ : bool;
  children_ : gmap ascii TrieNode;
  value_ : option any_value
}.

(** [TrieNode(char)] *)
Definition TrieNode_new (key_char : ascii) : TrieNode :=
  mkTrieNode key_char false ∅ None.
(** [TrieNodeWithValue(TrieNode &&, T)]: the base is move-constructed (key and
    children), then value and end flag are set. *)
Definition TrieNodeWithValue_from (trieNode : TrieNode) (value : any_value) : TrieNode :=
  mkTrieNode (key_ trieNode) true (children_ trieNode) (Some value).
(** [TrieNodeWithValue(char, T)] *)
Definition TrieNodeWithValue_new (key_char : ascii) (value : any_value) : TrieNode :=
  mkTrieNode key_char true ∅ (Some value).

Definition HasChild (n : TrieNode) (key_char : ascii) : bool :=
  bool_decide (is_Some (children_ n !! key_char)).
Definition HasChildren (n : TrieNode) : bool :=
  negb (bool_decide (children_ n = ∅)).
Definition IsEndNode (n : TrieNode) : bool := is_end_ n.
Definition GetChildNode (n : TrieNode) (key_char : ascii) : option TrieNode :=
  children_ n !! key_char.

Definition set_children (n : TrieNode) (m : gmap ascii TrieNode) : TrieNode :=
  mkTrieNode (key_ n) (is_end_ n) m (value_ n).

(** [InsertChildNode]: [None] is the null pointer it returns when the child
    carries another character or the character is taken; otherwise the node
    with the child added. *)
Definition InsertChildNode (n : TrieNode) (key_char : ascii) (child : TrieNode)
  : option TrieNode :=
  if bool_decide (key_ child = key_char) then
    if HasChild n key_char then None
    else Some (set_children n (<[key_char := child]> (children_ n)))
  else None.

Definition RemoveChildNode (n : TrieNode) (key_char : ascii) : TrieNode :=
  set_children n (delete key_char (children_ n)).

(** A write through the pointer [GetChildNode] returned: the child under
    [key_char] is replaced by its new state. *)
Definition store_child (n : TrieNode) (key_char : ascii) (child : TrieNode) : TrieNode :=
  set_children n (<[key_char := child]> (children_ n)).

Record Trie := mkTrie { root_ : TrieNode }.

(** [Trie()] *)
Definition Trie_new : Trie := mkTrie (TrieNode_new "000"%char).

(** The loop of [Insert], from the node [t] points to and the characters
    still to come; [None] is [return false].  [InsertChildNode] cannot
    return the null pointer in the two creating branches (the child was not
    found and carries the character); in the replacing branch the node is
    re-inserted after [RemoveChildNode], and if that fails the node is gone
    and the loop still ends with [true]. *)
Fixpoint Insert_loop (t : TrieNode) (key : list ascii) (value : any_value)
  : option TrieNode :=
  match key with
  | [] => Some t
  | c :: rest =>
      match GetChildNode t c with
      | None =>
          let tmp := match rest with
                     | [] => TrieNodeWithValue_new c value
                     | _ :: _ => TrieNode_new c
                     end in
          let t := default t (InsertChildNode t c tmp) in
          child ← Insert_loop tmp rest value;
          Some (store_child t c child)
      | Some node =>
          match rest with
          | [] =>
              if IsEndNode node then None
              else
                let tmp := TrieNodeWithValue_from node value in
                let t := RemoveChildNode t c in
                Some (default t (InsertChildNode t c tmp))
          | _ :: _ =>
              child ← Insert_loop node rest value;
              Some (store_child t c child)
          end
      end
  end.

Definition Insert (trie : Trie) (key : string) (value : any_value) : bool * Trie :=
  if bool_decide (key = ""%string) then (false, trie)
  else
    match Insert_loop (root_ trie) (String.list_ascii_of_string key) value with
    | Some root => (true, mkTrie root)
    | None => (false, trie)
    end.

(** [RemoveHelper(root, key, i)] on the characters from position [i] on.
    [None]: [key.at(i)] throws, which happens for the empty key only. *)
Fixpoint RemoveHelper (root : TrieNode) (key : list ascii) : option (bool * TrieNode) :=
  match key with
  | [] => None
  | c :: rest =>
      match GetChildNode root c with
      | None => Some (false, root)
      | Some node =>
          match rest with
          | [] =>
              if IsEndNode node then
                if HasChildren node then
                  (* tmp(std::move( *node)) takes over the very node, which
                     is put back under the same character *)
                  let tmp := node in
                  let root := RemoveChildNode root c in
                  Some (true, default root (InsertChildNode root c tmp))
                else Some (true, RemoveChildNode root c)
              else Some (false, root)
          | _ :: _ =>
              '(flag, node) ← RemoveHelper node rest;
              let root := store_child root c node in
              match GetChildNode root c with
              | Some tmp =>
                  if negb (IsEndNode tmp) && negb (HasChildren tmp)
                  then Some (flag, RemoveChildNode root c)
                  else Some (flag, root)
              | None => Some (flag, root)
              end
          end
      end
  end.

Definition Remove (trie : Trie) (key : string) : option (bool * Trie) :=
  '(res, root) ← RemoveHelper (root_ trie) (String.list_ascii_of_string key);
  Some (res, mkTrie root).

(** The walk of [GetValue]: [None] when a character has no child. *)
Fixpoint GetValue_walk (t : TrieNode) (key : list ascii) : option TrieNode :=
  match key with
  | [] => Some t
  | i :: rest =>
      match GetChildNode t i with
      | None => None
      | Some node => GetValue_walk node rest
      end
  end.

(** [GetValue<T>(key, &success)]: the value returned and what [*success] is
    set to.  The [dynamic_cast] succeeds on a [TrieNodeWithValue<T>] only. *)
Definition GetValue (T : type_id) (trie : Trie) (key : string) : any_value * bool :=
  if bool_decide (key = ""%string) then (default_value T, false)
  else
    match GetValue_walk (root_ trie) (String.list_ascii_of_string key) with
    | None => (default_value T, false)
    | Some t =>
        if negb (IsEndNode t) then (default_value T, false)
        else
          match value_ t with
          | Some v =>
              if bool_decide (type_of v = T) then (v, true)
              else (default_value T, false)
          | None => (default_value T, false)
          end
    end.

(** A node reached from [t] along the characters of a key. *)
Inductive reaches : TrieNode → list ascii → TrieNode → Prop :=
  | reaches_here t : reaches t [] t
  | reaches_step t c child rest n :
      children_ t !! c = Some child → reaches child rest n →
      reaches t (c :: rest) n.

(** The invariant of the children maps: a child is filed under its own
    key character, in every node. *)
Inductive keyed : TrieNode → Prop :=
  | keyed_node t :
      (∀ c child, children_ t !! c = Some child → key_ child = c) →
      (∀ c child, children_ t !! c = Some child → keyed child) →
      keyed t.

(** What a lookup sees of the node a walk ends on: nothing unless the node
    is terminal, and then its value. *)
Definition terminal_value (o : option TrieNode) : option (option any_value) :=
  match o with
  | Some n => if is_end_ n then Some (value_ n) else None
  | None => None
  end.

(** The tries of the scenarios. *)
Definition abc_trie : Trie := (Insert Trie_new "abc" (VInt 7)).2.
Definition abcd_trie : Trie := (Insert abc_trie "abcd" (VInt 9)).2.

End Trie.

(** ** The sequential scan of execution/seq_scan_executor.cpp *)

Module SeqScan.

Definition EXECUTOR_ACTIVE : bool := true.
Definition EXECUTOR_EXHAUSTED : bool := false.

Section executor.
(** The table iterator, the tuples and their meta data are classes of the
    storage layer; the executor uses them through [IsEnd], [GetTuple],
    [GetRID], [operator++] and the field [is_deleted_] only. *)
Context {TableIterator TupleMeta Tuple RID : Type}.
Variable IsEnd : TableIterator → bool.
Variable GetTuple : TableIterator → TupleMeta * Tuple.
Variable GetRID : TableIterator → RID.
Variable incr : TableIterator → TableIterator.
Variable is_deleted_ : TupleMeta → bool.

(** [Next]: the [do ... while (tuple_meta.is_deleted_)] loop on the state
    [table_iterator_], [*tuple], [*rid].  The loop ends only if the iterator
    does; [None] is a run that does not return within [fuel] rounds. *)
Fixpoint Next (fuel : nat) (table_iterator_ : TableIterator) (tuple : Tuple) (rid : RID)
  : option (bool * TableIterator * Tuple * RID) :=
  match fuel with
  | O => None
  | S fuel' =>
      if IsEnd table_iterator_ then Some (EXECUTOR_EXHAUSTED, table_iterator_, tuple, rid)
      else
        let tuple_pair := GetTuple table_iterator_ in
        let tuple_meta := tuple_pair.1 in
        let tuple := tuple_pair.2 in
        let rid := GetRID table_iterator_ in
        let table_iterator_ := incr table_iterator_ in
        if is_deleted_ tuple_meta then Next fuel' table_iterator_ tuple rid
        else Some (EXECUTOR_ACTIVE, table_iterator_, tuple, rid)
  end.
End executor.

(** A table iterator over the rows of a list, for runs of the executor. *)
Definition rows_IsEnd (rows : list (bool * Z * Z)) : bool :=
  match rows with [] => true | _ => false end.
Definition rows_GetTuple (rows : list (bool * Z * Z)) : bool * Z :=
  match rows with [] => (false, 0%Z) | (d, tu, _) :: _ => (d, tu) end.
Definition rows_GetRID (rows : list (bool * Z * Z)) : Z :=
  match rows with [] => 0%Z | (_, _, r) :: _ => r end.

End SeqScan.

(** * Facts about the page store *)

Import BPT.

Section store.
Implicit Types (t : BPlusTree) (p q : page_id_t) (a : list (Z * Z)).

Lemma slot_set_slot a i e j :
  slot (set_slot a i e) j = if decide (0 ≤ i ∧ i = j) then e else slot a j.
Proof.
  unfold slot, set_slot.
  destruct (Z.ltb_spec i 0) as [Hi|Hi].
  { case_decide; [lia | done]. }
  destruct (Z.ltb_spec j 0) as [Hj|Hj].
  { case_decide; [lia | done]. }
  destruct (Nat.ltb_spec (Z.to_nat i) (length a)) as [Hl|Hl].
  - case_decide as Hd.
    + destruct Hd as [_ <-]. by rewrite list_lookup_insert_eq.
    + assert (i ≠ j) by (intros ->; apply Hd; done).
      rewrite list_lookup_insert_ne by lia. done.
  - case_decide as Hd.
    + destruct Hd as [_ <-].
      rewrite lookup_app_r by lia.
      rewrite lookup_app_r; rewrite length_replicate; [|lia].
      by replace (Z.to_nat i - length a - (Z.to_nat i - length a))%nat with 0%nat by lia.
    + assert (i ≠ j) by (intros ->; apply Hd; done).
      destruct (decide (Z.to_nat j < length a)%nat).
      * by rewrite lookup_app_l.
      * rewrite lookup_app_r by lia.
        rewrite (lookup_ge_None_2 a) by lia.
        destruct (decide (Z.to_nat j - length a < Z.to_nat i - length a)%nat).
        -- rewrite lookup_app_l by (rewrite length_replicate; lia).
           by rewrite lookup_replicate_2.
        -- rewrite lookup_app_r by (rewrite length_replicate; lia).
           rewrite length_replicate.
           rewrite lookup_ge_None_2; [done | simpl; lia].
Qed.

Lemma page_upd p f t q :
  page (upd p f t) q = if decide (p = q) then f (page t p) else page t q.
Proof.
  unfold page at 1, upd; simpl.
  case_decide as Hd.
  - subst. by rewrite lookup_insert_eq.
  - by rewrite lookup_insert_ne.
Qed.

Lemma page_set_root r t q : page (set_root r t) q = page t q.
Proof. done. Qed.

Lemma page_NewPageGuarded t q :
  page (NewPageGuarded t).2 q = if decide (next_alloc_ t = q) then zero_page else page t q.
Proof.
  unfold page at 1, NewPageGuarded; simpl.
  case_decide as Hd.
  - subst. by rewrite lookup_insert_eq.
  - by rewrite lookup_insert_ne.
Qed.
End store.

Section observers.
Implicit Types (t : BPlusTree) (p q : page_id_t).

Lemma KeyAt_slot_at t p i : KeyAt t p i = (slot_at t p i).1.
Proof. done. Qed.
Lemma ValueAt_slot_at t p i : ValueAt t p i = (slot_at t p i).2.
Proof. done. Qed.
Lemma GetSize_hdr t t' p : hdr t p = hdr t' p → GetSize t p = GetSize t' p.
Proof. unfold hdr, GetSize. congruence. Qed.
Lemma GetMaxSize_hdr t t' p : hdr t p = hdr t' p → GetMaxSize t p = GetMaxSize t' p.
Proof. unfold hdr, GetMaxSize. congruence. Qed.
Lemma GetNextPageId_hdr t t' p : hdr t p = hdr t' p → GetNextPageId t p = GetNextPageId t' p.
Proof. unfold hdr, GetNextPageId. congruence. Qed.
Lemma IsLeafPage_hdr t t' p : hdr t p = hdr t' p → IsLeafPage t p = IsLeafPage t' p.
Proof. unfold hdr, IsLeafPage. intros [= -> _ _ _]. done. Qed.

(** Writes to slots leave every header alone; a write to slot [i] of [p]
    is seen at that slot only. *)
Lemma hdr_SetKeyAt p i k t q : hdr (SetKeyAt p i k t) q = hdr t q.
Proof. unfold hdr, SetKeyAt. rewrite page_upd. by case_decide; subst. Qed.
Lemma hdr_SetValueAt p i v t q : hdr (SetValueAt p i v t) q = hdr t q.
Proof. unfold hdr, SetValueAt. rewrite page_upd. by case_decide; subst. Qed.
Lemma hdr_copy_slot dst i src j t q : hdr (copy_slot dst i src j t) q = hdr t q.
Proof. unfold copy_slot. by rewrite hdr_SetValueAt, hdr_SetKeyAt. Qed.

Lemma slot_at_SetKeyAt p i k t q j :
  slot_at (SetKeyAt p i k t) q j =
  if decide (p = q ∧ 0 ≤ i ∧ i = j) then (k, (slot_at t q j).2) else slot_at t q j.
Proof.
  unfold slot_at, SetKeyAt. rewrite page_upd.
  destruct (decide (p = q)) as [->|Hpq]; simpl.
  - rewrite slot_set_slot.
    destruct (decide (0 ≤ i ∧ i = j)) as [[? ->]|Hn].
    + by rewrite decide_True.
    + rewrite decide_False; [done | intros (_ & ? & ?); by apply Hn].
  - rewrite decide_False; [done | by intros (? & _)].
Qed.
Lemma slot_at_SetValueAt p i v t q j :
  slot_at (SetValueAt p i v t) q j =
  if decide (p = q ∧ 0 ≤ i ∧ i = j) then ((slot_at t q j).1, v) else slot_at t q j.
Proof.
  unfold slot_at, SetValueAt. rewrite page_upd.
  destruct (decide (p = q)) as [->|Hpq]; simpl.
  - rewrite slot_set_slot.
    destruct (decide (0 ≤ i ∧ i = j)) as [[? ->]|Hn].
    + by rewrite decide_True.
    + rewrite decide_False; [done | intros (_ & ? & ?); by apply Hn].
  - rewrite decide_False; [done | by intros (? & _)].
Qed.
Lemma slot_at_copy_slot dst i src j t q k :
  slot_at (copy_slot dst i src j t) q k =
  if decide (dst = q ∧ 0 ≤ i ∧ i = k) then slot_at t src j else slot_at t q k.
Proof.
  unfold copy_slot. rewrite slot_at_SetValueAt, ValueAt_slot_at, !slot_at_SetKeyAt.
  rewrite KeyAt_slot_at.
  destruct (decide (dst = q ∧ 0 ≤ i ∧ i = k)) as [(Hq & Hi & Hk)|Hne]; [|done].
  subst q k. simpl.
  destruct (decide (dst = src ∧ 0 ≤ i ∧ i = j)) as [(Hs & _ & Hj)|?]; simpl.
  - subst. by destruct (slot_at t src j).
  - by destruct (slot_at t src j).
Qed.

(** Header updates leave every slot alone. *)
Lemma slot_at_IncreaseSize p n t q j : slot_at (IncreaseSize p n t) q j = slot_at t q j.
Proof. unfold slot_at, IncreaseSize. rewrite page_upd. by case_decide; subst. Qed.
Lemma slot_at_SetNextPageId p n t q j : slot_at (SetNextPageId p n t) q j = slot_at t q j.
Proof. unfold slot_at, SetNextPageId. rewrite page_upd. by case_decide; subst. Qed.
Lemma slot_at_LeafPage_Init p n t q j : slot_at (LeafPage_Init p n t) q j = slot_at t q j.
Proof. unfold slot_at, LeafPage_Init. rewrite page_upd. by case_decide; subst. Qed.
Lemma slot_at_InternalPage_Init p n t q j : slot_at (InternalPage_Init p n t) q j = slot_at t q j.
Proof. unfold slot_at, InternalPage_Init. rewrite page_upd. by case_decide; subst. Qed.
Lemma slot_at_set_root r t q j : slot_at (set_root r t) q j = slot_at t q j.
Proof. done. Qed.
Lemma slot_at_NewPageGuarded t q j :
  slot_at (NewPageGuarded t).2 q j =
  if decide (next_alloc_ t = q) then (0, 0) else slot_at t q j.
Proof.
  unfold slot_at. rewrite page_NewPageGuarded. case_decide; [|done].
  unfold slot; simpl. by destruct (j <? 0).
Qed.

Lemma hdr_IncreaseSize p n t q :
  hdr (IncreaseSize p n t) q =
  if decide (p = q) then
    let '(ty, sz, mx, nx) := hdr t q in (ty, sz + n, mx, nx)
  else hdr t q.
Proof. unfold hdr, IncreaseSize. rewrite page_upd. by case_decide; subst. Qed.
Lemma hdr_SetNextPageId p n t q :
  hdr (SetNextPageId p n t) q =
  if decide (p = q) then
    let '(ty, sz, mx, nx) := hdr t q in (ty, sz, mx, n)
  else hdr t q.
Proof. unfold hdr, SetNextPageId. rewrite page_upd. by case_decide; subst. Qed.
Lemma hdr_LeafPage_Init p n t q :
  hdr (LeafPage_Init p n t) q =
  if decide (p = q) then (LEAF_PAGE, 0, n, INVALID_PAGE_ID) else hdr t q.
Proof. unfold hdr, LeafPage_Init. rewrite page_upd. by case_decide; subst. Qed.
Lemma hdr_InternalPage_Init p n t q :
  hdr (InternalPage_Init p n t) q =
  if decide (p = q) then (INTERNAL_PAGE, 1, n, (hdr t q).2) else hdr t q.
Proof. unfold hdr, InternalPage_Init. rewrite page_upd. by case_decide; subst. Qed.
Lemma hdr_set_root r t q : hdr (set_root r t) q = hdr t q.
Proof. done. Qed.
Lemma hdr_NewPageGuarded t q :
  hdr (NewPageGuarded t).2 q =
  if decide (next_alloc_ t = q) then (INVALID_INDEX_PAGE, 0, 0, 0) else hdr t q.
Proof. unfold hdr. rewrite page_NewPageGuarded. by case_decide. Qed.

End observers.

(** ** Loops *)
Section loops.
Context {St : Type}.
Implicit Types (body : Z → St → St) (P : Z → St → Prop).

Lemma loop_up_invariant P n j body s :
  P j s →
  (∀ k s, j ≤ k < j + Z.of_nat n → P k s → P (k + 1) (body k s)) →
  P (j + Z.of_nat n) (loop_up n j body s).
Proof.
  revert j s. induction n as [|n IH]; intros j s H0 Hstep; simpl.
  - by replace (j + Z.of_nat 0) with j by lia.
  - replace (j + Z.of_nat (S n)) with ((j + 1) + Z.of_nat n) by lia.
    apply IH.
    + apply Hstep; [lia | done].
    + intros k s' Hk. apply Hstep. lia.
Qed.

Lemma for_up_invariant P a b body s :
  a ≤ b → P a s →
  (∀ k s, a ≤ k < b → P k s → P (k + 1) (body k s)) →
  P b (for_up a b body s).
Proof.
  intros Hab H0 Hstep. unfold for_up.
  replace b with (a + Z.of_nat (Z.to_nat (b - a))) at 1 by lia.
  apply loop_up_invariant; [done|].
  intros k s' Hk. apply Hstep. lia.
Qed.

Lemma for_up_empty a b body s : b ≤ a → for_up a b body s = s.
Proof. intros. unfold for_up. by replace (Z.to_nat (b - a)) with 0%nat by lia. Qed.

Lemma loop_down_invariant P n j body s :
  P j s →
  (∀ k s, j - Z.of_nat n < k ≤ j → P k s → P (k - 1) (body k s)) →
  P (j - Z.of_nat n) (loop_down n j body s).
Proof.
  revert j s. induction n as [|n IH]; intros j s H0 Hstep; simpl.
  - by replace (j - Z.of_nat 0) with j by lia.
  - replace (j - Z.of_nat (S n)) with ((j - 1) - Z.of_nat n) by lia.
    apply IH.
    + apply Hstep; [lia | done].
    + intros k s' Hk. apply Hstep. lia.
Qed.

Lemma for_down_invariant P a b body s :
  b ≤ a + 1 → P a s →
  (∀ k s, b ≤ k ≤ a → P k s → P (k - 1) (body k s)) →
  P (b - 1) (for_down a b body s).
Proof.
  intros Hab H0 Hstep. unfold for_down.
  replace (b - 1) with (a - Z.of_nat (Z.to_nat (a - b + 1))) by lia.
  apply loop_down_invariant; [done|].
  intros k s' Hk. apply Hstep. lia.
Qed.

Lemma scan_from_spec n i (Q : Z → bool) :
  let r := scan_from n i Q in
  i ≤ r ≤ i + Z.of_nat n ∧
  (∀ k, i ≤ k < r → Q k = false) ∧
  (r < i + Z.of_nat n → Q r = true).
Proof.
  revert i. induction n as [|n IH]; intros i; simpl.
  - split; [lia|]. split; [intros; lia | lia].
  - destruct (Q i) eqn:HQ.
    + split; [lia|]. split; [intros; lia | done].
    + destruct (IH (i + 1)) as (Hr & Hlt & Hat).
      split; [lia|]. split.
      * intros k Hk. destruct (decide (k = i)) as [->|]; [done|]. apply Hlt. lia.
      * intros. apply Hat. lia.
Qed.

Lemma scan_spec a b (Q : Z → bool) :
  a ≤ b →
  let r := scan a b Q in
  a ≤ r ≤ b ∧ (∀ k, a ≤ k < r → Q k = false) ∧ (r < b → Q r = true).
Proof.
  intros Hab. unfold scan.
  destruct (scan_from_spec (Z.to_nat (b - a)) a Q) as (Hr & Hlt & Hat).
  simpl. split; [lia|]. split; [done|]. intros. apply Hat. lia.
Qed.

Lemma scan_empty a b (Q : Z → bool) : b ≤ a → scan a b Q = a.
Proof. intros. unfold scan. by replace (Z.to_nat (b - a)) with 0%nat by lia. Qed.
End loops.

(** ** Lookup and the duplicate check of Insert *)
Section duplicate.
Implicit Types (t : BPlusTree).

(** The read descent of [GetValue] and the write descent of [Insert] visit
    the same pages: when the first ends, the second ends on the same leaf. *)
Lemma GetValue_loop_Insert_descend fuel t root key result b result' ws :
  GetValue_loop fuel t root key result = Some (b, result') →
  ∃ leaf ws',
    Insert_descend fuel t root key (root :: ws) = Some (leaf :: ws') ∧
    IsLeafPage t leaf = true ∧
    b = (leaf_find t leaf key <? GetSize t leaf) ∧
    result' = if b then result ++ [ValueAt t leaf (leaf_find t leaf key)] else result.
Proof.
  revert root ws. induction fuel as [|fuel IH]; intros root ws; simpl; [done|].
  destruct (IsLeafPage t root) eqn:Hleaf.
  - intros Hget. exists root, ws. split; [done|]. split; [done|].
    destruct (leaf_find t root key <? GetSize t root); by simplify_eq.
  - destruct (FetchPage t (descend_child t root key)) as [child|] eqn:Hfetch; simpl; [|done].
    intros Hget.
    assert (child = descend_child t root key) as Hc.
    { unfold FetchPage in Hfetch. destruct (pages_ t !! _); by simplify_eq. }
    destruct (IH child (root :: ws) Hget) as (leaf & ws' & Hd & ?).
    exists leaf, ws'. by split.
Qed.

Theorem Insert_duplicate t key value value' :
  GetValue t key [] = Some (true, [value]) →
  Insert t key value' = Some (false, t) ∧
  GetValue t key [] = Some (true, [value]).
Proof.
  intros Hget. split; [|done].
  unfold GetValue in Hget. unfold Insert.
  destruct (root_page_id_ t =? INVALID_PAGE_ID); [done|].
  destruct (FetchPage t (root_page_id_ t)) as [root|]; [|done].
  cbn [mbind option_bind] in *.
  destruct (GetValue_loop_Insert_descend _ _ _ _ _ _ _ [] Hget)
    as (leaf & ws' & -> & _ & Hfound & _).
  cbn [mbind option_bind]. by rewrite <- Hfound.
Qed.
End duplicate.

(** ** The leaf split *)
Section leaf_split.
Implicit Types (t : BPlusTree).

Lemma half_sizes m : 0 ≤ m → m / 2 = m - (m + 1) / 2 ∧ Z.quot (- m) 2 = - (m - (m + 1) / 2).
Proof.
  intros Hm. assert (m / 2 = m - (m + 1) / 2) as H by (Z.div_mod_to_equations; lia).
  split; [done|].
  rewrite Z.quot_opp_l by lia. rewrite Z.quot_div_nonneg by lia. lia.
Qed.

Lemma split_leaf_spec t leaf :
  leaf ≠ next_alloc_ t →
  0 ≤ GetSize t leaf →
  let m := GetSize t leaf in
  let mid := (m + 1) / 2 in
  let '(t', page_id, tmp_key) := split_leaf leaf t in
  page_id = next_alloc_ t ∧
  IsLeafPage t' page_id = true ∧
  GetSize t' page_id = m - mid ∧
  (∀ i, 0 ≤ i < m - mid → slot_at t' page_id i = slot_at t leaf (mid + i)) ∧
  GetSize t' leaf = mid ∧
  (∀ i, slot_at t' leaf i = slot_at t leaf i) ∧
  GetNextPageId t' page_id = GetNextPageId t leaf ∧
  GetNextPageId t' leaf = page_id ∧
  tmp_key = KeyAt t leaf mid ∧
  (2 ≤ m → tmp_key = KeyAt t' page_id 0).
Proof.
  intros Hfresh Hm0 m mid. unfold split_leaf. fold m. fold mid.
  destruct (half_sizes m Hm0) as [Hhalf Hquot]. fold mid in Hhalf, Hquot.
  assert (0 ≤ mid ≤ m) as Hmid by (unfold mid; Z.div_mod_to_equations; lia).
  set (page_id := next_alloc_ t).
  cbn [NewPageGuarded fst snd]. fold page_id.
  set (t1 := mkTree _ _ _ _ _).
  assert (t1 = (NewPageGuarded t).2) as Ht1 by done.
  replace (leaf_max_size_ t1) with (leaf_max_size_ t) by done.
  set (t3 := IncreaseSize page_id (m / 2) (LeafPage_Init page_id (leaf_max_size_ t) t1)).
  set (body := λ (i : Z) (t0 : BPlusTree), copy_slot page_id (i - mid) leaf i t0).
  assert (∀ q, hdr (for_up mid m body t3) q = hdr t3 q ∧
          (∀ i, mid ≤ i < m → slot_at (for_up mid m body t3) page_id (i - mid) = slot_at t leaf i) ∧
          (∀ i, slot_at (for_up mid m body t3) leaf i = slot_at t leaf i)) as Hloop.
  { intros q.
    apply (for_up_invariant (λ k s,
             hdr s q = hdr t3 q ∧
             (∀ i, mid ≤ i < k → slot_at s page_id (i - mid) = slot_at t leaf i) ∧
             (∀ i, slot_at s leaf i = slot_at t leaf i))); [lia| |].
    - split; [done|]. split; [intros; lia|].
      intros i. unfold t3. rewrite slot_at_IncreaseSize, slot_at_LeafPage_Init, Ht1.
      rewrite slot_at_NewPageGuarded. by rewrite decide_False by done.
    - intros k s Hk (Hh & Hcopied & Hleaf). unfold body.
      split; [by rewrite hdr_copy_slot|]. split.
      + intros i Hi. rewrite slot_at_copy_slot.
        destruct (decide (i = k)) as [->|Hik].
        * rewrite decide_True by (split; [done | lia]). apply Hleaf.
        * rewrite decide_False by lia. apply Hcopied. lia.
      + intros i. rewrite slot_at_copy_slot.
        rewrite decide_False; [apply Hleaf | intros (? & _); by apply Hfresh]. }
  set (t4 := for_up mid m body t3) in *.
  assert (hdr t3 page_id = (LEAF_PAGE, m / 2, leaf_max_size_ t, INVALID_PAGE_ID)) as Hh3.
  { unfold t3. rewrite hdr_IncreaseSize, decide_True by done.
    rewrite hdr_LeafPage_Init, decide_True by done. simpl. done. }
  assert (hdr t3 leaf = hdr t leaf) as Hh3l.
  { unfold t3. rewrite hdr_IncreaseSize, decide_False by done.
    rewrite hdr_LeafPage_Init, decide_False by done.
    rewrite Ht1, hdr_NewPageGuarded. by rewrite decide_False by done. }
  assert (hdr t4 page_id = hdr t3 page_id) as Hh4 by apply Hloop.
  assert (hdr t4 leaf = hdr t3 leaf) as Hh4l by apply Hloop.
  set (t5 := IncreaseSize leaf (Z.quot (- m) 2) t4).
  set (t6 := SetNextPageId page_id (GetNextPageId t5 leaf) t5).
  set (t7 := SetNextPageId leaf page_id t6).
  assert (hdr t5 page_id = (LEAF_PAGE, m / 2, leaf_max_size_ t, INVALID_PAGE_ID)) as Hh5.
  { unfold t5. rewrite hdr_IncreaseSize, decide_False by done. by rewrite Hh4. }
  assert (hdr t5 leaf = (page_type_ (page t leaf), m + Z.quot (- m) 2,
                         max_size_ (page t leaf), GetNextPageId t leaf)) as Hh5l.
  { unfold t5. rewrite hdr_IncreaseSize, decide_True by done.
    rewrite Hh4l, Hh3l. done. }
  assert (GetNextPageId t5 leaf = GetNextPageId t leaf) as Hn5.
  { unfold GetNextPageId at 1.
    change (next_page_id_ (page t5 leaf)) with (hdr t5 leaf).2. by rewrite Hh5l. }
  assert (hdr t7 page_id = (LEAF_PAGE, m / 2, leaf_max_size_ t, GetNextPageId t leaf)) as Hh7.
  { unfold t7, t6. rewrite hdr_SetNextPageId, decide_False by done.
    rewrite hdr_SetNextPageId, decide_True by done.
    rewrite Hh5, Hn5. done. }
  assert (hdr t7 leaf = (page_type_ (page t leaf), m + Z.quot (- m) 2,
                         max_size_ (page t leaf), page_id)) as Hh7l.
  { unfold t7, t6. rewrite hdr_SetNextPageId, decide_True by done.
    rewrite hdr_SetNextPageId, decide_False by done.
    rewrite Hh5l. done. }
  assert (∀ q i, slot_at t7 q i = slot_at t4 q i) as Hs7.
  { intros q i. unfold t7, t6, t5.
    by rewrite !slot_at_SetNextPageId, slot_at_IncreaseSize. }
  split; [done|].
  split. { unfold IsLeafPage. change (page_type_ (page t7 page_id)) with (hdr t7 page_id).1.1.1.
           by rewrite Hh7. }
  split. { unfold GetSize at 1. change (size_ (page t7 page_id)) with (hdr t7 page_id).1.1.2.
           rewrite Hh7. simpl. lia. }
  split. { intros i Hi. rewrite Hs7.
           replace i with ((mid + i) - mid) at 1 by lia.
           destruct (Hloop 0) as (_ & Hc & _). apply Hc. lia. }
  split. { unfold GetSize at 1. change (size_ (page t7 leaf)) with (hdr t7 leaf).1.1.2.
           rewrite Hh7l. simpl. lia. }
  split. { intros i. rewrite Hs7. apply Hloop. done. }
  split. { unfold GetNextPageId at 1.
           change (next_page_id_ (page t7 page_id)) with (hdr t7 page_id).2. by rewrite Hh7. }
  split. { unfold GetNextPageId at 1.
           change (next_page_id_ (page t7 leaf)) with (hdr t7 leaf).2. by rewrite Hh7l. }
  split; [done|].
  intros Hm2. rewrite !KeyAt_slot_at, Hs7.
  replace 0 with (mid - mid) by lia.
  destruct (Hloop 0) as (_ & Hc & _). rewrite Hc; [done | unfold mid; Z.div_mod_to_equations; lia].
Qed.
End leaf_split.

(** ** Slot-moving loops *)
Section shifts.
Implicit Types (t : BPlusTree) (p q : page_id_t).

Lemma hdr_for_up a b (body : Z → BPlusTree → BPlusTree) t q :
  (∀ k s, hdr (body k s) q = hdr s q) → hdr (for_up a b body t) q = hdr t q.
Proof.
  intros Hbody. destruct (decide (a ≤ b)) as [Hab|Hab].
  - apply (for_up_invariant (λ _ s, hdr s q = hdr t q)); [done..|].
    intros k s _ Hs. by rewrite Hbody.
  - by rewrite for_up_empty by lia.
Qed.

Lemma hdr_for_down a b (body : Z → BPlusTree → BPlusTree) t q :
  (∀ k s, hdr (body k s) q = hdr s q) → hdr (for_down a b body t) q = hdr t q.
Proof.
  intros Hbody. unfold for_down. generalize (Z.to_nat (a - b + 1)). intros n.
  revert a t. induction n as [|n IH]; intros a t; simpl; [done|].
  by rewrite IH, Hbody.
Qed.

(** [for (j = a; j < b; j++) slot j - 1 = slot j] on one page: the slots
    [a .. b-1] move down by one, every other slot stays. *)
Lemma shift_left_loop p a b t :
  1 ≤ a →
  let s := for_up a b (λ j t, copy_slot p (j - 1) p j t) t in
  (∀ q, hdr s q = hdr t q) ∧
  (∀ i, a - 1 ≤ i < b - 1 → slot_at s p i = slot_at t p (i + 1)) ∧
  (∀ i, ¬ (a - 1 ≤ i < b - 1) → slot_at s p i = slot_at t p i) ∧
  (∀ q i, q ≠ p → slot_at s q i = slot_at t q i).
Proof.
  intros Ha s. split.
  { intros q. apply hdr_for_up. intros. apply hdr_copy_slot. }
  destruct (decide (a ≤ b)) as [Hab|Hab].
  2: { subst s. rewrite for_up_empty by lia. repeat split; try done. intros; lia. }
  subst s.
  apply (for_up_invariant (λ k s,
    (∀ i, a - 1 ≤ i < k - 1 → slot_at s p i = slot_at t p (i + 1)) ∧
    (∀ i, ¬ (a - 1 ≤ i < k - 1) → slot_at s p i = slot_at t p i) ∧
    (∀ q i, q ≠ p → slot_at s q i = slot_at t q i))); [done| |].
  - split; [intros; lia|]. by split.
  - intros k s Hk (Hmoved & Hrest & Hother). split; [|split].
    + intros i Hi. rewrite slot_at_copy_slot.
      destruct (decide (i = k - 1)) as [->|Hik].
      * rewrite decide_True by (split; [done | lia]).
        replace (k - 1 + 1) with k by lia. apply Hrest. lia.
      * rewrite decide_False by lia. apply Hmoved. lia.
    + intros i Hi. rewrite slot_at_copy_slot.
      rewrite decide_False by lia. apply Hrest. lia.
    + intros q i Hq. rewrite slot_at_copy_slot.
      rewrite decide_False; [by apply Hother | intros (? & _); by apply Hq].
Qed.

(** [for (j = a; j >= b; j--) slot j = slot j - 1] on one page: the slots
    [b-1 .. a-1] move up by one. *)
Lemma shift_right_loop p a b t :
  0 ≤ b →
  let s := for_down a b (λ j t, copy_slot p j p (j - 1) t) t in
  (∀ q, hdr s q = hdr t q) ∧
  (∀ i, b ≤ i ≤ a → slot_at s p i = slot_at t p (i - 1)) ∧
  (∀ i, ¬ (b ≤ i ≤ a) → slot_at s p i = slot_at t p i) ∧
  (∀ q i, q ≠ p → slot_at s q i = slot_at t q i).
Proof.
  intros Hb s. split.
  { intros q. apply hdr_for_down. intros. apply hdr_copy_slot. }
  destruct (decide (b ≤ a + 1)) as [Hab|Hab].
  2: { subst s. unfold for_down. replace (Z.to_nat (a - b + 1)) with 0%nat by lia.
       simpl. repeat split; try done. intros; lia. }
  subst s.
  set (P := λ (k : Z) (s : BPlusTree),
    (∀ i, k < i ≤ a → slot_at s p i = slot_at t p (i - 1)) ∧
    (∀ i, ¬ (k < i ≤ a) → slot_at s p i = slot_at t p i) ∧
    (∀ q i, q ≠ p → slot_at s q i = slot_at t q i)).
  assert (P (b - 1) (for_down a b (λ j t, copy_slot p j p (j - 1) t) t)) as (H1 & H2 & H3).
  { apply for_down_invariant; [done| |].
    - split; [intros; lia|]. by split.
    - intros k s Hk (Hmoved & Hrest & Hother). split; [|split].
      + intros i Hi. rewrite slot_at_copy_slot.
        destruct (decide (i = k)) as [->|Hik].
        * rewrite decide_True by (split; [done | lia]). apply Hrest. lia.
        * rewrite decide_False by lia. apply Hmoved. lia.
      + intros i Hi. rewrite slot_at_copy_slot.
        rewrite decide_False by lia. apply Hrest. lia.
      + intros q i Hq. rewrite slot_at_copy_slot.
        rewrite decide_False; [by apply Hother | intros (? & _); by apply Hq]. }
  split; [|split]; [| |done].
  - intros i Hi. apply H1. lia.
  - intros i Hi. apply H2. lia.
Qed.
End shifts.

Lemma GetSize_alt t p : GetSize t p = (hdr t p).1.1.2.
Proof. done. Qed.
Lemma GetNextPageId_alt t p : GetNextPageId t p = (hdr t p).2.
Proof. done. Qed.
Lemma GetMaxSize_alt t p : GetMaxSize t p = (hdr t p).1.2.
Proof. done. Qed.
Lemma hdr_eta t p : hdr t p = ((hdr t p).1.1.1, (hdr t p).1.1.2, (hdr t p).1.2, (hdr t p).2).
Proof. by destruct (hdr t p) as [[[? ?] ?] ?]. Qed.

Lemma GetSize_IncreaseSize p n t q :
  GetSize (IncreaseSize p n t) q = if decide (p = q) then GetSize t q + n else GetSize t q.
Proof.
  rewrite !GetSize_alt, hdr_IncreaseSize. case_decide; [|done].
  by destruct (hdr t q) as [[[? ?] ?] ?].
Qed.
Lemma GetSize_copy_slot dst i src j t q : GetSize (copy_slot dst i src j t) q = GetSize t q.
Proof. by rewrite !GetSize_alt, hdr_copy_slot. Qed.
Lemma GetSize_SetKeyAt p i k t q : GetSize (SetKeyAt p i k t) q = GetSize t q.
Proof. by rewrite !GetSize_alt, hdr_SetKeyAt. Qed.
Lemma GetSize_SetValueAt p i k t q : GetSize (SetValueAt p i k t) q = GetSize t q.
Proof. by rewrite !GetSize_alt, hdr_SetValueAt. Qed.

Ltac store_side := solve [ done | lia | congruence | intuition (lia || congruence) ].
Ltac store_rw :=
  repeat first
    [ rewrite GetSize_copy_slot | rewrite GetSize_SetKeyAt | rewrite GetSize_SetValueAt
    | rewrite GetSize_IncreaseSize
    | rewrite slot_at_copy_slot | rewrite slot_at_SetKeyAt | rewrite slot_at_SetValueAt
    | rewrite slot_at_IncreaseSize | rewrite slot_at_SetNextPageId
    | rewrite decide_True by store_side | rewrite decide_False by store_side ].

(** ** The leaf borrow *)
Section leaf_borrow.
Implicit Types (t : BPlusTree) (p q : page_id_t).

(** The borrow from the right sibling. *)
Lemma leaf_steal_from_next t leaf root leaf_position prev next :
  leaf ≠ next → leaf ≠ root → next ≠ root →
  steal_from_prev (IncreaseSize leaf 1 t) prev (Some next) = false →
  0 ≤ GetSize t leaf → 0 ≤ leaf_position →
  ∃ t' update_key,
    leaf_steal leaf root leaf_position prev (Some next) t = Some (t', update_key) ∧
    GetSize t' leaf = GetSize t leaf + 1 ∧
    (∀ i, 0 ≤ i < GetSize t leaf → slot_at t' leaf i = slot_at t leaf i) ∧
    slot_at t' leaf (GetSize t leaf) = slot_at t next 0 ∧
    GetSize t' next = GetSize t next - 1 ∧
    (∀ i, 0 ≤ i < GetSize t next - 1 → slot_at t' next i = slot_at t next (i + 1)) ∧
    KeyAt t' root (leaf_position + 1) = KeyAt t' next 0.
Proof.
  intros Hln Hlr Hnr Hdonor Hs Hp. unfold leaf_steal. rewrite Hdonor.
  cbn [mbind option_bind].
  set (s := GetSize t leaf) in *.
  set (r := GetSize t next).
  set (t1 := IncreaseSize leaf 1 t).
  assert (GetSize t1 leaf = s + 1) as Hs1 by (unfold t1; store_rw; done).
  rewrite Hs1. replace (s + 1 - 1) with s by lia.
  set (t2 := copy_slot leaf s next 0 t1).
  assert (GetSize t2 next = r) as Hr2 by (unfold t2, t1; store_rw; done).
  rewrite Hr2.
  destruct (shift_left_loop next 1 r t2) as (Hh3 & Hmv3 & Hrest3 & Hoth3); [lia|].
  set (t3 := for_up 1 r _ t2) in *.
  set (t4 := IncreaseSize next (-1) t3).
  set (t5 := SetKeyAt root (leaf_position + 1) (KeyAt t4 next 0) t4).
  set (t6 := if leaf_position >? 0 then SetKeyAt root leaf_position (KeyAt t5 leaf 0) t5 else t5).
  assert (∀ q, q ≠ root → ∀ i, slot_at t6 q i = slot_at t3 q i) as Hs6.
  { intros q Hq i. unfold t6. destruct (leaf_position >? 0); unfold t5, t4; store_rw; done. }
  assert (∀ q, GetSize t6 q = GetSize t4 q) as Hsz6.
  { intros q. unfold t6. destruct (leaf_position >? 0); unfold t5; store_rw; done. }
  assert (∀ q, GetSize t3 q = GetSize t2 q) as Hsz3.
  { intros q. rewrite !GetSize_alt. by rewrite Hh3. }
  eexists _, _. split; [done|].
  split. { rewrite Hsz6. unfold t4. store_rw. rewrite Hsz3. unfold t2. store_rw. done. }
  split. { intros i Hi. rewrite Hs6 by done. rewrite Hoth3 by done.
           unfold t2, t1. store_rw. done. }
  split. { rewrite Hs6 by done. rewrite Hoth3 by done. unfold t2, t1. store_rw. done. }
  split. { rewrite Hsz6. unfold t4. store_rw. rewrite Hsz3. rewrite Hr2. lia. }
  split. { intros i Hi. rewrite Hs6 by done. rewrite Hmv3 by lia.
           unfold t2, t1. store_rw. done. }
  rewrite !KeyAt_slot_at. rewrite (Hs6 next) by done.
  unfold t6. destruct (leaf_position >? 0); unfold t5; store_rw;
    rewrite KeyAt_slot_at; unfold t4; store_rw; done.
Qed.
End leaf_borrow.

(** ** Root adjustment *)
Section root_adjust.
Implicit Types (t : BPlusTree) (p q : page_id_t).

Lemma for_up_preserves {A} (f : BPlusTree → A) a b (body : Z → BPlusTree → BPlusTree) t :
  (∀ k s, f (body k s) = f s) → f (for_up a b body t) = f t.
Proof.
  intros Hbody. destruct (decide (a ≤ b)) as [Hab|Hab].
  - apply (for_up_invariant (λ _ s, f s = f t)); [done..|].
    intros k s _ Hs. by rewrite Hbody.
  - by rewrite for_up_empty by lia.
Qed.

Lemma root_page_id_copy_slot dst i src j t :
  root_page_id_ (copy_slot dst i src j t) = root_page_id_ t.
Proof. done. Qed.

Lemma comparator_eq a b : (comparator_ a b =? 0) = bool_decide (a = b).
Proof.
  unfold comparator_. destruct (Z.compare_spec a b); subst.
  - by rewrite bool_decide_eq_true_2.
  - rewrite bool_decide_eq_false_2 by lia. done.
  - rewrite bool_decide_eq_false_2 by lia. done.
Qed.

(** The key deletion of the merge loop: the slots after the deleted one move
    down, slot 0 and the header fields other than the size stay. *)
Lemma internal_delete_spec root delete_key t i :
  1 ≤ i < GetSize t root → KeyAt t root i = delete_key →
  ∃ t', internal_delete root delete_key t = Some t' ∧
    GetSize t' root = GetSize t root - 1 ∧
    slot_at t' root 0 = slot_at t root 0 ∧
    root_page_id_ t' = root_page_id_ t.
Proof.
  intros Hi Hkey. unfold internal_delete.
  set (Q := λ i0, comparator_ delete_key (KeyAt t root i0) =? 0).
  destruct (scan_spec 1 (GetSize t root) Q) as (Hr & Hbefore & Hat); [lia|].
  set (i0 := scan 1 (GetSize t root) Q) in *.
  assert (i0 ≤ i) as Hle.
  { destruct (decide (i0 ≤ i)); [done|]. exfalso.
    assert (Q i = false) as HQ by (apply Hbefore; lia).
    unfold Q in HQ. rewrite comparator_eq, Hkey in HQ.
    by rewrite bool_decide_eq_true_2 in HQ. }
  destruct (Z.ltb_spec i0 (GetSize t root)); [|lia].
  destruct (shift_left_loop root (i0 + 1) (GetSize t root) t) as (Hh & _ & Hrest & _); [lia|].
  set (t1 := for_up _ _ _ t) in *.
  eexists. split; [done|].
  split. { store_rw. rewrite !GetSize_alt, Hh. lia. }
  split. { store_rw. apply Hrest. lia. }
  simpl. unfold t1. apply (for_up_preserves root_page_id_). done.
Qed.

(** The merge loop at the root: an internal root left with one child hands
    the tree over to that child. *)
Lemma Remove_merge_up_root position_set root delete_key key update_key t i :
  1 ≤ i < GetSize t root → KeyAt t root i = delete_key →
  ∃ t', Remove_merge_up [] position_set root delete_key key update_key t = Some t' ∧
    root_page_id_ t' =
      if GetSize t root =? 2 then ValueAt t root 0 else root_page_id_ t.
Proof.
  intros Hi Hkey.
  destruct (internal_delete_spec root delete_key t i Hi Hkey) as (t1 & Hdel & Hsz & Hs0 & Hroot).
  unfold Remove_merge_up. rewrite Hdel. cbn [mbind option_bind].
  rewrite Hsz.
  destruct (Z.eqb_spec (GetSize t root - 1) 1) as [H1|H1].
  - eexists. split; [done|]. simpl.
    rewrite (proj2 (Z.eqb_eq _ 2)) by lia. by rewrite !ValueAt_slot_at, Hs0.
  - eexists. split; [done|].
    destruct (Z.eqb_spec (GetSize t root) 2); [lia | done].
Qed.

(** The root leaf that loses its last key. *)
Lemma Remove_last_key t root key :
  root_page_id_ t = root → root ≠ INVALID_PAGE_ID →
  is_Some (pages_ t !! root) →
  IsLeafPage t root = true →
  GetSize t root = 1 → KeyAt t root 0 = key → 1 ≤ GetMaxSize t root →
  ∃ t', Remove t key = Some t' ∧ root_page_id_ t' = INVALID_PAGE_ID ∧
    IsEmpty t' = Some true.
Proof.
  intros Hroot Hvalid [pg Hpg] Hleaf Hsz Hkey Hmax.
  unfold Remove. rewrite Hroot.
  rewrite (proj2 (Z.eqb_neq _ _)) by done.
  unfold FetchPage. rewrite Hpg. cbn [mbind option_bind].
  unfold descent_fuel. cbn [Remove_descend]. rewrite Hleaf. cbn [mbind option_bind].
  assert (leaf_find t root key = 0) as Hfind.
  { unfold leaf_find. rewrite Hsz. unfold scan. simpl.
    rewrite comparator_eq, Hkey. by rewrite bool_decide_eq_true_2. }
  unfold leaf_delete. rewrite Hfind, Hsz.
  change (0 <? 1) with true. cbn iota. rewrite for_up_empty by lia.
  set (t1 := IncreaseSize root (-1) t).
  assert (GetSize t1 root = 0) as Hsz1 by (unfold t1; store_rw; lia).
  assert (GetMinSize t1 root = GetMinSize t root) as Hmin.
  { unfold GetMinSize. rewrite !GetMaxSize_alt. unfold t1. rewrite hdr_IncreaseSize.
    rewrite decide_True by done. by destruct (hdr t root) as [[[? ?] ?] ?]. }
  rewrite Hsz1, Hmin.
  assert (1 ≤ GetMinSize t root) as Hmin1.
  { unfold GetMinSize. Z.div_mod_to_equations. lia. }
  destruct (Z.geb_spec 0 (GetMinSize t root)); [lia|].
  simpl. eexists. split; [done|]. split; [done|].
  unfold IsEmpty. simpl. done.
Qed.
End root_adjust.

Section leaf_donor.
Implicit Types (t : BPlusTree) (p q : page_id_t).

Lemma GetSize_for_up_copy a b (f g : Z → Z) dst src t q :
  GetSize (for_up a b (λ j t, copy_slot dst (f j) src (g j) t) t) q = GetSize t q.
Proof. apply (for_up_preserves (λ s, GetSize s q)). intros. apply GetSize_copy_slot. Qed.

(** With both siblings present the larger one gives, and the left one when
    they are equally large. *)
Lemma leaf_steal_donor t leaf root leaf_position prev next :
  prev ≠ leaf → next ≠ leaf → prev ≠ next →
  ∃ t' update_key,
    leaf_steal leaf root leaf_position (Some prev) (Some next) t = Some (t', update_key) ∧
    if GetSize t next <=? GetSize t prev
    then GetSize t' prev = GetSize t prev - 1 ∧ GetSize t' next = GetSize t next
    else GetSize t' next = GetSize t next - 1 ∧ GetSize t' prev = GetSize t prev.
Proof.
  intros Hp Hn Hpn. unfold leaf_steal, steal_from_prev.
  rewrite !(GetSize_IncreaseSize leaf 1 t), !decide_False by done.
  destruct (GetSize t next <=? GetSize t prev); cbn [mbind option_bind].
  - eexists _, _. split; [done|].
    destruct (leaf_position >? 0); store_rw;
      rewrite !(GetSize_for_up_copy _ _ (λ j, j) (λ j, j - 1)); store_rw; done.
  - eexists _, _. split; [done|].
    destruct (leaf_position >? 0); store_rw;
      rewrite !(GetSize_for_up_copy _ _ (λ j, j - 1) (λ j, j)); store_rw; done.
Qed.
End leaf_donor.

(** ** The sorted insertion and the internal split *)
Section internal_split.
Implicit Types (t : BPlusTree) (p q : page_id_t).

Lemma comparator_lt a b : (comparator_ a b <? 0) = bool_decide (a < b).
Proof.
  unfold comparator_. destruct (Z.compare_spec a b); subst.
  - by rewrite bool_decide_eq_false_2 by lia.
  - by rewrite bool_decide_eq_true_2 by lia.
  - by rewrite bool_decide_eq_false_2 by lia.
Qed.
Lemma comparator_gt a b : (comparator_ a b >? 0) = bool_decide (b < a).
Proof.
  unfold comparator_. destruct (Z.compare_spec a b); subst.
  - by rewrite bool_decide_eq_false_2 by lia.
  - by rewrite bool_decide_eq_false_2 by lia.
  - by rewrite bool_decide_eq_true_2 by lia.
Qed.
Lemma comparator_ge a b : (comparator_ a b >=? 0) = bool_decide (b ≤ a).
Proof.
  unfold comparator_. destruct (Z.compare_spec a b); subst.
  - by rewrite bool_decide_eq_true_2 by lia.
  - by rewrite bool_decide_eq_false_2 by lia.
  - by rewrite bool_decide_eq_true_2 by lia.
Qed.

(** The sorted insertion puts the pair behind the slots from [lo] on whose
    keys are below the new key, and moves the slots from there on up by
    one. *)
Lemma shift_insert_pos p lo key value t :
  0 ≤ lo ≤ GetSize t p →
  let s := GetSize t p in
  let t' := shift_insert p lo key value t in
  ∃ i, lo ≤ i ≤ s ∧
    (∀ j, lo ≤ j < i → KeyAt t p j < key) ∧
    (i < s → key ≤ KeyAt t p i) ∧
    GetSize t' p = s + 1 ∧
    slot_at t' p i = (key, value) ∧
    (∀ j, j < i → slot_at t' p j = slot_at t p j) ∧
    (∀ j, i < j ≤ s → slot_at t' p j = slot_at t p (j - 1)) ∧
    (∀ q, q ≠ p → GetSize t' q = GetSize t q ∧ ∀ j, slot_at t' q j = slot_at t q j).
Proof.
  intros Hlo s t'. subst t'. unfold shift_insert. fold s.
  set (Q := λ i, negb (negb (i =? s) && (comparator_ key (KeyAt t p i) >? 0))).
  destruct (scan_spec lo (s + 1) Q) as (Hr & Hbefore & Hat); [lia|].
  set (i := scan lo (s + 1) Q) in *.
  assert (i ≤ s) as His.
  { destruct (decide (i ≤ s)); [done|]. exfalso.
    assert (Q s = false) as HQ by (apply Hbefore; lia).
    unfold Q in HQ. by rewrite Z.eqb_refl in HQ. }
  destruct (Z.leb_spec i s); [|lia].
  set (t1 := IncreaseSize p 1 t).
  assert (GetSize t1 p = s + 1) as Hs1 by (unfold t1; store_rw; done).
  rewrite Hs1. replace (s + 1 - 1) with s by lia.
  destruct (shift_right_loop p s (i + 1) t1) as (Hh & Hmv & Hrest & Hoth); [lia|].
  set (t2 := for_down s (i + 1) _ t1) in *.
  exists i. split; [lia|].
  split.
  { intros j Hj. assert (Q j = false) as HQ by (apply Hbefore; lia).
    unfold Q in HQ. rewrite comparator_gt in HQ.
    destruct (Z.eqb_spec j s); [lia|]. simpl in HQ.
    apply negb_false_iff, bool_decide_eq_true in HQ. done. }
  split.
  { intros Hlt. assert (Q i = true) as HQ by (apply Hat; lia).
    unfold Q in HQ. rewrite comparator_gt in HQ.
    destruct (Z.eqb_spec i s); [lia|]. simpl in HQ.
    apply negb_true_iff, bool_decide_eq_false in HQ. lia. }
  split. { store_rw. rewrite !GetSize_alt, Hh. by rewrite <- GetSize_alt. }
  split. { store_rw. done. }
  split. { intros j Hj. store_rw. rewrite Hrest by lia. unfold t1. by store_rw. }
  split. { intros j Hj. store_rw. rewrite Hmv by lia. unfold t1. by store_rw. }
  intros q Hq. split.
  - store_rw. rewrite !GetSize_alt, Hh. rewrite <- !GetSize_alt. unfold t1. by store_rw.
  - intros j. store_rw. rewrite Hoth by done. unfold t1. by store_rw.
Qed.

Lemma shift_insert_spec p lo key value t :
  0 ≤ lo ≤ GetSize t p →
  let s := GetSize t p in
  let t' := shift_insert p lo key value t in
  ∃ i, lo ≤ i ≤ s ∧
    GetSize t' p = s + 1 ∧
    slot_at t' p i = (key, value) ∧
    (∀ j, j < i → slot_at t' p j = slot_at t p j) ∧
    (∀ j, i < j ≤ s → slot_at t' p j = slot_at t p (j - 1)) ∧
    (∀ q, q ≠ p → GetSize t' q = GetSize t q ∧ ∀ j, slot_at t' q j = slot_at t q j).
Proof.
  intros Hlo s t'.
  destruct (shift_insert_pos p lo key value t Hlo) as (i & Hi & _ & _ & H).
  by exists i.
Qed.

(** Every live key after the sorted insertion is the inserted key or was
    live before. *)
Lemma shift_insert_keys p lo key value t j :
  0 ≤ lo ≤ GetSize t p →
  lo ≤ j < GetSize (shift_insert p lo key value t) p →
  KeyAt (shift_insert p lo key value t) p j = key ∨
  ∃ j', lo ≤ j' < GetSize t p ∧ KeyAt (shift_insert p lo key value t) p j = KeyAt t p j'.
Proof.
  intros Hlo Hj.
  destruct (shift_insert_spec p lo key value t Hlo) as (i & Hi & Hsz & Hat & Hlow & Hhigh & _).
  rewrite Hsz in Hj. rewrite !KeyAt_slot_at.
  destruct (Z.lt_trichotomy j i) as [Hlt|[->|Hgt]].
  - right. exists j. split; [lia|]. by rewrite Hlow.
  - left. by rewrite Hat.
  - right. exists (j - 1). split; [lia|]. by rewrite Hhigh by lia.
Qed.
End internal_split.

Section internal_split2.
Implicit Types (t : BPlusTree) (p q : page_id_t).

(** The part of the split both cases share: the new page gets [v0] in
    slot 0 and the slots after [mid]; the old page is cut to [mid]. *)
Lemma split_internal_tail t root mid v0 :
  root ≠ next_alloc_ t →
  1 ≤ mid < GetSize t root →
  let m := GetSize t root in
  let page_id := next_alloc_ t in
  let t2 := InternalPage_Init page_id (internal_max_size_ t) (NewPageGuarded t).2 in
  let t' := IncreaseSize root (- (1 + Z.max 0 (m - (mid + 1))))
              (for_up (mid + 1) m
                 (λ i t1, copy_slot page_id (i - mid) root i (IncreaseSize page_id 1 t1))
                 (SetValueAt page_id 0 v0 t2)) in
  GetSize t' root = mid ∧
  GetSize t' page_id = m - mid ∧
  (∀ i, slot_at t' root i = slot_at t root i) ∧
  (∀ i, mid + 1 ≤ i < m → slot_at t' page_id (i - mid) = slot_at t root i) ∧
  ValueAt t' page_id 0 = v0 ∧
  (∀ i, slot_at t2 root i = slot_at t root i).
Proof.
  intros Hfresh Hmid m page_id t2 t'. subst t'.
  set (body := λ (i : Z) (t1 : BPlusTree),
                 copy_slot page_id (i - mid) root i (IncreaseSize page_id 1 t1)).
  set (t3 := SetValueAt page_id 0 v0 t2).
  assert (∀ q i, slot_at t2 q i = if decide (page_id = q) then (0, 0) else slot_at t q i) as Hs2.
  { intros q i. unfold t2. rewrite slot_at_InternalPage_Init. apply slot_at_NewPageGuarded. }
  assert (GetSize t2 page_id = 1) as Hsz2.
  { rewrite GetSize_alt. unfold t2. rewrite hdr_InternalPage_Init.
    by rewrite decide_True by done. }
  assert (GetSize t2 root = m) as Hsz2r.
  { rewrite GetSize_alt. unfold t2. rewrite hdr_InternalPage_Init.
    rewrite decide_False by done. rewrite hdr_NewPageGuarded.
    by rewrite decide_False by done. }
  assert (∀ i, slot_at t3 root i = slot_at t root i) as Hs3r.
  { intros i. unfold t3. store_rw. rewrite Hs2. by rewrite decide_False by done. }
  assert (GetSize (for_up (mid + 1) m body t3) page_id = 1 + (m - (mid + 1)) ∧
          GetSize (for_up (mid + 1) m body t3) root = m ∧
          (∀ i, mid + 1 ≤ i < m →
             slot_at (for_up (mid + 1) m body t3) page_id (i - mid) = slot_at t root i) ∧
          (∀ i, slot_at (for_up (mid + 1) m body t3) root i = slot_at t root i) ∧
          slot_at (for_up (mid + 1) m body t3) page_id 0 = slot_at t3 page_id 0)
    as (Hsz4 & Hsz4r & Hcp4 & Hs4r & Hs40).
  { apply (for_up_invariant (λ k s,
          GetSize s page_id = 1 + (k - (mid + 1)) ∧
          GetSize s root = m ∧
          (∀ i, mid + 1 ≤ i < k → slot_at s page_id (i - mid) = slot_at t root i) ∧
          (∀ i, slot_at s root i = slot_at t root i) ∧
          slot_at s page_id 0 = slot_at t3 page_id 0)); [lia| |].
    - split; [unfold t3; store_rw; lia|]. split; [unfold t3; by store_rw|].
      split; [intros; lia|]. by split.
    - intros k s Hk (Hsz & Hszr & Hcp & Hsr & Hs0). unfold body.
      split; [store_rw; lia|].
      split; [store_rw; done|].
      split.
      { intros i Hi. rewrite slot_at_copy_slot, !slot_at_IncreaseSize.
        destruct (decide (i = k)) as [->|Hik].
        - rewrite decide_True by (split; [done | lia]). apply Hsr.
        - rewrite decide_False by lia. apply Hcp. lia. }
      split; [intros i; store_rw; apply Hsr|].
      store_rw. done. }
  set (t4 := for_up (mid + 1) m body t3) in *.
  replace (Z.max 0 (m - (mid + 1))) with (m - (mid + 1)) by lia.
  split; [store_rw; lia|].
  split; [store_rw; lia|].
  split; [intros i; store_rw; apply Hs4r|].
  split; [intros i Hi; store_rw; by apply Hcp4|].
  split.
  { rewrite ValueAt_slot_at. store_rw. rewrite Hs40. unfold t3. by store_rw. }
  intros i. rewrite Hs2. by rewrite decide_False by done.
Qed.

Lemma split_internal_spec t root insert_key insert_val :
  root ≠ next_alloc_ t → 2 ≤ GetSize t root →
  let m := GetSize t root in
  let mid := split_middle t root insert_key in
  let '(t', page_id, tmp_key, ik, iv, small) :=
    split_internal root insert_key insert_val t in
  page_id = next_alloc_ t ∧
  small = split_small t root insert_key ∧
  1 ≤ mid < m ∧
  GetSize t' root = mid ∧
  GetSize t' page_id = m - mid ∧
  (∀ i, slot_at t' root i = slot_at t root i) ∧
  (∀ i, mid + 1 ≤ i < m → slot_at t' page_id (i - mid) = slot_at t root i) ∧
  (tmp_key, ValueAt t' page_id 0, ik, iv) =
    if split_special t root insert_key
    then (insert_key, insert_val, KeyAt t root mid, ValueAt t root mid)
    else (KeyAt t root mid, ValueAt t root mid, insert_key, insert_val).
Proof.
  intros Hfresh Hm2 m mid.
  unfold split_internal. fold m.
  rewrite comparator_lt. change (bool_decide _) with (split_small t root insert_key).
  set (small := split_small t root insert_key).
  assert ((if small then m / 2 else (m + 1) / 2) = mid) as -> by done.
  assert (1 ≤ mid < m) as Hmid.
  { unfold mid, split_middle. fold m. destruct (split_small _ _ _); Z.div_mod_to_equations; lia. }
  assert ((if small then KeyAt t root mid else KeyAt t root ((m + 1) / 2)) = KeyAt t root mid) as ->.
  { unfold mid, split_middle. fold m. fold small. by destruct small. }
  rewrite comparator_ge.
  assert (small && bool_decide (KeyAt t root mid ≤ insert_key) = split_special t root insert_key)
    as -> by done.
  destruct (split_special t root insert_key) eqn:Hsp.
  - destruct (split_internal_tail t root mid insert_val Hfresh Hmid)
      as (H1 & H2 & H3 & H4 & H5 & H6).
    cbn [NewPageGuarded fst snd].
    change (mkTree _ _ _ _ _) with (NewPageGuarded t).2.
    change (internal_max_size_ (NewPageGuarded t).2) with (internal_max_size_ t).
    repeat (split; [done|]).
    fold m in H5. rewrite H5.
    assert (∀ s, ValueAt (SetValueAt (next_alloc_ t) 0 insert_val s) root mid
                 = ValueAt s root mid) as ->.
    { intros s. rewrite !ValueAt_slot_at. by store_rw. }
    by rewrite !ValueAt_slot_at, H6.
  - destruct (split_internal_tail t root mid (ValueAt t root mid) Hfresh Hmid)
      as (H1 & H2 & H3 & H4 & H5 & H6).
    cbn [NewPageGuarded fst snd].
    change (mkTree _ _ _ _ _) with (NewPageGuarded t).2.
    change (internal_max_size_ (NewPageGuarded t).2) with (internal_max_size_ t).
    assert (ValueAt (InternalPage_Init (next_alloc_ t) (internal_max_size_ t)
                       (NewPageGuarded t).2) root mid = ValueAt t root mid) as ->.
    { by rewrite !ValueAt_slot_at, H6. }
    repeat (split; [done|]).
    fold m in H5. by rewrite H5.
Qed.
End internal_split2.

Section internal_split3.
Implicit Types (t : BPlusTree) (p q : page_id_t).

(** After the split and the insertion of the pending pair the promoted key
    is stored in neither half, when the keys of the page were strictly
    increasing and the pending key was none of them. *)
Lemma split_internal_promoted_absent t root insert_key insert_val :
  root ≠ next_alloc_ t → 2 ≤ GetSize t root →
  (∀ i j, 1 ≤ i → i < j → j < GetSize t root → KeyAt t root i < KeyAt t root j) →
  (∀ i, 1 ≤ i < GetSize t root → KeyAt t root i ≠ insert_key) →
  let '(t', page_id, tmp_key, ik, iv, small) :=
    split_internal root insert_key insert_val t in
  let t'' := shift_insert (if small then root else page_id) 1 ik iv t' in
  ∀ q j, q = root ∨ q = page_id → 1 ≤ j < GetSize t'' q → KeyAt t'' q j ≠ tmp_key.
Proof.
  intros Hfresh Hm2 Hsorted Hnew.
  pose proof (split_internal_spec t root insert_key insert_val Hfresh Hm2) as Hspec.
  cbv zeta in Hspec.
  destruct (split_internal root insert_key insert_val t)
    as [[[[[t' page_id] tmp_key] ik] iv] small].
  destruct Hspec as (-> & _ & Hmid & Hszr & Hszp & Hsr & Hcp & Hsel).
  set (m := GetSize t root) in *. set (mid := split_middle t root insert_key) in *.
  set (page_id := next_alloc_ t) in *.
  intros t'' q j Hq Hj.
  (* the keys the two halves hold before the pending pair goes in *)
  assert (∀ q j, q = root ∨ q = page_id → 1 ≤ j < GetSize t' q →
            ∃ i, 1 ≤ i < m ∧ i ≠ mid ∧ KeyAt t' q j = KeyAt t root i) as Hold.
  { intros q0 j0 [->| ->] Hj0.
    - exists j0. rewrite !KeyAt_slot_at, Hsr. split; [lia|]. split; [lia | done].
    - exists (j0 + mid). rewrite !KeyAt_slot_at.
      rewrite <- Hcp by lia. split; [lia|]. split; [lia|].
      do 2 f_equal. lia. }
  assert (ik ≠ tmp_key ∧ ∀ i, 1 ≤ i < m → i ≠ mid → KeyAt t root i ≠ tmp_key)
    as [Hik Hkeys].
  { destruct (split_special t root insert_key);
      injection Hsel as Htk _ Hik' _; subst tmp_key ik.
    - split; [apply Hnew; lia|]. intros i Hi _. by apply Hnew.
    - split; [intros E; symmetry in E; revert E; apply Hnew; lia|].
      intros i Hi Hne.
      destruct (Z.lt_trichotomy i mid) as [?|[?|?]]; [|done|].
      + pose proof (Hsorted i mid). lia.
      + pose proof (Hsorted mid i). lia. }
  set (insert_page := if small then root else page_id) in *.
  assert (1 ≤ GetSize t' insert_page) as Hsz.
  { unfold insert_page. destruct small; lia. }
  assert (insert_page = root ∨ insert_page = page_id) as Hip.
  { unfold insert_page. destruct small; auto. }
  destruct (decide (q = insert_page)) as [->|Hne].
  - subst t''.
    destruct (shift_insert_keys insert_page 1 ik iv t' j) as [E|(j' & Hj' & E)];
      [lia | done | by rewrite E |].
    rewrite E.
    destruct (Hold insert_page j' Hip Hj') as (i & Hi & Him & ->). by apply Hkeys.
  - destruct (shift_insert_spec insert_page 1 ik iv t') as (_ & _ & _ & _ & _ & _ & Hoth);
      [lia|].
    destruct (Hoth q Hne) as [Hszq Hslq].
    subst t''. rewrite Hszq in Hj. rewrite KeyAt_slot_at, Hslq, <- KeyAt_slot_at.
    destruct (Hold q j Hq Hj) as (i & Hi & Him & ->). by apply Hkeys.
Qed.
End internal_split3.

(** ** The pool *)
Section pool.
Implicit Types (t : BPlusTree) (p q : page_id_t).

(** A fetch succeeds exactly on the pages of the pool, and no write takes a
    page out of the pool. *)
Lemma FetchPage_Some t p : is_Some (pages_ t !! p) → FetchPage t p = Some p.
Proof. intros [pg H]. unfold FetchPage. by rewrite H. Qed.

Lemma FetchPage_inv t p q : FetchPage t p = Some q → q = p ∧ is_Some (pages_ t !! p).
Proof.
  unfold FetchPage. destruct (pages_ t !! p) eqn:H; [|done].
  intros [= <-]. split; [done | eauto].
Qed.

Lemma pool_upd p f t q : is_Some (pages_ t !! q) → is_Some (pages_ (upd p f t) !! q).
Proof.
  intros H. simpl. destruct (decide (p = q)) as [->|].
  - rewrite lookup_insert_eq. eauto.
  - by rewrite lookup_insert_ne.
Qed.

Lemma pool_copy_slot dst i src j t q :
  is_Some (pages_ t !! q) → is_Some (pages_ (copy_slot dst i src j t) !! q).
Proof. intros. unfold copy_slot. by do 2 apply pool_upd. Qed.

Lemma pool_for_up a b (body : Z → BPlusTree → BPlusTree) t q :
  (∀ k s, is_Some (pages_ s !! q) → is_Some (pages_ (body k s) !! q)) →
  is_Some (pages_ t !! q) → is_Some (pages_ (for_up a b body t) !! q).
Proof.
  intros Hbody H. destruct (decide (a ≤ b)).
  - apply (for_up_invariant (λ _ s, is_Some (pages_ s !! q))); [done..|].
    intros k s _. apply Hbody.
  - by rewrite for_up_empty by lia.
Qed.

(** A pool that holds a page gives every descent at least two steps. *)
Lemma pool_nonempty t p :
  is_Some (pages_ t !! p) → descent_fuel t = S (S (pred (size (pages_ t)))).
Proof.
  intros [pg H]. unfold descent_fuel. f_equal.
  destruct (size (pages_ t)) eqn:Hs; [|done].
  apply map_size_empty_iff in Hs. rewrite Hs in H. by rewrite lookup_empty in H.
Qed.
End pool.

(** ** Insert into a tree whose root is a full leaf *)
Section insert_root_leaf.
Implicit Types (t : BPlusTree) (p q : page_id_t).

(** The duplicate check finds nothing in a leaf that does not hold the key. *)
Lemma leaf_find_absent t leaf key :
  (∀ i, 0 ≤ i < GetSize t leaf → KeyAt t leaf i ≠ key) →
  (leaf_find t leaf key <? GetSize t leaf) = false.
Proof.
  intros Habs. unfold leaf_find. apply Z.ltb_ge.
  destruct (decide (0 ≤ GetSize t leaf)) as [H0|H0].
  - destruct (scan_spec 0 (GetSize t leaf)
                (λ i, comparator_ key (KeyAt t leaf i) =? 0) H0) as (Hr & _ & Hat).
    set (r := scan _ _ _) in *.
    destruct (decide (r < GetSize t leaf)) as [Hlt|]; [|lia]. exfalso.
    specialize (Hat Hlt). rewrite comparator_eq in Hat.
    apply bool_decide_eq_true in Hat. apply (Habs r); [lia | done].
  - rewrite scan_empty by lia. lia.
Qed.

(** The block under [ROOT_SPLIT:]: the new root holds the old root as child 0
    and the new page as child 1 under the promoted key; no other page
    changes. *)
Lemma root_split_spec tmp_key page_id t :
  let new_root := next_alloc_ t in
  let t' := root_split tmp_key page_id t in
  root_page_id_ t' = new_root ∧
  hdr t' new_root = (INTERNAL_PAGE, 2, internal_max_size_ t, 0) ∧
  slot_at t' new_root 0 = (0, root_page_id_ t) ∧
  slot_at t' new_root 1 = (tmp_key, page_id) ∧
  (∀ q, q ≠ new_root → hdr t' q = hdr t q ∧ ∀ j, slot_at t' q j = slot_at t q j).
Proof.
  intros new_root t'. subst t'. unfold root_split.
  cbn [NewPageGuarded fst snd]. fold new_root.
  change (mkTree _ _ _ _ _) with (NewPageGuarded t).2.
  change (internal_max_size_ (NewPageGuarded t).2) with (internal_max_size_ t).
  set (t1 := InternalPage_Init new_root (internal_max_size_ t) (NewPageGuarded t).2).
  change (root_page_id_ t1) with (root_page_id_ t).
  split; [done|].
  split.
  { rewrite hdr_SetValueAt, hdr_SetKeyAt, hdr_IncreaseSize, decide_True by done.
    rewrite hdr_set_root, hdr_SetValueAt. unfold t1.
    rewrite hdr_InternalPage_Init, decide_True by done.
    rewrite hdr_NewPageGuarded, decide_True by done. done. }
  split.
  { store_rw. rewrite slot_at_set_root. store_rw. unfold t1.
    rewrite slot_at_InternalPage_Init, slot_at_NewPageGuarded, decide_True by done. done. }
  split.
  { store_rw. done. }
  intros q Hq. split.
  - rewrite hdr_SetValueAt, hdr_SetKeyAt, hdr_IncreaseSize, decide_False by done.
    rewrite hdr_set_root, hdr_SetValueAt. unfold t1.
    rewrite hdr_InternalPage_Init, decide_False by done.
    by rewrite hdr_NewPageGuarded, decide_False by done.
  - intros j. store_rw. rewrite slot_at_set_root. store_rw. unfold t1.
    rewrite slot_at_InternalPage_Init, slot_at_NewPageGuarded. by rewrite decide_False by done.
Qed.

Lemma for_down_preserves {A} (f : BPlusTree → A) a b (body : Z → BPlusTree → BPlusTree) t :
  (∀ k s, f (body k s) = f s) → f (for_down a b body t) = f t.
Proof.
  intros Hbody. unfold for_down. generalize (Z.to_nat (a - b + 1)). intros n.
  revert a t. induction n as [|n IH]; intros a t; simpl; [done|].
  by rewrite IH, Hbody.
Qed.

(** What the leaf split leaves alone. *)
Lemma split_leaf_frame t leaf :
  leaf ≠ next_alloc_ t →
  let t' := (split_leaf leaf t).1.1 in
  next_alloc_ t' = next_alloc_ t + 1 ∧
  root_page_id_ t' = root_page_id_ t ∧
  internal_max_size_ t' = internal_max_size_ t ∧
  IsLeafPage t' leaf = IsLeafPage t leaf.
Proof.
  intros Hfresh t'. subst t'. unfold split_leaf.
  cbn [NewPageGuarded fst snd].
  change (mkTree _ _ _ _ _) with (NewPageGuarded t).2.
  split. { cbn. by rewrite (for_up_preserves next_alloc_). }
  split. { cbn. by rewrite (for_up_preserves root_page_id_). }
  split. { cbn. by rewrite (for_up_preserves internal_max_size_). }
  unfold IsLeafPage.
  change (page_type_ (page ?s ?q)) with (hdr s q).1.1.1.
  rewrite hdr_SetNextPageId, decide_True by done.
  rewrite hdr_SetNextPageId, decide_False by done.
  rewrite hdr_IncreaseSize, decide_True by done.
  rewrite hdr_for_up by (intros; apply hdr_copy_slot).
  rewrite hdr_IncreaseSize, decide_False by done.
  rewrite hdr_LeafPage_Init, decide_False by done.
  rewrite hdr_NewPageGuarded, decide_False by done.
  by destruct (hdr t leaf) as [[[? ?] ?] ?].
Qed.

(** The sorted insertion changes the size and the slots of its page only. *)
Lemma shift_insert_frame p lo key value t :
  let t' := shift_insert p lo key value t in
  root_page_id_ t' = root_page_id_ t ∧
  ∀ q, IsLeafPage t' q = IsLeafPage t q ∧ GetNextPageId t' q = GetNextPageId t q ∧
       GetMaxSize t' q = GetMaxSize t q.
Proof.
  intros t'. subst t'. unfold shift_insert.
  destruct (_ <=? _); [|done].
  split. { cbn. by rewrite (for_down_preserves root_page_id_). }
  intros q.
  assert (∀ s, hdr s q = hdr (IncreaseSize p 1 t) q →
            IsLeafPage s q = IsLeafPage t q ∧ GetNextPageId s q = GetNextPageId t q ∧
            GetMaxSize s q = GetMaxSize t q) as Hh.
  { intros s Hs. unfold IsLeafPage. rewrite GetNextPageId_alt, GetMaxSize_alt.
    change (page_type_ (page s q)) with (hdr s q).1.1.1. rewrite Hs.
    rewrite hdr_IncreaseSize. case_decide; [|done].
    unfold GetNextPageId, GetMaxSize, hdr. simpl. done. }
  apply Hh.
  rewrite hdr_SetValueAt, hdr_SetKeyAt.
  apply hdr_for_down. intros. apply hdr_copy_slot.
Qed.

(** [Insert] of a new key into a tree whose root is a full leaf. *)
Lemma Insert_full_root_leaf t key value leaf :
  root_page_id_ t = leaf → leaf ≠ INVALID_PAGE_ID →
  is_Some (pages_ t !! leaf) → IsLeafPage t leaf = true →
  GetSize t leaf = GetMaxSize t leaf → 2 ≤ GetSize t leaf →
  (∀ i, 0 ≤ i < GetSize t leaf → KeyAt t leaf i ≠ key) →
  leaf ≠ next_alloc_ t → leaf ≠ next_alloc_ t + 1 →
  let new_leaf := next_alloc_ t in
  let new_root := next_alloc_ t + 1 in
  let mid := (GetSize t leaf + 1) / 2 in
  ∃ t', Insert t key value = Some (true, t') ∧
    root_page_id_ t' = new_root ∧
    IsLeafPage t' new_root = false ∧ GetSize t' new_root = 2 ∧
    ValueAt t' new_root 0 = leaf ∧ ValueAt t' new_root 1 = new_leaf ∧
    KeyAt t' new_root 1 = KeyAt t leaf mid ∧
    KeyAt t' new_leaf 0 = KeyAt t leaf mid ∧
    IsLeafPage t' leaf = true ∧ IsLeafPage t' new_leaf = true ∧
    GetNextPageId t' leaf = new_leaf ∧
    GetNextPageId t' new_leaf = GetNextPageId t leaf ∧
    GetSize t' leaf + GetSize t' new_leaf = GetSize t leaf + 1.
Proof.
  intros Hroot Hvalid Hpool Hleaf Hfull Hm Habs Hf1 Hf2 new_leaf new_root mid.
  unfold Insert. rewrite Hroot.
  rewrite (proj2 (Z.eqb_neq _ _)) by done.
  rewrite (FetchPage_Some t leaf Hpool). cbn [mbind option_bind].
  unfold descent_fuel. cbn [Insert_descend]. rewrite Hleaf. cbn [mbind option_bind].
  rewrite (leaf_find_absent t leaf key Habs).
  rewrite <- Hfull, Z.eqb_refl.
  destruct (Z.gtb_spec (GetSize t leaf) 0) as [_|]; [|lia]. cbn [negb].
  pose proof (split_leaf_spec t leaf Hf1 ltac:(lia)) as Hspec.
  pose proof (split_leaf_frame t leaf Hf1) as Hframe.
  cbv zeta in Hspec, Hframe. fold mid in Hspec.
  destruct (split_leaf leaf t) as [[t1 page_id] tmp_key]. cbn [fst] in Hframe.
  destruct Hspec as (-> & Hl1 & Hsz1 & Hmoved & Hszl & Hkept & Hn1 & Hn2 & Htk & Hsep).
  destruct Hframe as (Hna & Hr1 & Him & Hl1l).
  fold new_leaf in Hl1, Hsz1, Hmoved, Hn1, Hn2, Hsep |- *.
  specialize (Hsep Hm).
  destruct (root_split_spec tmp_key new_leaf t1) as (Hr2 & Hh2 & Hs20 & Hs21 & Hoth2).
  rewrite Hna in Hr2, Hh2, Hs20, Hs21, Hoth2. fold new_root in Hr2, Hh2, Hs20, Hs21, Hoth2.
  set (t2 := root_split tmp_key new_leaf t1) in *.
  set (leaf' := if comparator_ key tmp_key >? 0 then new_leaf else leaf).
  assert (leaf' ≠ new_root) as Hl'r.
  { unfold leaf', new_root, new_leaf. destruct (_ >? _); lia. }
  assert (leaf ≠ new_root) as Hlr by (unfold new_root; lia).
  assert (new_leaf ≠ new_root) as Hnr by (unfold new_root, new_leaf; lia).
  assert (IsLeafPage t2 leaf = true) as Hl2l.
  { rewrite (IsLeafPage_hdr t2 t1) by (by apply Hoth2). by rewrite Hl1l. }
  assert (IsLeafPage t2 new_leaf = true) as Hl2n.
  { by rewrite (IsLeafPage_hdr t2 t1) by (by apply Hoth2). }
  assert (IsLeafPage t2 leaf' = true) as Hl2'.
  { unfold leaf'. by destruct (_ >? _). }
  rewrite Hl2'. cbn [negb].
  assert (GetSize t2 leaf = mid) as Hsz2l.
  { rewrite (GetSize_hdr t2 t1) by (by apply Hoth2). done. }
  assert (GetSize t2 new_leaf = GetSize t leaf - mid) as Hsz2n.
  { rewrite (GetSize_hdr t2 t1) by (by apply Hoth2). done. }
  assert (1 ≤ mid ∧ 1 ≤ GetSize t leaf - mid) as [Hmid1 Hmid2].
  { unfold mid. Z.div_mod_to_equations. lia. }
  assert (0 ≤ GetSize t2 leaf') as Hsz2'.
  { unfold leaf'. destruct (_ >? _); lia. }
  destruct (shift_insert_pos leaf' 0 key value t2 ltac:(lia))
    as (i & Hi & Hbelow & Habove & Hsz3 & Hat & Hlow & Hhigh & Hoth3).
  destruct (shift_insert_frame leaf' 0 key value t2) as (Hr3 & Hh3).
  set (t3 := shift_insert leaf' 0 key value t2) in *.
  destruct (Hoth3 new_root ltac:(done)) as (Hsz3r & Hs3r).
  exists t3. split; [done|].
  split; [by rewrite Hr3|].
  split. { rewrite (proj1 (Hh3 new_root)). unfold IsLeafPage.
           change (page_type_ (page t2 new_root)) with (hdr t2 new_root).1.1.1.
           by rewrite Hh2. }
  split. { rewrite Hsz3r, GetSize_alt. by rewrite Hh2. }
  split. { rewrite ValueAt_slot_at, Hs3r, Hs20. simpl. by rewrite Hr1. }
  split. { by rewrite ValueAt_slot_at, Hs3r, Hs21. }
  split. { by rewrite KeyAt_slot_at, Hs3r, Hs21. }
  split.
  { (* the first key of the new leaf is not displaced *)
    rewrite <- Htk.
    assert (KeyAt t2 new_leaf 0 = tmp_key) as Hk2.
    { rewrite KeyAt_slot_at, (proj2 (Hoth2 new_leaf Hnr)), <- KeyAt_slot_at. done. }
    unfold leaf' in *. rewrite comparator_gt in *.
    case_bool_decide as Hgt.
    - (* inserted into the new leaf, behind its first key *)
      assert (0 < i) as Hi0.
      { destruct (decide (0 < i)); [done|]. exfalso.
        assert (i = 0) as -> by lia.
        specialize (Habove ltac:(lia)). lia. }
      rewrite KeyAt_slot_at, Hlow by done. by rewrite <- KeyAt_slot_at.
    - rewrite KeyAt_slot_at, (proj2 (Hoth3 new_leaf ltac:(done))). by rewrite <- KeyAt_slot_at. }
  split. { by rewrite (proj1 (Hh3 leaf)). }
  split. { by rewrite (proj1 (Hh3 new_leaf)). }
  split. { rewrite (proj1 (proj2 (Hh3 leaf))).
           rewrite (GetNextPageId_hdr t2 t1) by (by apply Hoth2). done. }
  split. { rewrite (proj1 (proj2 (Hh3 new_leaf))).
           rewrite (GetNextPageId_hdr t2 t1) by (by apply Hoth2). done. }
  unfold leaf' in *. destruct (_ >? _).
  - rewrite Hsz3, (proj1 (Hoth3 leaf ltac:(done))). lia.
  - rewrite Hsz3, (proj1 (Hoth3 new_leaf ltac:(done))). lia.
Qed.
End insert_root_leaf.

(** ** Remove in a tree whose root is the parent of the leaf *)
Section remove_two_level.
Implicit Types (t : BPlusTree) (p q : page_id_t).

(** The deletion at the leaf touches the leaf only. *)
Lemma leaf_delete_frame leaf key t :
  let t' := leaf_delete leaf key t in
  root_page_id_ t' = root_page_id_ t ∧
  (∀ q, is_Some (pages_ t !! q) → is_Some (pages_ t' !! q)) ∧
  (∀ q, GetMaxSize t' q = GetMaxSize t q) ∧
  (∀ q, q ≠ leaf → GetSize t' q = GetSize t q ∧ ∀ j, slot_at t' q j = slot_at t q j).
Proof.
  intros t'. subst t'. unfold leaf_delete.
  destruct (_ <? _); [|done].
  set (i := leaf_find t leaf key).
  assert (0 ≤ i) as Hi.
  { unfold i, leaf_find, scan.
    destruct (scan_from_spec (Z.to_nat (GetSize t leaf - 0)) 0
                (λ i, comparator_ key (KeyAt t leaf i) =? 0)) as ((H & _) & _). exact H. }
  destruct (shift_left_loop leaf (i + 1) (GetSize t leaf) t) as (Hh & _ & _ & Hoth); [lia|].
  split. { cbn. by rewrite (for_up_preserves root_page_id_). }
  split. { intros q Hq. apply pool_upd. apply pool_for_up; [|done].
           intros. by apply pool_copy_slot. }
  split. { intros q. rewrite !GetMaxSize_alt, hdr_IncreaseSize, Hh.
           case_decide; [|done]. by destruct (hdr t q) as [[[? ?] ?] ?]. }
  intros q Hq. split.
  - store_rw. by rewrite !GetSize_alt, Hh.
  - intros j. store_rw. by apply Hoth.
Qed.

(** The siblings fetched do not change when the parent and the siblings do
    not. *)
Lemma fetch_siblings_frame t t' root position prev next bigger_size :
  fetch_siblings t root position = Some (prev, next, bigger_size) →
  GetSize t' root = GetSize t root →
  (∀ j, slot_at t' root j = slot_at t root j) →
  (∀ q, is_Some (pages_ t !! q) → is_Some (pages_ t' !! q)) →
  (∀ q, prev = Some q ∨ next = Some q → GetSize t' q = GetSize t q) →
  fetch_siblings t' root position = Some (prev, next, bigger_size).
Proof.
  unfold fetch_siblings. intros H Hsz Hsl Hpool Hsib.
  rewrite Hsz, !ValueAt_slot_at, !Hsl, <- !ValueAt_slot_at.
  destruct (position =? GetSize t root - 1).
  - destruct (FetchPage t (ValueAt t root (position - 1))) as [p|] eqn:Hp; [|done].
    apply FetchPage_inv in Hp as [-> Hp]. cbn [mbind option_bind] in *.
    rewrite (FetchPage_Some t' _ (Hpool _ Hp)). cbn [mbind option_bind].
    simplify_eq. rewrite Hsib; [done | by left].
  - destruct (position =? 0).
    + destruct (FetchPage t (ValueAt t root (position + 1))) as [n|] eqn:Hn; [|done].
      apply FetchPage_inv in Hn as [-> Hn]. cbn [mbind option_bind] in *.
      rewrite (FetchPage_Some t' _ (Hpool _ Hn)). cbn [mbind option_bind].
      simplify_eq. rewrite Hsib; [done | by right].
    + destruct (FetchPage t (ValueAt t root (position - 1))) as [p|] eqn:Hp; [|done].
      apply FetchPage_inv in Hp as [-> Hp]. cbn [mbind option_bind] in *.
      destruct (FetchPage t (ValueAt t root (position + 1))) as [n|] eqn:Hn; [|done].
      apply FetchPage_inv in Hn as [-> Hn]. cbn [mbind option_bind] in *.
      rewrite (FetchPage_Some t' _ (Hpool _ Hp)), (FetchPage_Some t' _ (Hpool _ Hn)).
      cbn [mbind option_bind]. simplify_eq.
      rewrite !Hsib; [done | by left | by right].
Qed.

(** What [fetch_siblings] hands out. *)
Lemma fetch_siblings_inv t root position prev next bigger_size :
  fetch_siblings t root position = Some (prev, next, bigger_size) →
  (prev = None → position = 0 ∧ position ≠ GetSize t root - 1) ∧
  (next = None → position = GetSize t root - 1) ∧
  (∀ p, prev = Some p → p = ValueAt t root (position - 1) ∧ GetSize t p ≤ bigger_size) ∧
  (∀ n, next = Some n → n = ValueAt t root (position + 1) ∧ GetSize t n ≤ bigger_size ∧
                         position ≠ GetSize t root - 1) ∧
  (bigger_size = match prev, next with
                 | Some p, Some n => Z.max (GetSize t n) (GetSize t p)
                 | Some p, None => GetSize t p
                 | None, Some n => GetSize t n
                 | None, None => 0
                 end).
Proof.
  unfold fetch_siblings. intros H.
  destruct (Z.eqb_spec position (GetSize t root - 1)).
  - destruct (FetchPage t (ValueAt t root (position - 1))) as [p|] eqn:Hp; [|done].
    apply FetchPage_inv in Hp as [-> Hp]. cbn [mbind option_bind] in *. simplify_eq.
    repeat split; try done. all: intros; simplify_eq; try done; lia.
  - destruct (Z.eqb_spec position 0).
    + destruct (FetchPage t (ValueAt t root (position + 1))) as [n'|] eqn:Hn; [|done].
      apply FetchPage_inv in Hn as [-> Hn]. cbn [mbind option_bind] in *. simplify_eq.
      repeat split; try done. all: intros; simplify_eq; try done; lia.
    + destruct (FetchPage t (ValueAt t root (position - 1))) as [p|] eqn:Hp; [|done].
      apply FetchPage_inv in Hp as [-> Hp]. cbn [mbind option_bind] in *.
      destruct (FetchPage t (ValueAt t root (position + 1))) as [n'|] eqn:Hn; [|done].
      apply FetchPage_inv in Hn as [-> Hn]. cbn [mbind option_bind] in *. simplify_eq.
      repeat split; try done. all: intros; simplify_eq; try done; lia.
Qed.

Lemma descend_index_pos t root key : 1 ≤ descend_index t root key.
Proof.
  unfold descend_index, scan.
  destruct (scan_from_spec (Z.to_nat (GetSize t root - 1)) 1
              (λ i, comparator_ key (KeyAt t root i) <? 0)) as ((H & _) & _). exact H.
Qed.

(** The descent of [Remove] in a tree whose root is the parent of the leaf. *)
Lemma Remove_descend_two_level t root leaf key :
  is_Some (pages_ t !! root) →
  IsLeafPage t root = false →
  FetchPage t (descend_child t root key) = Some leaf → IsLeafPage t leaf = true →
  Remove_descend (descent_fuel t) t root key [root] [] =
    Some ([leaf; root], [descend_index t root key - 1]).
Proof.
  intros Hpool Hroot Hfetch Hleaf.
  rewrite (pool_nonempty t root Hpool). cbn [Remove_descend].
  rewrite Hroot, Hfetch. cbn [mbind option_bind]. by rewrite Hleaf.
Qed.

(** [Remove] in a tree whose root is the parent of the leaf, when the leaf
    ends under-full and its right sibling is the one to lend: the first
    entry of the sibling moves over and the root's key at the sibling's slot
    follows. *)
Lemma Remove_borrow_from_right t key root leaf leaf_position prev next bigger_size :
  root_page_id_ t = root → root ≠ INVALID_PAGE_ID → is_Some (pages_ t !! root) →
  IsLeafPage t root = false →
  FetchPage t (descend_child t root key) = Some leaf → IsLeafPage t leaf = true →
  leaf_position = descend_index t root key - 1 →
  fetch_siblings t root leaf_position = Some (prev, Some next, bigger_size) →
  leaf ≠ root → leaf ≠ next → next ≠ root →
  match prev with
  | None => True
  | Some p => p ≠ leaf ∧ GetSize t p < GetSize t next
  end →
  0 ≤ GetSize (leaf_delete leaf key t) leaf < GetMinSize t leaf →
  GetMinSize t leaf ≤ GetSize t next - 1 →
  let t1 := leaf_delete leaf key t in
  ∃ t', Remove t key = Some t' ∧
    GetSize t' leaf = GetSize t1 leaf + 1 ∧
    (∀ i, 0 ≤ i < GetSize t1 leaf → slot_at t' leaf i = slot_at t1 leaf i) ∧
    slot_at t' leaf (GetSize t1 leaf) = slot_at t next 0 ∧
    GetSize t' next = GetSize t next - 1 ∧
    (∀ i, 0 ≤ i < GetSize t next - 1 → slot_at t' next i = slot_at t next (i + 1)) ∧
    KeyAt t' root (leaf_position + 1) = KeyAt t' next 0.
Proof.
  intros Hroot Hvalid Hpool Hrl Hfetch Hleaf Hlp Hsib Hlr Hln Hnr Hprev Hunder Hlend.
  destruct (leaf_delete_frame leaf key t) as (Hr1 & Hpool1 & Hmax1 & Hoth1).
  intros t1. subst t1.
  set (t1 := leaf_delete leaf key t) in *.
  assert (GetMinSize t1 leaf = GetMinSize t leaf) as Hmin1.
  { unfold GetMinSize. by rewrite Hmax1. }
  destruct (fetch_siblings_inv _ _ _ _ _ _ Hsib) as (_ & _ & Hp & Hn & Hbig).
  assert (fetch_siblings t1 root leaf_position = Some (prev, Some next, bigger_size)) as Hsib1.
  { apply (fetch_siblings_frame t); [done| | |done|].
    - by apply Hoth1.
    - by apply Hoth1.
    - intros q [Hq|Hq].
      + subst prev. destruct Hprev as [Hne _]. by apply Hoth1.
      + simplify_eq. by apply Hoth1. }
  assert (0 ≤ leaf_position) as Hlp0.
  { pose proof (descend_index_pos t root key). lia. }
  destruct (Hoth1 next ltac:(done)) as [Hszn Hsln].
  destruct (leaf_steal_from_next t1 leaf root leaf_position prev next)
    as (t' & uk & Hsteal & E1 & E2 & E3 & E4 & E5 & E6); try done.
  { unfold steal_from_prev. destruct prev as [p|]; [|done].
    destruct Hprev as [Hpl Hlt].
    rewrite !GetSize_IncreaseSize, !decide_False by done.
    apply Z.leb_gt.
    rewrite (proj1 (Hoth1 p Hpl)), Hszn. lia. }
  { lia. }
  exists t'. split.
  { unfold Remove. rewrite Hroot. rewrite (proj2 (Z.eqb_neq _ _)) by done.
    rewrite (FetchPage_Some t root Hpool). cbn [mbind option_bind].
    rewrite (Remove_descend_two_level t root leaf key) by done.
    cbn [mbind option_bind]. fold t1. rewrite Hmin1.
    destruct (Z.geb_spec (GetSize t1 leaf) (GetMinSize t leaf)); [lia|].
    rewrite <- Hlp, Hsib1. cbn [mbind option_bind].
    destruct (Z.ltb_spec (bigger_size - 1) (GetMinSize t leaf)) as [Hlt|_].
    { destruct (Hn next eq_refl) as (_ & Hle & _). lia. }
    rewrite Hsteal. cbn [mbind option_bind]. done. }
  rewrite Hszn in E4, E5. setoid_rewrite Hsln in E5. rewrite Hsln in E3.
  done.
Qed.

Lemma descend_index_le t root key :
  1 ≤ GetSize t root → descend_index t root key ≤ GetSize t root.
Proof.
  intros Hs. unfold descend_index.
  destruct (scan_spec 1 (GetSize t root)
              (λ i, comparator_ key (KeyAt t root i) <? 0) Hs) as (H & _). lia.
Qed.

(** The appending loop of a merge writes to [merge_to] only. *)
Lemma merge_append_frame merge_to merge_from lo idx t :
  merge_to ≠ merge_from →
  ∃ t', merge_append merge_to merge_from lo idx t = Some t' ∧
    root_page_id_ t' = root_page_id_ t ∧
    ∀ q, q ≠ merge_to → hdr t' q = hdr t q ∧ ∀ j, slot_at t' q j = slot_at t q j.
Proof.
  intros Hne. unfold merge_append.
  rewrite (proj2 (Z.eqb_neq _ _)) by done. cbn [andb].
  eexists. split; [done|].
  split. { by rewrite (for_up_preserves root_page_id_). }
  intros q Hq. split.
  - apply (for_up_preserves (λ s, hdr s q)). intros k s.
    rewrite hdr_copy_slot, hdr_IncreaseSize. by rewrite decide_False by done.
  - intros j. apply (for_up_preserves (λ s, slot_at s q j)). intros k s.
    by store_rw.
Qed.

(** The leaf merge leaves the parent alone and hands up the separator
    between the two leaves. *)
Lemma leaf_merge_frame leaf root leaf_position prev next t :
  leaf ≠ root →
  (leaf_position ≠ 0 → ∃ p, prev = Some p ∧ p ≠ leaf ∧ p ≠ root) →
  (leaf_position = 0 → ∃ n, next = Some n ∧ n ≠ leaf ∧ n ≠ root) →
  ∃ t' update_key,
    leaf_merge leaf root leaf_position prev next t =
      Some (t', KeyAt t root (if leaf_position =? 0 then 1 else leaf_position), update_key) ∧
    root_page_id_ t' = root_page_id_ t ∧
    GetSize t' root = GetSize t root ∧
    ∀ j, slot_at t' root j = slot_at t root j.
Proof.
  intros Hlr Hprev Hnext. unfold leaf_merge.
  destruct (Z.eqb_spec leaf_position 0) as [->|Hne]; cbn [negb].
  - destruct (Hnext eq_refl) as (n & -> & Hnl & Hnr). cbn [mbind option_bind].
    destruct (merge_append_frame leaf n 0 (GetSize t leaf) t ltac:(done))
      as (t1 & -> & Hr1 & Hoth1). cbn [mbind option_bind].
    eexists _, _. split; [done|].
    split; [done|].
    destruct (Hoth1 root ltac:(done)) as [Hh Hs].
    split.
    + store_rw. rewrite !GetSize_alt. rewrite hdr_SetNextPageId.
      rewrite decide_False by done. by rewrite Hh.
    + intros j. store_rw. apply Hs.
  - destruct (Hprev Hne) as (p & -> & Hpl & Hpr). cbn [mbind option_bind].
    destruct (merge_append_frame p leaf 0 (GetSize t p) t ltac:(done))
      as (t1 & -> & Hr1 & Hoth1). cbn [mbind option_bind].
    eexists _, _. split; [done|].
    split; [done|].
    destruct (Hoth1 root ltac:(done)) as [Hh Hs].
    split.
    + store_rw. rewrite !GetSize_alt. rewrite hdr_SetNextPageId.
      rewrite decide_False by done. by rewrite Hh.
    + intros j. store_rw. apply Hs.
Qed.

(** [Remove] in a tree whose root is the parent of the leaf, when the leaf
    ends under-full and no sibling can lend: the leaves merge, and a root
    left with one child hands the tree over to it. *)
Lemma Remove_merge_at_root t key root leaf leaf_position prev next bigger_size :
  root_page_id_ t = root → root ≠ INVALID_PAGE_ID → is_Some (pages_ t !! root) →
  IsLeafPage t root = false →
  FetchPage t (descend_child t root key) = Some leaf → IsLeafPage t leaf = true →
  leaf_position = descend_index t root key - 1 →
  2 ≤ GetSize t root →
  fetch_siblings t root leaf_position = Some (prev, next, bigger_size) →
  leaf ≠ root → prev ≠ Some leaf → next ≠ Some leaf →
  prev ≠ Some root → next ≠ Some root →
  GetSize (leaf_delete leaf key t) leaf < GetMinSize t leaf →
  bigger_size - 1 < GetMinSize t leaf →
  ∃ t', Remove t key = Some t' ∧
    root_page_id_ t' = if GetSize t root =? 2 then ValueAt t root 0 else root.
Proof.
  intros Hroot Hvalid Hpool Hrl Hfetch Hleaf Hlp Hsz Hsib Hlr Hpl Hnl Hpr Hnr Hunder Hbig.
  destruct (leaf_delete_frame leaf key t) as (Hr1 & Hpool1 & Hmax1 & Hoth1).
  set (t1 := leaf_delete leaf key t) in *.
  assert (GetMinSize t1 leaf = GetMinSize t leaf) as Hmin1.
  { unfold GetMinSize. by rewrite Hmax1. }
  destruct (fetch_siblings_inv _ _ _ _ _ _ Hsib) as (Hp0 & Hn0 & _ & _ & _).
  assert (fetch_siblings t1 root leaf_position = Some (prev, next, bigger_size)) as Hsib1.
  { apply (fetch_siblings_frame t); [done| | |done|].
    - by apply Hoth1.
    - by apply Hoth1.
    - intros q [Hq|Hq]; subst; apply Hoth1; congruence. }
  pose proof (descend_index_pos t root key) as Hi1.
  pose proof (descend_index_le t root key ltac:(lia)) as Hi2.
  destruct (leaf_merge_frame leaf root leaf_position prev next t1 Hlr)
    as (t2 & uk & Hmerge & Hr2 & Hsz2 & Hs2).
  { intros Hne. destruct prev as [p|].
    - exists p. split; [done|]. split; congruence.
    - destruct (Hp0 eq_refl). lia. }
  { intros H0. destruct next as [n|].
    - exists n. split; [done|]. split; congruence.
    - specialize (Hn0 eq_refl). lia. }
  set (i := if leaf_position =? 0 then 1 else leaf_position) in *.
  assert (1 ≤ i < GetSize t root) as Hi.
  { unfold i. destruct (Z.eqb_spec leaf_position 0); lia. }
  destruct (Remove_merge_up_root [] root (KeyAt t1 root i) key uk t2 i)
    as (t' & Hup & Hroot').
  { rewrite Hsz2. rewrite (proj1 (Hoth1 root ltac:(done))). done. }
  { by rewrite !KeyAt_slot_at, Hs2. }
  exists t'. split.
  - unfold Remove. rewrite Hroot. rewrite (proj2 (Z.eqb_neq _ _)) by done.
    rewrite (FetchPage_Some t root Hpool). cbn [mbind option_bind].
    rewrite (Remove_descend_two_level t root leaf key) by done.
    cbn [mbind option_bind]. fold t1. rewrite Hmin1.
    destruct (Z.geb_spec (GetSize t1 leaf) (GetMinSize t leaf)); [lia|].
    rewrite <- Hlp, Hsib1. cbn [mbind option_bind].
    destruct (Z.ltb_spec (bigger_size - 1) (GetMinSize t leaf)); [|lia].
    rewrite Hmerge. cbn [mbind option_bind]. done.
  - rewrite Hroot'. rewrite Hsz2, (proj1 (Hoth1 root ltac:(done))).
    rewrite Hr2, Hr1, Hroot.
    by rewrite !ValueAt_slot_at, Hs2, (proj2 (Hoth1 root ltac:(done))).
Qed.
End remove_two_level.

(** ** The borrow from the left sibling *)
Section borrow_left.
Implicit Types (t : BPlusTree) (p q : page_id_t).

(** [for (j = a; j < b; j++) slot j = slot j - 1] on one page, in ascending
    order: every slot [a .. b-1] ends as a copy of slot [a - 1]. *)
Lemma smear_loop p a b t :
  1 ≤ a →
  let s := for_up a b (λ j t, copy_slot p j p (j - 1) t) t in
  (∀ q, hdr s q = hdr t q) ∧
  (∀ i, a ≤ i < b → slot_at s p i = slot_at t p (a - 1)) ∧
  (∀ i, ¬ (a ≤ i < b) → slot_at s p i = slot_at t p i) ∧
  (∀ q i, q ≠ p → slot_at s q i = slot_at t q i).
Proof.
  intros Ha s. split.
  { intros q. apply hdr_for_up. intros. apply hdr_copy_slot. }
  destruct (decide (a ≤ b)) as [Hab|Hab].
  2: { subst s. rewrite for_up_empty by lia. repeat split; try done. intros; lia. }
  subst s.
  apply (for_up_invariant (λ k s,
    (∀ i, a ≤ i < k → slot_at s p i = slot_at t p (a - 1)) ∧
    (∀ i, ¬ (a ≤ i < k) → slot_at s p i = slot_at t p i) ∧
    (∀ q i, q ≠ p → slot_at s q i = slot_at t q i))); [done| |].
  - split; [intros; lia|]. by split.
  - intros k s Hk (Hsmeared & Hrest & Hother). split; [|split].
    + intros i Hi. rewrite slot_at_copy_slot.
      destruct (decide (i = k)) as [->|Hik].
      * rewrite decide_True by (split; [done | lia]).
        destruct (decide (k = a)) as [->|Hka].
        -- apply Hrest. lia.
        -- apply Hsmeared. lia.
      * rewrite decide_False by lia. apply Hsmeared. lia.
    + intros i Hi. rewrite slot_at_copy_slot.
      rewrite decide_False by lia. apply Hrest. lia.
    + intros q i Hq. rewrite slot_at_copy_slot.
      rewrite decide_False; [by apply Hother | intros (? & _); by apply Hq].
Qed.

(** The borrow from the left sibling: the leaf receives the last entry of
    the sibling in slot 0, and every other slot of the leaf ends as a copy of
    the leaf's old first entry. *)
Lemma leaf_steal_from_prev t leaf root leaf_position prev next :
  prev ≠ leaf → leaf ≠ root →
  match next with
  | None => True
  | Some n => n ≠ leaf ∧ GetSize t n ≤ GetSize t prev
  end →
  0 ≤ GetSize t leaf →
  ∃ t' update_key,
    leaf_steal leaf root leaf_position (Some prev) next t = Some (t', update_key) ∧
    GetSize t' leaf = GetSize t leaf + 1 ∧
    GetSize t' prev = GetSize t prev - 1 ∧
    slot_at t' leaf 0 = slot_at t prev (GetSize t prev - 1) ∧
    ∀ j, 1 ≤ j ≤ GetSize t leaf → slot_at t' leaf j = slot_at t leaf 0.
Proof.
  intros Hpl Hlr Hnext Hs.
  assert (steal_from_prev (IncreaseSize leaf 1 t) (Some prev) next = true) as Hdonor.
  { unfold steal_from_prev. destruct next as [n|]; [|done].
    destruct Hnext as [Hnl Hle].
    rewrite !GetSize_IncreaseSize, !decide_False by done. by apply Z.leb_le. }
  unfold leaf_steal. rewrite Hdonor.
  cbn [mbind option_bind].
  set (s := GetSize t leaf) in *.
  set (t1 := IncreaseSize leaf 1 t).
  assert (GetSize t1 leaf = s + 1) as Hs1 by (unfold t1; store_rw; done).
  rewrite Hs1.
  destruct (smear_loop leaf 1 (s + 1) t1) as (Hh2 & Hsm2 & Hrest2 & Hoth2); [lia|].
  set (t2 := for_up 1 (s + 1) _ t1) in *.
  assert (∀ q, GetSize t2 q = GetSize t1 q) as Hsz2.
  { intros q. by rewrite !GetSize_alt, Hh2. }
  set (t3 := copy_slot leaf 0 prev (GetSize t2 prev - 1) t2).
  set (t4 := IncreaseSize prev (-1) t3).
  set (t5 := if leaf_position >? 0 then SetKeyAt root leaf_position (KeyAt t4 leaf 0) t4 else t4).
  assert (∀ q, GetSize t5 q = GetSize t4 q) as Hsz5.
  { intros q. unfold t5. destruct (leaf_position >? 0); store_rw; done. }
  assert (∀ i, slot_at t5 leaf i = slot_at t3 leaf i) as Hs5.
  { intros i. unfold t5. destruct (leaf_position >? 0); unfold t4; store_rw; done. }
  assert (GetSize t2 prev = GetSize t prev) as Hszp.
  { rewrite Hsz2. unfold t1. by store_rw. }
  eexists _, _. split; [done|]. fold t5.
  split. { rewrite Hsz5. unfold t4, t3. store_rw. rewrite Hsz2. done. }
  split. { rewrite Hsz5. unfold t4, t3. store_rw. rewrite Hszp. done. }
  split. { rewrite Hs5. unfold t3. store_rw. rewrite Hszp.
           rewrite Hoth2 by done. unfold t1. by store_rw. }
  intros j Hj. rewrite Hs5. unfold t3. store_rw.
  rewrite Hsm2 by lia. unfold t1. by store_rw.
Qed.
End borrow_left.

(** ** Insert followed by GetValue *)
Section insert_then_get.
Implicit Types (t : BPlusTree) (p q : page_id_t).

Lemma scan_from_ext n i (P Q : Z → bool) :
  (∀ k, P k = Q k) → scan_from n i P = scan_from n i Q.
Proof.
  intros H. revert i. induction n as [|n IH]; intros i; simpl; [done|].
  by rewrite H, IH.
Qed.

Lemma scan_ext a b (P Q : Z → bool) : (∀ k, P k = Q k) → scan a b P = scan a b Q.
Proof. intros. unfold scan. by apply scan_from_ext. Qed.

(** The child a descent picks depends on the size and the slots of the page
    only. *)
Lemma descend_child_ext t t' root key :
  GetSize t' root = GetSize t root →
  (∀ j, slot_at t' root j = slot_at t root j) →
  descend_child t' root key = descend_child t root key.
Proof.
  intros Hs Hsl. unfold descend_child, descend_index. rewrite Hs.
  rewrite (scan_ext _ _ (λ i, comparator_ key (KeyAt t' root i) <? 0)
                        (λ i, comparator_ key (KeyAt t root i) <? 0))
    by (intros; by rewrite !KeyAt_slot_at, Hsl).
  by rewrite !ValueAt_slot_at, !Hsl.
Qed.

(** The write descent ends on a leaf page of the pool. *)
Lemma Insert_descend_leaf fuel t root key ws leaf ws' :
  is_Some (pages_ t !! root) →
  Insert_descend fuel t root key (root :: ws) = Some (leaf :: ws') →
  IsLeafPage t leaf = true ∧ is_Some (pages_ t !! leaf).
Proof.
  revert root ws. induction fuel as [|fuel IH]; intros root ws Hpool; simpl; [done|].
  destruct (IsLeafPage t root) eqn:Hleaf.
  - intros [= <- <-]. done.
  - destruct (FetchPage t (descend_child t root key)) as [child|] eqn:Hfetch; [|done].
    cbn [mbind option_bind]. apply FetchPage_inv in Hfetch as [Hc Hcp].
    intros Hd. apply (IH child (root :: ws)); [by subst | done].
Qed.

(** A write that touches one leaf only does not move the read descent that
    ends on this leaf. *)
Lemma GetValue_loop_after_leaf_write fuel t t' root key ws leaf ws' result :
  Insert_descend fuel t root key (root :: ws) = Some (leaf :: ws') →
  IsLeafPage t leaf = true →
  (∀ q, IsLeafPage t' q = IsLeafPage t q) →
  (∀ q, q ≠ leaf → GetSize t' q = GetSize t q ∧ ∀ j, slot_at t' q j = slot_at t q j) →
  (∀ q, is_Some (pages_ t !! q) → is_Some (pages_ t' !! q)) →
  GetValue_loop fuel t' root key result =
    Some (if leaf_find t' leaf key <? GetSize t' leaf
          then (true, result ++ [ValueAt t' leaf (leaf_find t' leaf key)])
          else (false, result)).
Proof.
  intros Hd Hleaf Hty Hoth Hpool.
  revert root ws Hd. induction fuel as [|fuel IH]; intros root ws; simpl; [done|].
  rewrite Hty.
  destruct (IsLeafPage t root) eqn:Hrl.
  - intros [= <- <-]. by destruct (_ <? _).
  - assert (root ≠ leaf) as Hne by (intros ->; congruence).
    destruct (Hoth root Hne) as [Hs Hsl].
    rewrite (descend_child_ext t t' root key Hs Hsl).
    destruct (FetchPage t (descend_child t root key)) as [child|] eqn:Hfetch; [|done].
    cbn [mbind option_bind]. apply FetchPage_inv in Hfetch as [-> Hcp].
    rewrite (FetchPage_Some t' _ (Hpool _ Hcp)). cbn [mbind option_bind].
    apply IH.
Qed.

(** The pages of the pool after a write to a page of the pool. *)
Lemma dom_upd p f t : dom (pages_ (upd p f t)) = {[p]} ∪ dom (pages_ t).
Proof. simpl. by rewrite dom_insert_L. Qed.

Lemma pool_for_down a b (body : Z → BPlusTree → BPlusTree) t q :
  (∀ k s, is_Some (pages_ s !! q) → is_Some (pages_ (body k s) !! q)) →
  is_Some (pages_ t !! q) → is_Some (pages_ (for_down a b body t) !! q).
Proof.
  intros Hbody. unfold for_down. generalize (Z.to_nat (a - b + 1)). intros n.
  revert a t. induction n as [|n IH]; intros a t Ht; simpl; [done|].
  apply IH. by apply Hbody.
Qed.

Lemma pool_shift_insert p lo key value t q :
  is_Some (pages_ t !! q) → is_Some (pages_ (shift_insert p lo key value t) !! q).
Proof.
  intros H. unfold shift_insert. destruct (_ <=? _); [|done].
  do 2 apply pool_upd.
  apply pool_for_down; [intros; by apply pool_copy_slot|].
  by apply pool_upd.
Qed.

Lemma descent_fuel_shift_insert p lo key value t :
  is_Some (pages_ t !! p) →
  descent_fuel (shift_insert p lo key value t) = descent_fuel t.
Proof.
  intros Hp. unfold descent_fuel. f_equal.
  rewrite <- !size_dom. f_equal.
  assert (∀ X : gset Z, {[p]} ∪ ({[p]} ∪ X) = {[p]} ∪ X) as Habsorb.
  { intros X. by rewrite (assoc_L (∪)), (idemp_L (∪)). }
  assert ({[p]} ∪ dom (pages_ (shift_insert p lo key value t)) = {[p]} ∪ dom (pages_ t)) as E.
  { unfold shift_insert. destruct (_ <=? _); [|done].
    unfold SetValueAt, SetKeyAt. rewrite !dom_upd, !Habsorb.
    rewrite (for_down_preserves (λ s, {[p]} ∪ dom (pages_ s))).
    - unfold IncreaseSize. by rewrite dom_upd, Habsorb.
    - intros k s. unfold copy_slot, SetValueAt, SetKeyAt. by rewrite !dom_upd, !Habsorb. }
  pose proof (pool_shift_insert p lo key value t p Hp) as Hp2.
  rewrite !subseteq_union_1_L in E; [done| |].
  - by apply singleton_subseteq_l, elem_of_dom.
  - by apply singleton_subseteq_l, elem_of_dom.
Qed.

(** [Insert] into a leaf with room, and the lookup that follows: in every
    tree, wherever the write descent ends on a leaf that does not hold the
    key and is not full, [Insert] returns true and [GetValue] then finds the
    value. *)
Theorem Insert_with_room_then_GetValue t key value root leaf ws :
  root_page_id_ t ≠ INVALID_PAGE_ID →
  FetchPage t (root_page_id_ t) = Some root →
  Insert_descend (descent_fuel t) t root key [root] = Some (leaf :: ws) →
  (leaf_find t leaf key <? GetSize t leaf) = false →
  0 ≤ GetSize t leaf → GetSize t leaf ≠ GetMaxSize t leaf →
  ∃ t', Insert t key value = Some (true, t') ∧
        GetValue t' key [] = Some (true, [value]).
Proof.
  intros Hvalid Hroot Hd Habs Hs Hroom.
  apply FetchPage_inv in Hroot as Hr. destruct Hr as [-> Hrp].
  destruct (Insert_descend_leaf _ _ _ _ _ _ _ Hrp Hd) as [Hleaf Hlp].
  destruct (shift_insert_pos leaf 0 key value t ltac:(lia))
    as (i & Hi & Hbelow & _ & Hsz & Hat & Hlow & _ & Hoth).
  destruct (shift_insert_frame leaf 0 key value t) as (Hrt & Hh).
  pose proof (descent_fuel_shift_insert leaf 0 key value t Hlp) as Hfuel.
  set (t' := shift_insert leaf 0 key value t) in *.
  exists t'. split.
  - unfold Insert. rewrite (proj2 (Z.eqb_neq _ _)) by done.
    rewrite Hroot. cbn [mbind option_bind]. rewrite Hd. cbn [mbind option_bind].
    rewrite Habs. rewrite (proj2 (Z.eqb_neq _ _)) by done.
    by rewrite Hleaf.
  - unfold GetValue. rewrite Hrt. rewrite (proj2 (Z.eqb_neq _ _)) by done.
    rewrite (FetchPage_Some t' _ (pool_shift_insert leaf 0 key value t _ Hrp)).
    cbn [mbind option_bind]. rewrite Hfuel.
    rewrite (GetValue_loop_after_leaf_write _ t t' _ key [] leaf ws [] Hd Hleaf).
    + (* the scan of the leaf stops at the slot of the new pair *)
      assert (leaf_find t' leaf key = i) as Hfind.
      { unfold leaf_find. rewrite Hsz.
        set (Q := λ k, comparator_ key (KeyAt t' leaf k) =? 0).
        destruct (scan_spec 0 (GetSize t leaf + 1) Q ltac:(lia)) as (Hr & Hbefore & Hfound).
        set (r := scan 0 (GetSize t leaf + 1) Q) in *.
        assert (Q i = true) as HQi.
        { unfold Q. rewrite comparator_eq, KeyAt_slot_at, Hat.
          by rewrite bool_decide_eq_true_2. }
        destruct (Z.lt_trichotomy r i) as [Hlt|[E|Hgt]]; [|done|].
        - exfalso. specialize (Hfound ltac:(lia)). unfold Q in Hfound.
          rewrite comparator_eq in Hfound. apply bool_decide_eq_true in Hfound.
          rewrite KeyAt_slot_at, Hlow in Hfound by lia.
          rewrite <- KeyAt_slot_at in Hfound.
          specialize (Hbelow r ltac:(lia)). lia.
        - exfalso. rewrite Hbefore in HQi by lia. done. }
      rewrite Hfind, Hsz. destruct (Z.ltb_spec i (GetSize t leaf + 1)); [|lia].
      by rewrite ValueAt_slot_at, Hat.
    + intros q. apply Hh.
    + intros q Hq. by apply Hoth.
    + intros q. apply pool_shift_insert.
Qed.

(** [Insert] into the empty tree, and the lookup that follows. *)
Theorem Insert_first_then_GetValue t key value :
  root_page_id_ t = INVALID_PAGE_ID → next_alloc_ t ≠ INVALID_PAGE_ID →
  ∃ t', Insert t key value = Some (true, t') ∧
        root_page_id_ t' = next_alloc_ t ∧
        GetValue t' key [] = Some (true, [value]).
Proof.
  intros Hempty Hfresh. unfold Insert. rewrite Hempty, Z.eqb_refl.
  cbn [NewPageGuarded fst snd].
  change (mkTree _ _ _ _ _) with (NewPageGuarded t).2.
  set (root := next_alloc_ t) in *.
  change (leaf_max_size_ (set_root root (NewPageGuarded t).2)) with (leaf_max_size_ t).
  set (t1 := LeafPage_Init root (leaf_max_size_ t) (set_root root (NewPageGuarded t).2)).
  set (t' := SetValueAt root 0 value (SetKeyAt root 0 key (IncreaseSize root 1 t1))).
  assert (hdr t' root = (LEAF_PAGE, 1, leaf_max_size_ t, INVALID_PAGE_ID)) as Hh.
  { unfold t'. rewrite hdr_SetValueAt, hdr_SetKeyAt, hdr_IncreaseSize, decide_True by done.
    unfold t1. by rewrite hdr_LeafPage_Init, decide_True by done. }
  assert (slot_at t' root 0 = (key, value)) as Hs.
  { unfold t'. by store_rw. }
  exists t'. split; [done|]. split; [done|].
  unfold GetValue. change (root_page_id_ t') with root.
  rewrite (proj2 (Z.eqb_neq _ _)) by done.
  rewrite FetchPage_Some by (do 4 apply pool_upd; simpl; rewrite lookup_insert_eq; eauto).
  cbn [mbind option_bind]. unfold descent_fuel. cbn [GetValue_loop].
  unfold IsLeafPage. change (page_type_ (page t' root)) with (hdr t' root).1.1.1.
  rewrite Hh. cbn [fst snd].
  unfold leaf_find. rewrite GetSize_alt, Hh. cbn [fst snd].
  unfold scan. simpl.
  rewrite comparator_eq, KeyAt_slot_at, Hs. cbn [fst].
  rewrite bool_decide_eq_true_2 by done.
  by rewrite ValueAt_slot_at, Hs.
Qed.
End insert_then_get.

(** * The specification of the B+Tree, property by property *)

(** C1: "for every reachable tree state and every key k not currently
    present, if insert(k, v) returns true then a subsequent get(k) returns
    true and delivers exactly one value, equal to v."  The code does not keep
    this: with leaf_max_size 2 and internal_max_size 4, after the operations
    [misrouting_ops] key 15 is absent, [Insert] of 15 returns true, and the
    lookup of 15 that follows misses.  Before the insertion the rightmost
    leaf (page 9) holds key 13 twice; its split promotes 13 beside the
    separator 13 that is already there, [Insert] puts 15 into the new leaf
    (page 11), and the lookup descends past both separators to page 9. *)
Theorem C1_insert_then_get_misses :
  ∃ t t',
    run (BPlusTree_new 2 4) misrouting_ops = Some t ∧
    view t [3; 9] =
      (3, [(3, false, [0; 4; 8; 13], [1; 4; 2; 9], 0);
           (9, true, [13; 13], [RID 13; RID 13], 6)]) ∧
    GetValue t 15 [] = Some (false, []) ∧
    Insert t 15 (RID 15) = Some (true, t') ∧
    view t' [13; 12; 9; 11] =
      (13, [(13, false, [0; 8], [3; 12], 0);
            (12, false, [0; 13; 13], [2; 11; 9], 0);
            (9, true, [13], [RID 13], 11);
            (11, true, [13; 15], [RID 13; RID 15], 6)]) ∧
    GetValue t' 15 [] = Some (false, []).
Proof.
  eexists _, _. split; [vm_compute; reflexivity|].
  split; [vm_compute; reflexivity|].
  split; [vm_compute; reflexivity|].
  split; [vm_compute; reflexivity|].
  split; vm_compute; reflexivity.
Qed.

(** C2: "for every reachable tree state in which key k is present with
    value v, insert(k, v') returns false and performs no mutation".  The
    code keeps this where the lookup finds the key: then the write descent
    ends on the leaf of the read descent, the duplicate check finds the key
    and [Insert] returns false with the tree it was given.  It does not keep
    it for a key that is stored in a leaf of the tree which the descent for
    the key does not reach.  With leaf_max_size 2 and internal_max_size 4,
    after [misrouting_ops] and Insert(15, RID 15) (the run of C1) the pair
    (15, RID 15) is in the leaf on page 11, a child of page 12, which is a
    child of the root (page 13).  The descent for 15 passes both separators
    13 of page 12 and ends on page 9, where the duplicate check does not
    meet the key: Insert(15, 99) returns true and puts the pair (15, 99)
    into page 9. *)
Theorem C2_duplicate_insert_accepted :
  (∀ t key value value',
     GetValue t key [] = Some (true, [value]) →
     Insert t key value' = Some (false, t)) ∧
  ∃ t t',
    run (BPlusTree_new 2 4) (misrouting_ops ++ [OpInsert 15 (RID 15)]) = Some t ∧
    view t [13; 12; 11; 9] =
      (13, [(13, false, [0; 8], [3; 12], 0);
            (12, false, [0; 13; 13], [2; 11; 9], 0);
            (11, true, [13; 15], [RID 13; RID 15], 6);
            (9, true, [13], [RID 13], 11)]) ∧
    Insert t 15 99 = Some (true, t') ∧
    view t' [13; 12; 11; 9] =
      (13, [(13, false, [0; 8], [3; 12], 0);
            (12, false, [0; 13; 13], [2; 11; 9], 0);
            (11, true, [13; 15], [RID 13; RID 15], 6);
            (9, true, [13; 15], [RID 13; 99], 11)]).
Proof.
  split.
  - intros t key value value' Hget.
    by apply (Insert_duplicate t key value value').
  - eexists _, _. split; [vm_compute; reflexivity|].
    split; [vm_compute; reflexivity|].
    split; vm_compute; reflexivity.
Qed.

Lemma C2_duplicate_insert_accepted_witness :
  GetValue five_keys_tree 3 [] = Some (true, [RID 3]) ∧
  Insert five_keys_tree 3 (RID 33) = Some (false, five_keys_tree).
Proof.
  assert (GetValue five_keys_tree 3 [] = Some (true, [RID 3])) as H
    by (vm_compute; reflexivity).
  split; [exact H|].
  exact (proj1 C2_duplicate_insert_accepted five_keys_tree 3 (RID 3) (RID 33) H).
Defined.

(** C3: "after remove(k) a subsequent get(k) returns false".  The code does
    not keep this.  A borrow from the left sibling moves the entries of the
    leaf up in ascending order, so that every slot behind the first ends as
    a copy of the leaf's old first entry ([borrow_from_left_as_built]): the
    other entries are lost and one key is stored more than once, of which
    [Remove] deletes the first copy only.  With leaf_max_size =
    internal_max_size = 6, after inserting 1, 2, 3, 4, 5, 6, 0 and removing 6
    (such a borrow: the leaf [4, 5] becomes [3, 4, 4]), [Remove] of 4 leaves
    a tree in which the lookup of 4 still succeeds. *)
Theorem C3_remove_then_get_finds :
  (∀ t leaf root leaf_position prev next,
     prev ≠ leaf → leaf ≠ root →
     match next with
     | None => True
     | Some n => n ≠ leaf ∧ GetSize t n ≤ GetSize t prev
     end →
     0 ≤ GetSize t leaf →
     borrow_from_left_as_built t leaf root leaf_position prev next) ∧
  ∃ t t',
    run (BPlusTree_new 6 6) borrow_left_ops = Some t ∧
    keys t 2 = [3; 4; 4] ∧
    GetValue t 5 [] = Some (false, []) ∧
    Remove t 4 = Some t' ∧
    GetValue t' 4 [] = Some (true, [RID 4]).
Proof.
  split.
  - intros t leaf root leaf_position prev next. apply leaf_steal_from_prev.
  - eexists _, _. split; [vm_compute; reflexivity|].
    split; [vm_compute; reflexivity|].
    split; [vm_compute; reflexivity|].
    split; vm_compute; reflexivity.
Qed.

Lemma C3_remove_then_get_finds_witness :
  (1 ≠ 2 ∧ 2 ≠ 3 ∧ True ∧ 0 ≤ GetSize (leaf_delete 2 6 seven_keys_tree) 2) ∧
  borrow_from_left_as_built (leaf_delete 2 6 seven_keys_tree) 2 3 1 1 None.
Proof.
  assert (0 ≤ GetSize (leaf_delete 2 6 seven_keys_tree) 2) as H by (vm_compute; discriminate).
  split; [repeat split; (done || lia)|].
  exact (proj1 C3_remove_then_get_finds (leaf_delete 2 6 seven_keys_tree) 2 3 1 1 None
           ltac:(lia) ltac:(lia) I H).
Defined.

(** C4: the split of a full leaf holding [m] entries is
    [leaf_split_as_specified] when the leaf holds at least 2 entries: with
    [mid = ceil(m/2)] the slots [mid .. m-1] are the slots [0 .. m-mid-1] of
    the new leaf, the old leaf has size [mid], the new leaf follows the old
    one in the leaf list, and the promoted key is the first key of the new
    leaf.  [Insert] of a new key into a tree whose root is such a leaf
    performs this split and ends as [root_leaf_split_as_specified].  And
    scenario 2: after 1, 2, 3, 4, 5 with both maximal sizes 4 the root
    (page 3) is internal with K[1] = 3, child[0] the leaf [1, 2] (page 1)
    and child[1] the leaf [3, 4, 5] (page 2), and page 1 is linked to page
    2.

    The code does not keep the claim for a full leaf of one entry
    (leaf_max_size = 1, which the constructor takes and the assertion
    [m > 0] of the split admits).  The promoted key is read from the old
    leaf at [ceil(m/2)] before any slot moves; for [m = 1] this is slot 1,
    which is no entry of the leaf, and the new leaf receives no slot.  With
    leaf_max_size 1 and internal_max_size 4, after Insert(5) the call
    Insert(7) promotes the key 0 of the unwritten slot: the root has
    K[1] = 0 while the first key of the new leaf is 7, and the lookup of 5
    misses afterwards. *)
Theorem C4_leaf_split_promotes_dead_slot :
  (∀ t leaf,
     leaf ≠ next_alloc_ t → 2 ≤ GetSize t leaf → leaf_split_as_specified t leaf) ∧
  (∀ t key value leaf,
     root_page_id_ t = leaf → leaf ≠ INVALID_PAGE_ID → is_Some (pages_ t !! leaf) →
     IsLeafPage t leaf = true →
     GetSize t leaf = GetMaxSize t leaf → 2 ≤ GetSize t leaf →
     (∀ i, 0 ≤ i < GetSize t leaf → KeyAt t leaf i ≠ key) →
     leaf ≠ next_alloc_ t → leaf ≠ next_alloc_ t + 1 →
     root_leaf_split_as_specified t key value leaf) ∧
  (λ t, view t [3; 1; 2]) <$> run (BPlusTree_new 4 4) (inserts [1; 2; 3; 4; 5]) =
    Some (3, [(3, false, [0; 3], [1; 2], 0);
              (1, true, [1; 2], [RID 1; RID 2], 2);
              (2, true, [3; 4; 5], [RID 3; RID 4; RID 5], INVALID_PAGE_ID)]) ∧
  (∀ t leaf,
     leaf ≠ next_alloc_ t → GetSize t leaf = 1 →
     let '(t', new_leaf, separator) := split_leaf leaf t in
     GetSize t' leaf = 1 ∧ GetSize t' new_leaf = 0 ∧ separator = KeyAt t leaf 1) ∧
  ∃ t t',
    run (BPlusTree_new 1 4) (inserts [5]) = Some t ∧
    view t [1] = (1, [(1, true, [5], [RID 5], INVALID_PAGE_ID)]) ∧
    GetSize t 1 = GetMaxSize t 1 ∧
    Insert t 7 (RID 7) = Some (true, t') ∧
    view t' [3; 1; 2] =
      (3, [(3, false, [0; 0], [1; 2], 0);
           (1, true, [5], [RID 5], 2);
           (2, true, [7], [RID 7], INVALID_PAGE_ID)]) ∧
    GetValue t' 5 [] = Some (false, []) ∧
    ¬ root_leaf_split_as_specified t 7 (RID 7) 1.
Proof.
  split; [|split; [|split; [vm_compute; reflexivity|split]]].
  - intros t leaf Hfresh Hm. unfold leaf_split_as_specified.
    set (m := GetSize t leaf). set (mid := (m + 1) / 2).
    pose proof (split_leaf_spec t leaf Hfresh ltac:(lia)) as Hspec.
    cbv zeta in Hspec. fold m in Hspec. fold mid in Hspec.
    destruct (split_leaf leaf t) as [[t' new_leaf] separator].
    destruct Hspec as (_ & Hleaf & Hsz & Hmoved & Hszl & Hkept & Hn1 & Hn2 & _ & Hsep).
    split; [unfold mid; Z.div_mod_to_equations; lia|].
    split; [done|]. split; [done|]. split; [done|]. split; [done|].
    split; [intros; apply Hkept|].
    split; [done|]. split; [done|].
    by apply Hsep.
  - intros t key value leaf. apply Insert_full_root_leaf.
  - intros t leaf Hfresh Hm.
    pose proof (split_leaf_spec t leaf Hfresh ltac:(lia)) as Hspec.
    cbv zeta in Hspec. rewrite Hm in Hspec.
    change ((1 + 1) / 2) with 1 in Hspec. change (1 - 1) with 0 in Hspec.
    destruct (split_leaf leaf t) as [[t' new_leaf] separator].
    destruct Hspec as (_ & _ & Hsz & _ & Hszl & _ & _ & _ & Hsep & _).
    done.
  - eexists _, _. split; [vm_compute; reflexivity|].
    split; [vm_compute; reflexivity|].
    split; [vm_compute; reflexivity|].
    split; [vm_compute; reflexivity|].
    split; [vm_compute; reflexivity|].
    split; [vm_compute; reflexivity|].
    unfold root_leaf_split_as_specified. intros (t' & Hins & _ & _ & _ & _ & _ & _ & Hfirst & _).
    vm_compute in Hins. injection Hins as <-.
    vm_compute in Hfirst. discriminate Hfirst.
Qed.

Lemma C4_leaf_split_promotes_dead_slot_witness :
  (1 ≠ next_alloc_ four_keys_tree ∧ 2 ≤ GetSize four_keys_tree 1 ∧
   leaf_split_as_specified four_keys_tree 1) ∧
  ((∀ i, 0 ≤ i < GetSize four_keys_tree 1 → KeyAt four_keys_tree 1 i ≠ 5) ∧
   root_leaf_split_as_specified four_keys_tree 5 (RID 5) 1) ∧
  (1 ≠ next_alloc_ one_key_tree ∧ GetSize one_key_tree 1 = 1 ∧
   let '(t', new_leaf, separator) := split_leaf 1 one_key_tree in
   GetSize t' 1 = 1 ∧ GetSize t' new_leaf = 0 ∧ separator = KeyAt one_key_tree 1 1).
Proof.
  assert (1 ≠ next_alloc_ four_keys_tree) as H1 by (vm_compute; discriminate).
  assert (2 ≤ GetSize four_keys_tree 1) as H2 by (vm_compute; discriminate).
  assert (∀ i, 0 ≤ i < GetSize four_keys_tree 1 → KeyAt four_keys_tree 1 i ≠ 5) as H3.
  { intros i Hi. change (GetSize four_keys_tree 1) with 4 in Hi.
    assert (i = 0 ∨ i = 1 ∨ i = 2 ∨ i = 3) as [->|[->|[->| ->]]] by lia;
      vm_compute; discriminate. }
  assert (is_Some (pages_ four_keys_tree !! 1)) as H4 by (vm_compute; eauto).
  assert (1 ≠ next_alloc_ four_keys_tree + 1) as H5 by (vm_compute; discriminate).
  assert (1 ≠ next_alloc_ one_key_tree) as H6 by (vm_compute; discriminate).
  assert (GetSize one_key_tree 1 = 1) as H7 by (vm_compute; reflexivity).
  split; [|split].
  - split; [exact H1|]. split; [exact H2|].
    exact (proj1 C4_leaf_split_promotes_dead_slot _ 1 H1 H2).
  - split; [exact H3|].
    exact (proj1 (proj2 C4_leaf_split_promotes_dead_slot) four_keys_tree 5 (RID 5) 1
             eq_refl ltac:(discriminate) H4 eq_refl eq_refl H2 H3 H1 H5).
  - split; [exact H6|]. split; [exact H7|].
    exact (proj1 (proj2 (proj2 (proj2 C4_leaf_split_promotes_dead_slot))) one_key_tree 1 H6 H7).
Defined.

(** C5, as the specification words it ([internal_split_as_specified]):
    the page is cut at [mid = ceil(m/2)], the key there is promoted and its
    child heads the right sibling, unless the pending key is promoted
    itself with the pending child at the head of the right sibling.  This
    fails for a page of odd size when the pending key is below the key at
    [floor(m/2)].  With leaf_max_size 2 and internal_max_size 3, after 10,
    20, 30, 40, 25, 5 ([low_key_tree]) the call Insert(7) splits the leaf on
    page 1 and makes the full root (page 3: size 3, keys 20 and 30, children
    1, 2, 4) take the pair (10, page 5).  The code cuts the root at
    [floor(3/2) = 1]: it promotes 20, not the key 30 at [ceil(3/2) = 2] and
    not the pending key 10, and the right sibling (page 6) has child[1]
    (page 2) in slot 0 and the entry (30, page 4) in slot 1, where
    child[2] (page 4) alone is specified. *)
Lemma C5_internal_split_counterexample :
  ¬ internal_split_as_specified low_key_tree_leaf_split 3 10 5.
Proof.
  unfold internal_split_as_specified.
  assert ((split_internal 3 10 5 low_key_tree_leaf_split).1.1.1.2 = 20) as Hk
    by (vm_compute; reflexivity).
  assert (KeyAt low_key_tree_leaf_split 3
            ((GetSize low_key_tree_leaf_split 3 + 1) / 2) = 30) as Hmid
    by (vm_compute; reflexivity).
  destruct (split_internal 3 10 5 low_key_tree_leaf_split)
    as [[[[[t' page_id] tmp_key] ik] iv] small].
  cbn [fst snd] in Hk. subst tmp_key. cbv zeta. rewrite Hmid.
  intros [[(H & _)|(H & _)] _]; discriminate H.
Qed.

(** C5, amended, for [Insert] of unnamed/part_000: an internal page of size
    [m], at least 2, on another page than the one the pool hands out next,
    is cut at [mid = ceil(m/2)], or at [floor(m/2)] when the pending key is
    below the key at [ceil(m/2)].  The right sibling receives the entries
    [mid+1 .. m-1] at its slots from 1 on.  If the pending key is below the
    key at [ceil(m/2)] but not below the key at the cut, the pending key is
    promoted, the pending child becomes slot 0 of the right sibling and the
    entry at the cut is inserted into the old page; otherwise the key at the
    cut is promoted (moved, not copied), its child becomes slot 0 of the
    right sibling and the pending pair is inserted on its side.  If the keys
    of the page were strictly increasing and the pending key none of them,
    the promoted key is a live key of neither half afterwards. *)
Theorem C5_internal_split_amended t root insert_key insert_val :
  root ≠ next_alloc_ t → 2 ≤ GetSize t root →
  internal_split_as_built t root insert_key insert_val.
Proof.
  intros Hfresh Hm. unfold internal_split_as_built.
  pose proof (split_internal_spec t root insert_key insert_val Hfresh Hm) as Hspec.
  pose proof (split_internal_promoted_absent t root insert_key insert_val Hfresh Hm) as Habs.
  cbv zeta in Hspec.
  destruct (split_internal root insert_key insert_val t)
    as [[[[[t' page_id] tmp_key] ik] iv] small].
  destruct Hspec as (_ & Hsmall & Hmid & Hszr & Hszp & Hsr & Hcp & Hsel).
  split; [done|]. split; [done|].
  split. { unfold split_middle. destruct (split_small _ _ _); Z.div_mod_to_equations; lia. }
  split; [done|]. split; [done|].
  split; [intros; apply Hsr|]. split; [done|]. split; [done|].
  intros Hsorted Hnew. by apply Habs.
Qed.

Lemma C5_internal_split_amended_witness :
  3 ≠ next_alloc_ odd_tree_leaf_split ∧
  2 ≤ GetSize odd_tree_leaf_split 3 ∧
  internal_split_as_built odd_tree_leaf_split 3 25 5.
Proof.
  assert (3 ≠ next_alloc_ odd_tree_leaf_split) as H1 by (vm_compute; discriminate).
  assert (2 ≤ GetSize odd_tree_leaf_split 3) as H2 by (vm_compute; discriminate).
  split; [exact H1|]. split; [exact H2|].
  exact (C5_internal_split_amended odd_tree_leaf_split 3 25 5 H1 H2).
Defined.

(** C6: when a leaf borrows and both siblings are there, the donor is the
    larger one and the left one on a tie ([donor_as_specified]); a borrow
    from the right sibling appends its first entry to the leaf, moves its
    other entries down, lowers its size by one and sets the parent's key at
    the sibling's slot to the sibling's new first key
    ([borrow_from_right_as_specified]).  [Remove] in a tree whose root is
    the parent of the leaf performs this borrow when the deletion leaves the
    leaf under-full, the right sibling is the larger one and can spare an
    entry ([Remove_borrows_from_right]).  And scenario 4: with both maximal
    sizes 4, from the leaves [1, 2] and [3, 4, 5] under the root key 3,
    remove(1) yields the leaves [2, 3] and [4, 5] and the root key 4. *)
Theorem C6_leaf_borrow :
  (∀ t leaf root leaf_position prev next,
     prev ≠ leaf → next ≠ leaf → prev ≠ next →
     donor_as_specified t leaf root leaf_position prev next) ∧
  (∀ t leaf root leaf_position prev next,
     leaf ≠ next → leaf ≠ root → next ≠ root →
     match prev with
     | None => True
     | Some p => p ≠ leaf ∧ GetSize t p < GetSize t next
     end →
     0 ≤ GetSize t leaf → 0 ≤ leaf_position →
     borrow_from_right_as_specified t leaf root leaf_position prev next) ∧
  (∀ t key root leaf leaf_position prev next bigger_size,
     root_page_id_ t = root → root ≠ INVALID_PAGE_ID → is_Some (pages_ t !! root) →
     IsLeafPage t root = false →
     FetchPage t (descend_child t root key) = Some leaf → IsLeafPage t leaf = true →
     leaf_position = descend_index t root key - 1 →
     fetch_siblings t root leaf_position = Some (prev, Some next, bigger_size) →
     leaf ≠ root → leaf ≠ next → next ≠ root →
     match prev with
     | None => True
     | Some p => p ≠ leaf ∧ GetSize t p < GetSize t next
     end →
     0 ≤ GetSize (leaf_delete leaf key t) leaf < GetMinSize t leaf →
     GetMinSize t leaf ≤ GetSize t next - 1 →
     Remove_borrows_from_right t key leaf root leaf_position next) ∧
  (λ t, view t [3; 1; 2]) <$> Remove five_keys_tree 1 =
    Some (3, [(3, false, [0; 4], [1; 2], 0);
              (1, true, [2; 3], [RID 2; RID 3], 2);
              (2, true, [4; 5], [RID 4; RID 5], INVALID_PAGE_ID)]).
Proof.
  split; [|split; [|split; [|vm_compute; reflexivity]]].
  - intros. by apply leaf_steal_donor.
  - intros t leaf root leaf_position prev next Hln Hlr Hnr Hprev Hs Hp.
    apply leaf_steal_from_next; try done.
    unfold steal_from_prev. destruct prev as [p|]; [|done].
    destruct Hprev as [Hpl Hlt].
    rewrite !GetSize_IncreaseSize, !decide_False by done.
    apply Z.leb_gt. lia.
  - intros t key root leaf leaf_position prev next bigger_size.
    apply Remove_borrow_from_right.
Qed.

Lemma C6_leaf_borrow_witness :
  ((1 ≠ 2 ∧ 4 ≠ 2 ∧ 1 ≠ 4) ∧
   donor_as_specified (leaf_delete 2 3 three_leaves_tree) 2 3 1 1 4) ∧
  ((1 ≠ 2 ∧ 1 ≠ 3 ∧ 2 ≠ 3 ∧ True ∧
    0 ≤ GetSize (leaf_delete 1 1 five_keys_tree) 1 ∧ 0 ≤ 0) ∧
   borrow_from_right_as_specified (leaf_delete 1 1 five_keys_tree) 1 3 0 None 2) ∧
  ((fetch_siblings five_keys_tree 3 0 = Some (None, Some 2, 3) ∧
    0 ≤ GetSize (leaf_delete 1 1 five_keys_tree) 1 < GetMinSize five_keys_tree 1 ∧
    GetMinSize five_keys_tree 1 ≤ GetSize five_keys_tree 2 - 1) ∧
   Remove_borrows_from_right five_keys_tree 1 1 3 0 2).
Proof.
  assert (0 ≤ GetSize (leaf_delete 1 1 five_keys_tree) 1) as H by (vm_compute; discriminate).
  assert (fetch_siblings five_keys_tree 3 0 = Some (None, Some 2, 3)) as Hsib
    by (vm_compute; reflexivity).
  assert (0 ≤ GetSize (leaf_delete 1 1 five_keys_tree) 1 < GetMinSize five_keys_tree 1) as Hu
    by (vm_compute; split; [discriminate | reflexivity]).
  assert (GetMinSize five_keys_tree 1 ≤ GetSize five_keys_tree 2 - 1) as Hl
    by (vm_compute; discriminate).
  assert (is_Some (pages_ five_keys_tree !! 3)) as Hp by (vm_compute; eauto).
  split; [|split].
  - split; [repeat split; lia|].
    exact (proj1 C6_leaf_borrow (leaf_delete 2 3 three_leaves_tree) 2 3 1 1 4
             ltac:(lia) ltac:(lia) ltac:(lia)).
  - split; [repeat split; (done || lia)|].
    exact (proj1 (proj2 C6_leaf_borrow) (leaf_delete 1 1 five_keys_tree) 1 3 0 None 2
             ltac:(lia) ltac:(lia) ltac:(lia) I H ltac:(lia)).
  - split; [by repeat split|].
    exact (proj1 (proj2 (proj2 C6_leaf_borrow)) five_keys_tree 1 3 1 0 None 2 3
             eq_refl ltac:(discriminate) Hp eq_refl eq_refl eq_refl eq_refl Hsib
             ltac:(lia) ltac:(lia) ltac:(lia) I Hu Hl).
Defined.

(** C7: when the root is a leaf and the removed key was its last one, the
    header's root id is set to INVALID (and the tree reports empty); when the
    merge loop arrives at the root (no ancestor left) and removing the
    separator leaves the root with one child, the header's root id is set to
    that root's child[0], and it is left alone when more children remain.
    [Remove] in a tree whose root is the parent of the leaf, when the
    deletion leaves the leaf under-full and no sibling can lend, merges and
    ends as [root_collapse_as_specified].  And runs with both maximal sizes
    4: removing the only key; the two-level tree of scenario 2 after
    remove(5), remove(4); and a three-level tree whose merges reach the
    root. *)
Theorem C7_root_adjustment :
  (∀ t root key,
     root_page_id_ t = root → root ≠ INVALID_PAGE_ID →
     is_Some (pages_ t !! root) → IsLeafPage t root = true →
     GetSize t root = 1 → KeyAt t root 0 = key → 1 ≤ GetMaxSize t root →
     ∃ t', Remove t key = Some t' ∧ root_page_id_ t' = INVALID_PAGE_ID ∧
           IsEmpty t' = Some true) ∧
  (∀ position_set root delete_key key update_key t i,
     1 ≤ i < GetSize t root → KeyAt t root i = delete_key →
     ∃ t', Remove_merge_up [] position_set root delete_key key update_key t = Some t' ∧
           root_page_id_ t' =
             if GetSize t root =? 2 then ValueAt t root 0 else root_page_id_ t) ∧
  (∀ t key root leaf leaf_position prev next bigger_size,
     root_page_id_ t = root → root ≠ INVALID_PAGE_ID → is_Some (pages_ t !! root) →
     IsLeafPage t root = false →
     FetchPage t (descend_child t root key) = Some leaf → IsLeafPage t leaf = true →
     leaf_position = descend_index t root key - 1 →
     2 ≤ GetSize t root →
     fetch_siblings t root leaf_position = Some (prev, next, bigger_size) →
     leaf ≠ root → prev ≠ Some leaf → next ≠ Some leaf →
     prev ≠ Some root → next ≠ Some root →
     GetSize (leaf_delete leaf key t) leaf < GetMinSize t leaf →
     bigger_size - 1 < GetMinSize t leaf →
     root_collapse_as_specified t key root) ∧
  root_page_id_ <$> Remove one_key_tree 10 = Some INVALID_PAGE_ID ∧
  (λ t, view t [1]) <$> run five_keys_tree (removes [5; 4]) =
    Some (1, [(1, true, [1; 2; 3], [RID 1; RID 2; RID 3], INVALID_PAGE_ID)]) ∧
  (λ t, view t [8; 3; 7]) <$>
      run (BPlusTree_new 4 4) (inserts [1; 2; 3; 4; 5; 6; 7; 8; 9; 10; 11]) =
    Some (8, [(8, false, [0; 5], [3; 7], 0);
              (3, false, [0; 3], [1; 2], 0);
              (7, false, [0; 7; 9], [4; 5; 6], 0)]) ∧
  (λ t, view t [3])  <$>
      run (BPlusTree_new 4 4)
        (inserts [1; 2; 3; 4; 5; 6; 7; 8; 9; 10; 11] ++ removes [11; 10]) =
    Some (3, [(3, false, [0; 3; 5; 7], [1; 2; 4; 5], 0)]).
Proof.
  split; [|split; [|split; [|repeat split; vm_compute; reflexivity]]].
  - intros t root key. apply Remove_last_key.
  - intros position_set root delete_key key update_key t i Hi Hkey.
    by apply (Remove_merge_up_root position_set root delete_key key update_key t i).
  - intros t key root leaf leaf_position prev next bigger_size.
    apply Remove_merge_at_root.
Qed.

Lemma C7_root_adjustment_witness :
  ((root_page_id_ one_key_tree = 1 ∧ 1 ≠ INVALID_PAGE_ID ∧
    is_Some (pages_ one_key_tree !! 1) ∧ IsLeafPage one_key_tree 1 = true ∧
    GetSize one_key_tree 1 = 1 ∧ KeyAt one_key_tree 1 0 = 10 ∧
    1 ≤ GetMaxSize one_key_tree 1) ∧
   ∃ t', Remove one_key_tree 10 = Some t' ∧ root_page_id_ t' = INVALID_PAGE_ID ∧
         IsEmpty t' = Some true) ∧
  ((1 ≤ 1 < GetSize two_leaves_tree 3 ∧ KeyAt two_leaves_tree 3 1 = 3) ∧
   ∃ t', Remove_merge_up [] [] 3 3 4 1 two_leaves_tree = Some t' ∧
         root_page_id_ t' =
           if GetSize two_leaves_tree 3 =? 2 then ValueAt two_leaves_tree 3 0
           else root_page_id_ two_leaves_tree) ∧
  ((fetch_siblings two_leaves_tree 3 1 = Some (Some 1, None, 2) ∧
    GetSize (leaf_delete 2 4 two_leaves_tree) 2 < GetMinSize two_leaves_tree 2 ∧
    2 - 1 < GetMinSize two_leaves_tree 2) ∧
   root_collapse_as_specified two_leaves_tree 4 3).
Proof.
  assert (is_Some (pages_ one_key_tree !! 1)) as Hp by (vm_compute; eauto).
  assert (1 ≤ GetMaxSize one_key_tree 1) as Hm by (vm_compute; discriminate).
  assert (is_Some (pages_ two_leaves_tree !! 3)) as Hp2 by (vm_compute; eauto).
  assert (2 ≤ GetSize two_leaves_tree 3) as Hs2 by (vm_compute; discriminate).
  assert (1 ≤ 1 < GetSize two_leaves_tree 3) as Hi
    by (vm_compute; split; [discriminate | reflexivity]).
  assert (fetch_siblings two_leaves_tree 3 1 = Some (Some 1, None, 2)) as Hsib
    by (vm_compute; reflexivity).
  assert (GetSize (leaf_delete 2 4 two_leaves_tree) 2 < GetMinSize two_leaves_tree 2) as Hu
    by (vm_compute; reflexivity).
  assert (2 - 1 < GetMinSize two_leaves_tree 2) as Hb by (vm_compute; reflexivity).
  split; [|split].
  - split.
    + split; [reflexivity|]. split; [discriminate|]. split; [exact Hp|].
      split; [reflexivity|]. split; [reflexivity|]. split; [reflexivity | exact Hm].
    + exact (proj1 C7_root_adjustment one_key_tree 1 10 eq_refl ltac:(discriminate) Hp
               eq_refl eq_refl eq_refl Hm).
  - split; [split; [exact Hi | reflexivity]|].
    exact (proj1 (proj2 C7_root_adjustment) [] 3 3 4 1 two_leaves_tree 1 Hi eq_refl).
  - split; [by repeat split|].
    exact (proj1 (proj2 (proj2 C7_root_adjustment)) two_leaves_tree 4 3 2 1 (Some 1) None 2
             eq_refl ltac:(discriminate) Hp2 eq_refl eq_refl eq_refl eq_refl Hs2 Hsib
             ltac:(lia) ltac:(congruence) ltac:(congruence) ltac:(congruence)
             ltac:(congruence) Hu Hb).
Defined.

(** C8: "is_empty() returns true if and only if the tree holds no live
    keys".  The code does not keep this: with both maximal sizes 6, after
    inserting 1, 2, 3, 4, 5, 6, 0 and removing 6, 0, 1, 2, 3, 4, 5 no key is
    live and [IsEmpty] returns false (the root leaf still holds a copy of
    key 4); and after removing 6, 0, 1, 2, 3, 4, 4 instead, key 5 is live
    and [IsEmpty] returns true. *)
Theorem C8_is_empty_disagrees_with_live_keys :
  (∃ t, run (BPlusTree_new 6 6) all_removed_ops = Some t ∧
        live_keys all_removed_ops = [] ∧ IsEmpty t = Some false) ∧
  (∃ t, run (BPlusTree_new 6 6) one_left_ops = Some t ∧
        live_keys one_left_ops = [5] ∧ IsEmpty t = Some true).
Proof.
  split; eexists; (split; [vm_compute; reflexivity|]); split; vm_compute; reflexivity.
Qed.

(** * Further facts about the page store *)

Section bpt_more.
Implicit Types (t : BPlusTree) (p q : page_id_t).

(** *** The pool under the writes *)
Lemma dom_copy_slot dst i src j t :
  {[dst]} ∪ dom (pages_ (copy_slot dst i src j t)) = {[dst]} ∪ dom (pages_ t).
Proof.
  unfold copy_slot, SetValueAt, SetKeyAt. rewrite !dom_upd.
  by rewrite !(assoc_L (∪)), !(idemp_L (∪)).
Qed.

Lemma dom_upd_pool p f t : is_Some (pages_ t !! p) → dom (pages_ (upd p f t)) = dom (pages_ t).
Proof.
  intros Hp. rewrite dom_upd. apply subseteq_union_1_L, singleton_subseteq_l.
  by apply elem_of_dom.
Qed.

Lemma dom_shift_insert p lo key value t :
  is_Some (pages_ t !! p) →
  dom (pages_ (shift_insert p lo key value t)) = dom (pages_ t).
Proof.
  intros Hp.
  assert (∀ X : gset Z, {[p]} ∪ ({[p]} ∪ X) = {[p]} ∪ X) as Habsorb.
  { intros X. by rewrite (assoc_L (∪)), (idemp_L (∪)). }
  assert ({[p]} ∪ dom (pages_ (shift_insert p lo key value t)) = {[p]} ∪ dom (pages_ t)) as E.
  { unfold shift_insert. destruct (_ <=? _); [|done].
    unfold SetValueAt, SetKeyAt. rewrite !dom_upd, !Habsorb.
    rewrite (for_down_preserves (λ s, {[p]} ∪ dom (pages_ s))).
    - unfold IncreaseSize. by rewrite dom_upd, Habsorb.
    - intros k s. apply dom_copy_slot. }
  pose proof (pool_shift_insert p lo key value t p Hp) as Hp2.
  rewrite !subseteq_union_1_L in E; [done| |].
  - by apply singleton_subseteq_l, elem_of_dom.
  - by apply singleton_subseteq_l, elem_of_dom.
Qed.

Lemma FetchPage_dom t t' q : dom (pages_ t') = dom (pages_ t) → FetchPage t' q = FetchPage t q.
Proof.
  intros E. unfold FetchPage.
  destruct (pages_ t !! q) eqn:H1; destruct (pages_ t' !! q) eqn:H2; try done.
  - apply not_elem_of_dom in H2. rewrite E in H2. apply not_elem_of_dom in H2. congruence.
  - apply not_elem_of_dom in H1. rewrite <- E in H1. apply not_elem_of_dom in H1. congruence.
Qed.

(** *** The leaf scan after the sorted insertion *)

(** The scan of a page for another key than the one inserted stops at the
    slot the key has moved to. *)
Lemma leaf_find_shift_insert p key value t key' :
  0 ≤ GetSize t p → key' ≠ key →
  let t' := shift_insert p 0 key value t in
  (leaf_find t' p key' <? GetSize t' p) = (leaf_find t p key' <? GetSize t p) ∧
  (leaf_find t p key' < GetSize t p →
   ValueAt t' p (leaf_find t' p key') = ValueAt t p (leaf_find t p key')).
Proof.
  intros Hs Hne t'.
  destruct (shift_insert_pos p 0 key value t ltac:(lia))
    as (i & Hi & _ & _ & Hsz & Hat & Hlow & Hhigh & _).
  fold t' in Hsz, Hat, Hlow, Hhigh.
  set (s := GetSize t p) in *.
  unfold leaf_find. rewrite Hsz. fold s.
  set (Q := λ k, comparator_ key' (KeyAt t p k) =? 0).
  set (Q' := λ k, comparator_ key' (KeyAt t' p k) =? 0).
  destruct (scan_spec 0 s Q Hs) as (Hr & Hbefore & Hfound).
  destruct (scan_spec 0 (s + 1) Q' ltac:(lia)) as (Hr' & Hbefore' & Hfound').
  set (r := scan 0 s Q) in *. set (r' := scan 0 (s + 1) Q') in *.
  (* the keys of the new page in terms of the old one *)
  assert (∀ k, k < i → Q' k = Q k) as Hq1.
  { intros k Hk. unfold Q', Q. by rewrite !KeyAt_slot_at, Hlow. }
  assert (Q' i = false) as Hq2.
  { unfold Q'. rewrite comparator_eq, KeyAt_slot_at, Hat. by apply bool_decide_eq_false_2. }
  assert (∀ k, i < k ≤ s → Q' k = Q (k - 1)) as Hq3.
  { intros k Hk. unfold Q', Q. by rewrite !KeyAt_slot_at, Hhigh. }
  set (f := λ j, if decide (j < i) then j else j + 1).
  assert (r' = if decide (r < s) then f r else s + 1) as Hr'eq.
  { case_decide as Hlt.
    - assert (Q' (f r) = true) as Hfr.
      { unfold f. case_decide.
        - rewrite Hq1 by done. by apply Hfound.
        - rewrite Hq3 by lia. replace (r + 1 - 1) with r by lia. by apply Hfound. }
      assert (0 ≤ f r ≤ s) as Hfs by (unfold f; case_decide; lia).
      destruct (Z.lt_trichotomy r' (f r)) as [Hl|[E|Hg]]; [|done|].
      + exfalso. assert (Q' r' = true) as Hq by (apply Hfound'; lia).
        destruct (Z.lt_trichotomy r' i) as [?|[?|?]].
        * rewrite Hq1 in Hq by done. rewrite Hbefore in Hq; [done|].
          unfold f in Hl. case_decide; lia.
        * subst r'. congruence.
        * rewrite Hq3 in Hq by lia. rewrite Hbefore in Hq; [done|].
          unfold f in Hl. case_decide; lia.
      + exfalso. rewrite Hbefore' in Hfr by lia. done.
    - destruct (decide (r' < s + 1)) as [Hl|]; [|lia]. exfalso.
      assert (Q' r' = true) as Hq by (by apply Hfound').
      destruct (Z.lt_trichotomy r' i) as [?|[?|?]].
      * rewrite Hq1 in Hq by done. rewrite Hbefore in Hq; [done | lia].
      * subst r'. congruence.
      * rewrite Hq3 in Hq by lia. rewrite Hbefore in Hq; [done | lia]. }
  split.
  - rewrite Hr'eq. case_decide as Hlt.
    + rewrite (proj2 (Z.ltb_lt r s)) by done. apply Z.ltb_lt. unfold f.
      destruct (decide (r < i)); lia.
    + rewrite (proj2 (Z.ltb_ge r s)) by lia. apply Z.ltb_ge. lia.
  - intros Hlt. rewrite Hr'eq. rewrite decide_True by done.
    rewrite !ValueAt_slot_at. unfold f. destruct (decide (r < i)).
    + by rewrite Hlow.
    + rewrite Hhigh by lia. by replace (r + 1 - 1) with r by lia.
Qed.

Lemma leaf_find_ext t t' p key :
  GetSize t' p = GetSize t p → (∀ j, slot_at t' p j = slot_at t p j) →
  leaf_find t' p key = leaf_find t p key.
Proof.
  intros Hs Hsl. unfold leaf_find. rewrite Hs. apply scan_ext.
  intros k. by rewrite !KeyAt_slot_at, Hsl.
Qed.

(** A write to one leaf that keeps what the scan of this leaf for [key]
    finds does not change the lookup of [key]. *)
Lemma GetValue_loop_leaf_write fuel t t' root key result leaf :
  IsLeafPage t leaf = true →
  (∀ q, IsLeafPage t' q = IsLeafPage t q) →
  (∀ q, q ≠ leaf → GetSize t' q = GetSize t q ∧ ∀ j, slot_at t' q j = slot_at t q j) →
  dom (pages_ t') = dom (pages_ t) →
  (leaf_find t' leaf key <? GetSize t' leaf) = (leaf_find t leaf key <? GetSize t leaf) →
  (leaf_find t leaf key < GetSize t leaf →
   ValueAt t' leaf (leaf_find t' leaf key) = ValueAt t leaf (leaf_find t leaf key)) →
  GetValue_loop fuel t' root key result = GetValue_loop fuel t root key result.
Proof.
  intros Hleaf Hty Hoth Hdom Hfound Hval.
  revert root. induction fuel as [|fuel IH]; intros root; simpl; [done|].
  rewrite Hty. destruct (IsLeafPage t root) eqn:Hrl.
  - destruct (decide (root = leaf)) as [->|Hne].
    + rewrite Hfound. destruct (Z.ltb_spec (leaf_find t leaf key) (GetSize t leaf)); [|done].
      by rewrite Hval.
    + destruct (Hoth root Hne) as [Hs Hsl].
      rewrite (leaf_find_ext t t' root key Hs Hsl), Hs.
      by rewrite !ValueAt_slot_at, Hsl.
  - assert (root ≠ leaf) as Hne by (intros ->; congruence).
    destruct (Hoth root Hne) as [Hs Hsl].
    rewrite (descend_child_ext t t' root key Hs Hsl).
    rewrite (FetchPage_dom t t' _ Hdom).
    destruct (FetchPage t (descend_child t root key)) as [child|]; [|done].
    cbn [mbind option_bind]. apply IH.
Qed.

(** *** The leaf after "delete key" *)

Lemma leaf_find_nonneg t p key : 0 ≤ leaf_find t p key.
Proof.
  unfold leaf_find, scan.
  destruct (scan_from_spec (Z.to_nat (GetSize t p - 0)) 0
              (λ i, comparator_ key (KeyAt t p i) =? 0)) as ((H & _) & _). exact H.
Qed.

Lemma leaf_delete_absent leaf key t :
  (leaf_find t leaf key <? GetSize t leaf) = false → leaf_delete leaf key t = t.
Proof. intros H. unfold leaf_delete. by rewrite H. Qed.

(** The slot of the first occurrence of the key is closed. *)
Lemma leaf_delete_pos leaf key t :
  let i := leaf_find t leaf key in
  let s := GetSize t leaf in
  let t' := leaf_delete leaf key t in
  i < s →
  0 ≤ i ∧ KeyAt t leaf i = key ∧
  GetSize t' leaf = s - 1 ∧
  (∀ j, j < i → slot_at t' leaf j = slot_at t leaf j) ∧
  (∀ j, i ≤ j < s - 1 → slot_at t' leaf j = slot_at t leaf (j + 1)) ∧
  (∀ q, IsLeafPage t' q = IsLeafPage t q).
Proof.
  intros i s t' His.
  pose proof (leaf_find_nonneg t leaf key) as Hi0. fold i in Hi0.
  assert (0 ≤ s) as Hs0 by lia.
  assert (KeyAt t leaf i = key) as Hk.
  { unfold i, leaf_find in *. fold s in His |- *.
    destruct (scan_spec 0 s (λ i, comparator_ key (KeyAt t leaf i) =? 0) Hs0)
      as (_ & _ & Hat).
    specialize (Hat His). rewrite comparator_eq in Hat.
    by apply bool_decide_eq_true in Hat. }
  subst t'. unfold leaf_delete. fold i s.
  rewrite (proj2 (Z.ltb_lt i s)) by done.
  destruct (shift_left_loop leaf (i + 1) s t) as (Hh & Hmv & Hrest & _); [lia|].
  set (t1 := for_up (i + 1) s _ t) in *.
  split; [done|]. split; [done|].
  split. { rewrite GetSize_IncreaseSize, decide_True by done.
           rewrite !GetSize_alt, Hh. rewrite <- GetSize_alt. fold s. lia. }
  split. { intros j Hj. rewrite slot_at_IncreaseSize. apply Hrest. lia. }
  split. { intros j Hj. rewrite slot_at_IncreaseSize. apply Hmv. lia. }
  intros q. unfold IsLeafPage.
  change (page_type_ (page ?s ?q)) with (hdr s q).1.1.1.
  rewrite hdr_IncreaseSize, Hh. case_decide; [|done].
  by destruct (hdr t q) as [[[? ?] ?] ?].
Qed.

Lemma dom_leaf_delete leaf key t :
  is_Some (pages_ t !! leaf) → dom (pages_ (leaf_delete leaf key t)) = dom (pages_ t).
Proof.
  intros Hp. unfold leaf_delete. destruct (_ <? _); [|done].
  unfold IncreaseSize. rewrite dom_upd_pool.
  - assert (∀ s, {[leaf]} ∪ dom (pages_ s) = {[leaf]} ∪ dom (pages_ t) →
                 is_Some (pages_ s !! leaf) → dom (pages_ s) = dom (pages_ t)) as Hin.
    { intros s E Hs. rewrite !subseteq_union_1_L in E; [done| |].
      - by apply singleton_subseteq_l, elem_of_dom.
      - by apply singleton_subseteq_l, elem_of_dom. }
    apply Hin.
    + apply (for_up_preserves (λ s, {[leaf]} ∪ dom (pages_ s))).
      intros k s. apply dom_copy_slot.
    + apply pool_for_up; [|done]. intros. by apply pool_copy_slot.
  - apply pool_for_up; [|done]. intros. by apply pool_copy_slot.
Qed.

(** The scan of the leaf for another key than the one deleted stops at the
    slot the key has moved to. *)
Lemma leaf_find_leaf_delete leaf key t key' :
  key' ≠ key →
  let t' := leaf_delete leaf key t in
  (leaf_find t' leaf key' <? GetSize t' leaf) = (leaf_find t leaf key' <? GetSize t leaf) ∧
  (leaf_find t leaf key' < GetSize t leaf →
   ValueAt t' leaf (leaf_find t' leaf key') = ValueAt t leaf (leaf_find t leaf key')).
Proof.
  intros Hne t'.
  destruct (Z.ltb_spec (leaf_find t leaf key) (GetSize t leaf)) as [His|His].
  2: { subst t'. rewrite leaf_delete_absent by (by apply Z.ltb_ge). done. }
  destruct (leaf_delete_pos leaf key t His) as (Hi0 & Hk & Hsz & Hlow & Hhigh & _).
  fold t' in Hsz, Hlow, Hhigh.
  set (i := leaf_find t leaf key) in *. set (s := GetSize t leaf) in *.
  unfold leaf_find. rewrite Hsz. fold s.
  set (Q := λ k, comparator_ key' (KeyAt t leaf k) =? 0).
  set (Q' := λ k, comparator_ key' (KeyAt t' leaf k) =? 0).
  destruct (scan_spec 0 s Q ltac:(lia)) as (Hr & Hbefore & Hfound).
  destruct (scan_spec 0 (s - 1) Q' ltac:(lia)) as (Hr' & Hbefore' & Hfound').
  set (r := scan 0 s Q) in *. set (r' := scan 0 (s - 1) Q') in *.
  assert (∀ k, k < i → Q' k = Q k) as Hq1.
  { intros k Hk'. unfold Q', Q. by rewrite !KeyAt_slot_at, Hlow. }
  assert (Q i = false) as Hq2.
  { unfold Q. rewrite comparator_eq, Hk. by apply bool_decide_eq_false_2. }
  assert (∀ k, i ≤ k < s - 1 → Q' k = Q (k + 1)) as Hq3.
  { intros k Hk'. unfold Q', Q. by rewrite !KeyAt_slot_at, Hhigh. }
  set (f := λ j, if decide (j < i) then j else j - 1).
  assert (r < s → r ≠ i) as Hri.
  { intros Hlt ->. rewrite Hfound in Hq2 by done. done. }
  assert (r' = if decide (r < s) then f r else s - 1) as Hr'eq.
  { destruct (decide (r < s)) as [Hlt|Hlt].
    - specialize (Hri Hlt).
      assert (0 ≤ f r < s - 1) as Hfs by (unfold f; destruct (decide (r < i)); lia).
      assert (Q' (f r) = true) as Hfr.
      { unfold f in *. destruct (decide (r < i)).
        - rewrite Hq1 by done. by apply Hfound.
        - rewrite Hq3 by lia. replace (r - 1 + 1) with r by lia. by apply Hfound. }
      destruct (Z.lt_trichotomy r' (f r)) as [Hl|[E|Hg]]; [|done|].
      + exfalso. assert (Q' r' = true) as Hq by (apply Hfound'; lia).
        destruct (decide (r' < i)).
        * rewrite Hq1 in Hq by done. rewrite Hbefore in Hq; [done|].
          unfold f in Hl. destruct (decide (r < i)); lia.
        * rewrite Hq3 in Hq by lia. rewrite Hbefore in Hq; [done|].
          unfold f in Hl. destruct (decide (r < i)); lia.
      + exfalso. rewrite Hbefore' in Hfr by lia. done.
    - destruct (decide (r' < s - 1)) as [Hl|]; [|lia]. exfalso.
      assert (Q' r' = true) as Hq by (by apply Hfound').
      destruct (decide (r' < i)).
      * rewrite Hq1 in Hq by done. rewrite Hbefore in Hq; [done | lia].
      * rewrite Hq3 in Hq by lia. rewrite Hbefore in Hq; [done | lia]. }
  split.
  - rewrite Hr'eq. destruct (decide (r < s)) as [Hlt|Hlt].
    + specialize (Hri Hlt).
      rewrite (proj2 (Z.ltb_lt r s)) by done. apply Z.ltb_lt. unfold f.
      destruct (decide (r < i)); lia.
    + rewrite (proj2 (Z.ltb_ge r s)) by lia. apply Z.ltb_ge. lia.
  - intros Hlt. specialize (Hri Hlt). rewrite Hr'eq. rewrite decide_True by done.
    rewrite !ValueAt_slot_at. unfold f. destruct (decide (r < i)).
    + by rewrite Hlow.
    + rewrite Hhigh by lia. by replace (r - 1 + 1) with r by lia.
Qed.

(** A key that occurs once in the leaf is gone after "delete key". *)
Lemma leaf_find_deleted leaf key t :
  (∀ i j, 0 ≤ i < j → j < GetSize t leaf → KeyAt t leaf i ≠ KeyAt t leaf j) →
  let t' := leaf_delete leaf key t in
  (leaf_find t' leaf key <? GetSize t' leaf) = false.
Proof.
  intros Hdist t'.
  destruct (Z.ltb_spec (leaf_find t leaf key) (GetSize t leaf)) as [His|His].
  2: { subst t'. rewrite leaf_delete_absent by (by apply Z.ltb_ge). by apply Z.ltb_ge. }
  destruct (leaf_delete_pos leaf key t His) as (Hi0 & Hk & Hsz & Hlow & Hhigh & _).
  fold t' in Hsz, Hlow, Hhigh.
  set (i := leaf_find t leaf key) in *.
  apply leaf_find_absent. rewrite Hsz. intros j Hj Heq.
  rewrite KeyAt_slot_at in Heq.
  destruct (decide (j < i)).
  - rewrite Hlow in Heq by done. rewrite <- KeyAt_slot_at in Heq.
    apply (Hdist j i); [lia | lia | congruence].
  - rewrite Hhigh in Heq by lia. rewrite <- KeyAt_slot_at in Heq.
    apply (Hdist i (j + 1)); [lia | lia | congruence].
Qed.

Lemma GetValue_root_leaf t key result root :
  root_page_id_ t ≠ INVALID_PAGE_ID →
  FetchPage t (root_page_id_ t) = Some root → IsLeafPage t root = true →
  GetValue t key result =
    Some (if leaf_find t root key <? GetSize t root
          then (true, result ++ [ValueAt t root (leaf_find t root key)])
          else (false, result)).
Proof.
  intros Hvalid Hroot Hleaf. unfold GetValue.
  rewrite (proj2 (Z.eqb_neq _ _)) by done. rewrite Hroot. cbn [mbind option_bind].
  unfold descent_fuel. cbn [GetValue_loop]. rewrite Hleaf. by destruct (_ <? _).
Qed.

(** *** A key the tree does not hold *)

(** The read descent of [GetValue] and the write descent of [Remove] end on
    the same leaf. *)
Lemma GetValue_loop_Remove_descend fuel t root key result b result' ws ps leaf ws' ps' :
  GetValue_loop fuel t root key result = Some (b, result') →
  Remove_descend fuel t root key (root :: ws) ps = Some (leaf :: ws', ps') →
  b = (leaf_find t leaf key <? GetSize t leaf).
Proof.
  revert root ws ps. induction fuel as [|fuel IH]; intros root ws ps; simpl; [done|].
  destruct (IsLeafPage t root) eqn:Hleaf.
  - intros Hget [= <- <- <-].
    destruct (leaf_find t root key <? GetSize t root); by simplify_eq.
  - destruct (FetchPage t (descend_child t root key)) as [child|] eqn:Hfetch; simpl; [|done].
    intros Hget Hd. by apply (IH child (root :: ws) _ Hget Hd).
Qed.

(** *** Begin *)

Lemma Begin_loop_leaf fuel t root p :
  is_Some (pages_ t !! root) →
  Begin_loop fuel t root root = Some p →
  IsLeafPage t p = true ∧ is_Some (pages_ t !! p).
Proof.
  revert root. induction fuel as [|fuel IH]; intros root Hpool; simpl; [done|].
  destruct (IsLeafPage t root) eqn:Hleaf.
  - by intros [= <-].
  - destruct (FetchPage t (ValueAt t root 0)) as [child|] eqn:Hfetch; [|done].
    cbn [mbind option_bind]. apply FetchPage_inv in Hfetch as [-> Hcp].
    by apply IH.
Qed.

Lemma Begin_loop_ext fuel t t' root res :
  (∀ q, IsLeafPage t' q = IsLeafPage t q) →
  (∀ q j, IsLeafPage t q = false → slot_at t' q j = slot_at t q j) →
  dom (pages_ t') = dom (pages_ t) →
  Begin_loop fuel t' root res = Begin_loop fuel t root res.
Proof.
  intros Hty Hsl Hdom. revert root res.
  induction fuel as [|fuel IH]; intros root res; simpl; [done|].
  rewrite Hty. destruct (IsLeafPage t root) eqn:Hleaf; [done|].
  rewrite !ValueAt_slot_at, Hsl by done.
  rewrite (FetchPage_dom t t' _ Hdom).
  destruct (FetchPage t _) as [child|]; [|done]. cbn [mbind option_bind]. apply IH.
Qed.

(** *** The order of the keys of a leaf *)

Lemma shift_insert_sorted p key value t :
  0 ≤ GetSize t p →
  (∀ i, 0 ≤ i < GetSize t p → KeyAt t p i ≠ key) →
  (∀ i j, 0 ≤ i < j → j < GetSize t p → KeyAt t p i < KeyAt t p j) →
  let t' := shift_insert p 0 key value t in
  GetSize t' p = GetSize t p + 1 ∧
  (∀ i j, 0 ≤ i < j → j < GetSize t' p → KeyAt t' p i < KeyAt t' p j).
Proof.
  intros Hs Habs Hsorted t'.
  destruct (shift_insert_pos p 0 key value t ltac:(lia))
    as (i & Hi & Hbelow & Habove & Hsz & Hat & Hlow & Hhigh & _).
  fold t' in Hsz, Hat, Hlow, Hhigh. split; [done|].
  rewrite Hsz.
  assert (∀ j, i ≤ j < GetSize t p → key < KeyAt t p j) as Habove'.
  { intros j Hj. pose proof (Habs i ltac:(lia)). specialize (Habove ltac:(lia)).
    destruct (decide (j = i)) as [->|]; [lia|].
    pose proof (Hsorted i j ltac:(lia) ltac:(lia)). lia. }
  assert (∀ j, 0 ≤ j < GetSize t p + 1 →
            KeyAt t' p j = if decide (j < i) then KeyAt t p j
                           else if decide (j = i) then key else KeyAt t p (j - 1)) as Hkeys.
  { intros j Hj. rewrite !KeyAt_slot_at.
    destruct (decide (j < i)); [by rewrite Hlow|].
    destruct (decide (j = i)) as [->|]; [by rewrite Hat|].
    by rewrite Hhigh by lia. }
  intros a b Hab Hb. rewrite !Hkeys by lia.
  destruct (decide (a < i)), (decide (b < i)); try lia.
  - apply Hsorted; lia.
  - destruct (decide (b = i)).
    + apply Hbelow. lia.
    + pose proof (Hbelow a ltac:(lia)). pose proof (Habove' (b - 1) ltac:(lia)). lia.
  - destruct (decide (a = i)), (decide (b = i)); try lia.
    + apply Habove'. lia.
    + apply Hsorted; lia.
Qed.

(** *** The lookups after the split of a root leaf *)

(** The scan of a page for the key just inserted stops at the new pair. *)
Lemma leaf_find_shift_insert_self p key value t :
  0 ≤ GetSize t p →
  let t' := shift_insert p 0 key value t in
  leaf_find t' p key < GetSize t' p ∧ ValueAt t' p (leaf_find t' p key) = value.
Proof.
  intros Hs t'.
  destruct (shift_insert_pos p 0 key value t ltac:(lia))
    as (i & Hi & Hbelow & _ & Hsz & Hat & Hlow & _ & _).
  fold t' in Hsz, Hat, Hlow.
  assert (leaf_find t' p key = i) as Hfind.
  { unfold leaf_find. rewrite Hsz.
    set (Q := λ k, comparator_ key (KeyAt t' p k) =? 0).
    destruct (scan_spec 0 (GetSize t p + 1) Q ltac:(lia)) as (Hr & Hbefore & Hfound).
    set (r := scan 0 (GetSize t p + 1) Q) in *.
    assert (Q i = true) as HQi.
    { unfold Q. rewrite comparator_eq, KeyAt_slot_at, Hat.
      by rewrite bool_decide_eq_true_2. }
    destruct (Z.lt_trichotomy r i) as [Hlt|[E|Hgt]]; [|done|].
    - exfalso. specialize (Hfound ltac:(lia)). unfold Q in Hfound.
      rewrite comparator_eq in Hfound. apply bool_decide_eq_true in Hfound.
      rewrite KeyAt_slot_at, Hlow in Hfound by lia.
      rewrite <- KeyAt_slot_at in Hfound.
      specialize (Hbelow r ltac:(lia)). lia.
    - exfalso. rewrite Hbefore in HQi by lia. done. }
  rewrite Hfind, Hsz. split; [lia|]. by rewrite ValueAt_slot_at, Hat.
Qed.

(** A page that holds a window of the slots of another page, and with it
    every occurrence of the key, answers the scan for the key as the other
    page does. *)
Lemma leaf_find_window t t' p p' key off :
  0 ≤ GetSize t p → 0 ≤ GetSize t' p' →
  0 ≤ off → off + GetSize t' p' ≤ GetSize t p →
  (∀ j, 0 ≤ j < GetSize t' p' → slot_at t' p' j = slot_at t p (off + j)) →
  (∀ j, 0 ≤ j < GetSize t p → KeyAt t p j = key → off ≤ j < off + GetSize t' p') →
  (leaf_find t' p' key <? GetSize t' p') = (leaf_find t p key <? GetSize t p) ∧
  (leaf_find t p key < GetSize t p →
   ValueAt t' p' (leaf_find t' p' key) = ValueAt t p (leaf_find t p key)).
Proof.
  intros Hs Hs' Hoff Hfit Hwin Hocc.
  unfold leaf_find.
  set (Q := λ k, comparator_ key (KeyAt t p k) =? 0).
  set (Q' := λ k, comparator_ key (KeyAt t' p' k) =? 0).
  destruct (scan_spec 0 _ Q Hs) as (Hr & Hbefore & Hfound).
  destruct (scan_spec 0 _ Q' Hs') as (Hr' & Hbefore' & Hfound').
  set (r := scan 0 (GetSize t p) Q) in *. set (r' := scan 0 (GetSize t' p') Q') in *.
  assert (∀ j, 0 ≤ j < GetSize t' p' → Q' j = Q (off + j)) as HQ.
  { intros j Hj. unfold Q, Q'. by rewrite !KeyAt_slot_at, Hwin. }
  assert (∀ j, 0 ≤ j < GetSize t p → Q j = true → off ≤ j < off + GetSize t' p') as Hocc'.
  { intros j Hj Hq. apply Hocc; [done|]. unfold Q in Hq. rewrite comparator_eq in Hq.
    by apply bool_decide_eq_true in Hq. }
  assert (r' = if decide (r < GetSize t p) then r - off else GetSize t' p') as Hr'eq.
  { destruct (decide (r < GetSize t p)) as [Hlt|Hlt].
    - pose proof (Hocc' r ltac:(lia) (Hfound Hlt)) as Hwr.
      assert (Q' (r - off) = true) as Hq.
      { rewrite HQ by lia. replace (off + (r - off)) with r by lia. by apply Hfound. }
      destruct (Z.lt_trichotomy r' (r - off)) as [Hl|[E|Hg]]; [|done|].
      + exfalso. assert (Q' r' = true) as Hq' by (apply Hfound'; lia).
        rewrite HQ in Hq' by lia. rewrite Hbefore in Hq' by lia. done.
      + exfalso. rewrite Hbefore' in Hq by lia. done.
    - destruct (decide (r' < GetSize t' p')) as [Hl|]; [|lia]. exfalso.
      assert (Q' r' = true) as Hq' by (by apply Hfound').
      rewrite HQ in Hq' by lia. rewrite Hbefore in Hq' by lia. done. }
  split.
  - rewrite Hr'eq. destruct (decide (r < GetSize t p)) as [Hlt|Hlt].
    + pose proof (Hocc' r ltac:(lia) (Hfound Hlt)).
      rewrite (proj2 (Z.ltb_lt r _)) by done. apply Z.ltb_lt. lia.
    + rewrite (proj2 (Z.ltb_ge r _)) by lia. apply Z.ltb_ge. lia.
  - intros Hlt. pose proof (Hocc' r ltac:(lia) (Hfound Hlt)).
    rewrite Hr'eq, decide_True by done.
    rewrite !ValueAt_slot_at, Hwin by lia. by replace (off + (r - off)) with r by lia.
Qed.

Lemma pool_NewPageGuarded t q :
  q = next_alloc_ t ∨ is_Some (pages_ t !! q) → is_Some (pages_ (NewPageGuarded t).2 !! q).
Proof.
  intros H. cbn. destruct (decide (q = next_alloc_ t)) as [->|Hne].
  - rewrite lookup_insert_eq. eauto.
  - rewrite lookup_insert_ne by done. by destruct H.
Qed.

Lemma pool_split_leaf leaf t q :
  q = next_alloc_ t ∨ is_Some (pages_ t !! q) →
  is_Some (pages_ (split_leaf leaf t).1.1 !! q).
Proof.
  intros H. unfold split_leaf. cbn [NewPageGuarded fst snd].
  change (mkTree _ _ _ _ _) with (NewPageGuarded t).2.
  do 3 apply pool_upd. apply pool_for_up; [intros; by apply pool_copy_slot|].
  do 2 apply pool_upd. by apply pool_NewPageGuarded.
Qed.

Lemma pool_root_split tmp_key page_id t q :
  q = next_alloc_ t ∨ is_Some (pages_ t !! q) →
  is_Some (pages_ (root_split tmp_key page_id t) !! q).
Proof.
  intros H. unfold root_split. cbn [NewPageGuarded fst snd].
  change (mkTree _ _ _ _ _) with (NewPageGuarded t).2.
  do 3 apply pool_upd. change (pages_ (set_root ?r ?s)) with (pages_ s).
  do 2 apply pool_upd. by apply pool_NewPageGuarded.
Qed.

(** The split of a root leaf followed by the sorted insertion into one of
    the two leaves [leaf']: the first leaf, the leaf list and every
    lookup. *)
Lemma root_leaf_split_lookups t key value leaf leaf' :
  root_page_id_ t = leaf → leaf ≠ INVALID_PAGE_ID →
  is_Some (pages_ t !! leaf) → IsLeafPage t leaf = true →
  2 ≤ GetSize t leaf →
  (∀ i, 0 ≤ i < GetSize t leaf → KeyAt t leaf i ≠ key) →
  (∀ i j, 0 ≤ i < j → j < GetSize t leaf → KeyAt t leaf i < KeyAt t leaf j) →
  leaf ≠ next_alloc_ t → leaf ≠ next_alloc_ t + 1 →
  next_alloc_ t + 1 ≠ INVALID_PAGE_ID →
  leaf' = leaf ∨ leaf' = next_alloc_ t →
  let '(t1, page_id, tmp_key) := split_leaf leaf t in
  let t2 := root_split tmp_key page_id t1 in
  let t3 := shift_insert leaf' 0 key value t2 in
  page_id = next_alloc_ t ∧ tmp_key = KeyAt t leaf ((GetSize t leaf + 1) / 2) ∧
  IsLeafPage t2 leaf' = true ∧
  Begin t3 = Some leaf ∧
  GetNextPageId t3 leaf = next_alloc_ t ∧
  GetValue t3 key [] =
    Some (if bool_decide ((if bool_decide (key < tmp_key) then leaf else page_id) = leaf')
          then (true, [value]) else (false, [])) ∧
  ∀ key' result, key' ≠ key → GetValue t3 key' result = GetValue t key' result.
Proof.
  intros Hroot Hvalid Hpool Hleaf Hm Habs Hsorted Hf1 Hf2 Hf3 Hleaf'.
  set (new_leaf := next_alloc_ t) in *. set (new_root := next_alloc_ t + 1) in *.
  set (mid := (GetSize t leaf + 1) / 2).
  assert (FetchPage t (root_page_id_ t) = Some leaf) as Hfetch0.
  { rewrite Hroot. by apply FetchPage_Some. }
  assert (root_page_id_ t ≠ INVALID_PAGE_ID) as Hvalid0 by (by rewrite Hroot).
  pose proof (split_leaf_spec t leaf Hf1 ltac:(lia)) as Hspec.
  pose proof (split_leaf_frame t leaf Hf1) as Hframe.
  pose proof (pool_split_leaf leaf t) as Hpool1.
  cbv zeta in Hspec, Hframe. fold mid in Hspec.
  destruct (split_leaf leaf t) as [[t1 page_id] tmp_key]. cbn [fst] in Hframe, Hpool1.
  destruct Hspec as (-> & Hl1 & Hsz1 & Hmoved & Hszl & Hkept & Hn1 & Hn2 & Htk & Hsep).
  destruct Hframe as (Hna & Hr1 & Him & Hl1l).
  fold new_leaf in Hl1, Hsz1, Hmoved, Hn1, Hn2, Hsep, Hpool1 |- *.
  destruct (root_split_spec tmp_key new_leaf t1) as (Hr2 & Hh2 & Hs20 & Hs21 & Hoth2).
  pose proof (pool_root_split tmp_key new_leaf t1) as Hpool2.
  rewrite Hna in Hr2, Hh2, Hs20, Hs21, Hoth2, Hpool2.
  fold new_root in Hr2, Hh2, Hs20, Hs21, Hoth2, Hpool2.
  cbv zeta.
  set (t2 := root_split tmp_key new_leaf t1) in *.
  assert (leaf' ≠ new_root) as Hl'r.
  { unfold new_root. destruct Hleaf' as [->| ->]; [done | unfold new_leaf; lia]. }
  assert (leaf ≠ new_root) as Hlr by (unfold new_root; lia).
  assert (new_leaf ≠ new_root) as Hnr by (unfold new_root, new_leaf; lia).
  assert (IsLeafPage t2 leaf = true) as Hl2l.
  { rewrite (IsLeafPage_hdr t2 t1) by (by apply Hoth2). by rewrite Hl1l. }
  assert (IsLeafPage t2 new_leaf = true) as Hl2n.
  { by rewrite (IsLeafPage_hdr t2 t1) by (by apply Hoth2). }
  assert (IsLeafPage t2 leaf' = true) as Hl2'.
  { by destruct Hleaf' as [->| ->]. }
  assert (GetSize t2 leaf = mid) as Hsz2l.
  { rewrite (GetSize_hdr t2 t1) by (by apply Hoth2). done. }
  assert (GetSize t2 new_leaf = GetSize t leaf - mid) as Hsz2n.
  { rewrite (GetSize_hdr t2 t1) by (by apply Hoth2). done. }
  assert (1 ≤ mid ∧ 1 ≤ GetSize t leaf - mid) as [Hmid1 Hmid2].
  { unfold mid. Z.div_mod_to_equations. lia. }
  assert (0 ≤ GetSize t2 leaf') as Hsz2'.
  { destruct Hleaf' as [->| ->]; lia. }
  assert (is_Some (pages_ t2 !! leaf')) as Hp2'.
  { apply Hpool2. right. apply Hpool1. destruct Hleaf' as [->| ->]; [by right | by left]. }
  destruct (shift_insert_pos leaf' 0 key value t2 ltac:(lia))
    as (_ & _ & _ & _ & _ & _ & _ & _ & Hoth3).
  destruct (shift_insert_frame leaf' 0 key value t2) as (Hr3 & Hh3).
  pose proof (dom_shift_insert leaf' 0 key value t2 Hp2') as Hdom3.
  set (t3 := shift_insert leaf' 0 key value t2) in *.
  destruct (Hoth3 new_root ltac:(done)) as (Hsz3r & Hs3r).
  (* the pages of the new tree *)
  assert (∀ q, is_Some (pages_ t2 !! q) → FetchPage t3 q = Some q) as Hfetch3.
  { intros q Hq. rewrite (FetchPage_dom t2 t3 q Hdom3). by apply FetchPage_Some. }
  assert (is_Some (pages_ t2 !! new_root)) as Hp2r by (apply Hpool2; by left).
  assert (is_Some (pages_ t2 !! leaf)) as Hp2l by (apply Hpool2; right; apply Hpool1; by right).
  assert (is_Some (pages_ t2 !! new_leaf)) as Hp2n by (apply Hpool2; right; apply Hpool1; by left).
  assert (is_Some (pages_ t3 !! new_root)) as Hp3r.
  { apply elem_of_dom. rewrite Hdom3. by apply elem_of_dom. }
  assert (IsLeafPage t3 new_root = false) as Hty3r.
  { rewrite (proj1 (Hh3 new_root)). unfold IsLeafPage.
    change (page_type_ (page t2 new_root)) with (hdr t2 new_root).1.1.1. by rewrite Hh2. }
  assert (GetSize t3 new_root = 2) as Hsz3root.
  { rewrite Hsz3r, GetSize_alt. by rewrite Hh2. }
  assert (ValueAt t3 new_root 0 = leaf) as Hv0.
  { rewrite ValueAt_slot_at, Hs3r, Hs20. simpl. by rewrite Hr1. }
  assert (ValueAt t3 new_root 1 = new_leaf) as Hv1.
  { by rewrite ValueAt_slot_at, Hs3r, Hs21. }
  assert (KeyAt t3 new_root 1 = tmp_key) as Hk1.
  { by rewrite KeyAt_slot_at, Hs3r, Hs21. }
  assert (∀ key', descend_child t3 new_root key' =
                  if bool_decide (key' < tmp_key) then leaf else new_leaf) as Hchild.
  { intros key'. unfold descend_child, descend_index. rewrite Hsz3root.
    unfold scan. simpl. rewrite Hk1, comparator_lt.
    case_bool_decide; simpl; [exact Hv0 | exact Hv1]. }
  (* the lookup in the new tree goes through the new root to one of the leaves *)
  assert (∀ key' result,
            GetValue t3 key' result =
              let c := if bool_decide (key' < tmp_key) then leaf else new_leaf in
              Some (if leaf_find t3 c key' <? GetSize t3 c
                    then (true, result ++ [ValueAt t3 c (leaf_find t3 c key')])
                    else (false, result))) as Hget3.
  { intros key' result. unfold GetValue. rewrite Hr3, Hr2.
    rewrite (proj2 (Z.eqb_neq _ _)) by done.
    rewrite (Hfetch3 new_root Hp2r). cbn [mbind option_bind].
    rewrite (pool_nonempty t3 new_root Hp3r). cbn [GetValue_loop].
    rewrite Hty3r, Hchild.
    assert (IsLeafPage t3 (if bool_decide (key' < tmp_key) then leaf else new_leaf) = true ∧
            is_Some (pages_ t2 !! (if bool_decide (key' < tmp_key) then leaf else new_leaf)))
      as [Hlc Hpc].
    { case_bool_decide; (split; [by rewrite (proj1 (Hh3 _)) | done]). }
    rewrite (Hfetch3 _ Hpc). cbn [mbind option_bind]. rewrite Hlc.
    by destruct (_ <? _). }
  (* the leaf that is searched for [key'] holds every occurrence of it *)
  assert (∀ key',
            let c := if bool_decide (key' < tmp_key) then leaf else new_leaf in
            (leaf_find t2 c key' <? GetSize t2 c) = (leaf_find t leaf key' <? GetSize t leaf) ∧
            (leaf_find t leaf key' < GetSize t leaf →
             ValueAt t2 c (leaf_find t2 c key') = ValueAt t leaf (leaf_find t leaf key')))
    as Hhalves.
  { intros key'. cbv zeta. case_bool_decide as Hlt.
    - apply (leaf_find_window t t2 leaf leaf key' 0); try lia.
      + intros j Hj. rewrite (proj2 (Hoth2 leaf Hlr)), Hkept. by replace (0 + j) with j by lia.
      + intros j Hj Hkj. rewrite Hsz2l.
        destruct (decide (j < mid)); [lia|]. exfalso.
        destruct (decide (j = mid)) as [->|]; [lia|].
        pose proof (Hsorted mid j ltac:(lia) ltac:(lia)). lia.
    - apply (leaf_find_window t t2 leaf new_leaf key' mid); try lia.
      + intros j Hj. rewrite (proj2 (Hoth2 new_leaf Hnr)). apply Hmoved. lia.
      + intros j Hj Hkj. rewrite Hsz2n.
        destruct (decide (mid ≤ j)); [lia|]. exfalso.
        pose proof (Hsorted j mid ltac:(lia) ltac:(lia)). lia. }
  split; [done|]. split; [done|]. split; [done|].
  split.
  { unfold Begin. rewrite Hr3, Hr2. rewrite (proj2 (Z.eqb_neq _ _)) by done.
    rewrite (Hfetch3 new_root Hp2r). cbn [mbind option_bind].
    rewrite (pool_nonempty t3 new_root Hp3r). cbn [Begin_loop].
    rewrite Hty3r, Hv0, (Hfetch3 leaf Hp2l). cbn [mbind option_bind].
    by rewrite (proj1 (Hh3 leaf)), Hl2l. }
  split.
  { rewrite (proj1 (proj2 (Hh3 leaf))).
    rewrite (GetNextPageId_hdr t2 t1) by (by apply Hoth2). done. }
  split.
  { rewrite Hget3. cbv zeta.
    set (c := if bool_decide (key < tmp_key) then leaf else new_leaf).
    case_bool_decide as Hc.
    - rewrite Hc.
      destruct (leaf_find_shift_insert_self leaf' key value t2 Hsz2') as (Hf & Hv).
      fold t3 in Hf, Hv.
      by rewrite (proj2 (Z.ltb_lt _ _)) by done; rewrite Hv.
    - destruct (Hoth3 c Hc) as (Hsz & Hsl).
      rewrite (leaf_find_ext t2 t3 c key Hsz Hsl), Hsz.
      destruct (Hhalves key) as (Hf & _). fold c in Hf.
      by rewrite Hf, (leaf_find_absent t leaf key Habs). }
  intros key' result Hne.
  rewrite Hget3. cbv zeta.
  rewrite (GetValue_root_leaf t key' result leaf Hvalid0 Hfetch0 Hleaf).
  destruct (Hhalves key') as (Hf20 & Hv20).
  set (c := if bool_decide (key' < tmp_key) then leaf else new_leaf) in *.
  (* the insertion does not change what the scan for [key'] finds *)
  assert ((leaf_find t3 c key' <? GetSize t3 c) = (leaf_find t2 c key' <? GetSize t2 c) ∧
          (leaf_find t2 c key' < GetSize t2 c →
           ValueAt t3 c (leaf_find t3 c key') = ValueAt t2 c (leaf_find t2 c key')))
    as (Hf32 & Hv32).
  { destruct (decide (c = leaf')) as [->|Hc].
    - apply (leaf_find_shift_insert leaf' key value t2 key' Hsz2' Hne).
    - destruct (Hoth3 c Hc) as (Hsz & Hsl).
      rewrite (leaf_find_ext t2 t3 c key' Hsz Hsl), Hsz.
      split; [done|]. intros _. by rewrite !ValueAt_slot_at, Hsl. }
  rewrite Hf32, Hf20.
  destruct (Z.ltb_spec (leaf_find t leaf key') (GetSize t leaf)) as [Hlt|]; [|done].
  rewrite Hv32, Hv20; [done | done |].
  by apply Z.ltb_lt.
Qed.

(** *** Remove that changes the leaf only *)

Lemma Remove_descend_Insert_descend fuel t root key ws ps ws' ps' :
  Remove_descend fuel t root key ws ps = Some (ws', ps') →
  Insert_descend fuel t root key ws = Some ws'.
Proof.
  revert root ws ps. induction fuel as [|fuel IH]; intros root ws ps; simpl; [done|].
  destruct (IsLeafPage t root); [by intros [= <- <-]|].
  destruct (FetchPage t (descend_child t root key)) as [child|]; [|done].
  cbn [mbind option_bind]. apply IH.
Qed.

Lemma Insert_descend_length fuel t root key ws ws' :
  Insert_descend fuel t root key ws = Some ws' →
  (length ws ≤ length ws')%nat ∧ (length ws' = length ws → ws' = ws).
Proof.
  revert root ws. induction fuel as [|fuel IH]; intros root ws; simpl; [done|].
  destruct (IsLeafPage t root); [by intros [= <-]|].
  destruct (FetchPage t (descend_child t root key)) as [child|]; [|done].
  cbn [mbind option_bind]. intros Hd. destruct (IH _ _ Hd) as [Hlen _].
  simpl in Hlen. split; lia.
Qed.

Lemma leaf_delete_IsLeafPage leaf key t q :
  IsLeafPage (leaf_delete leaf key t) q = IsLeafPage t q.
Proof.
  destruct (Z.ltb_spec (leaf_find t leaf key) (GetSize t leaf)) as [His|His].
  - by destruct (leaf_delete_pos leaf key t His) as (_ & _ & _ & _ & _ & Hty).
  - by rewrite leaf_delete_absent by (by apply Z.ltb_ge).
Qed.

Lemma leaf_delete_GetSize leaf key t :
  GetSize t leaf - 1 ≤ GetSize (leaf_delete leaf key t) leaf ≤ GetSize t leaf.
Proof.
  destruct (Z.ltb_spec (leaf_find t leaf key) (GetSize t leaf)) as [His|His].
  - destruct (leaf_delete_pos leaf key t His) as (_ & _ & Hsz & _). lia.
  - rewrite leaf_delete_absent by (by apply Z.ltb_ge). lia.
Qed.

Lemma descent_fuel_dom t t' : dom (pages_ t') = dom (pages_ t) → descent_fuel t' = descent_fuel t.
Proof. intros E. unfold descent_fuel. by rewrite <- !size_dom, E. Qed.

(** The lookups in the tree after "delete key" at the leaf the descent for
    [key] ends on. *)
Lemma leaf_delete_lookups t key root leaf ws :
  root_page_id_ t ≠ INVALID_PAGE_ID →
  FetchPage t (root_page_id_ t) = Some root →
  Insert_descend (descent_fuel t) t root key [root] = Some (leaf :: ws) →
  let t1 := leaf_delete leaf key t in
  (∀ key' result, key' ≠ key → GetValue t1 key' result = GetValue t key' result) ∧
  ((∀ i j, 0 ≤ i < j → j < GetSize t leaf → KeyAt t leaf i ≠ KeyAt t leaf j) →
   ∀ result, GetValue t1 key result = Some (false, result)).
Proof.
  intros Hvalid Hroot Hd t1.
  apply FetchPage_inv in Hroot as Hr. destruct Hr as [-> Hrp].
  destruct (Insert_descend_leaf _ _ _ _ _ _ _ Hrp Hd) as [Hleaf Hlp].
  destruct (leaf_delete_frame leaf key t) as (Hrt & Hpool & _ & Hoth).
  pose proof (dom_leaf_delete leaf key t Hlp) as Hdom.
  fold t1 in Hrt, Hpool, Hoth, Hdom.
  split.
  - intros key' result Hne.
    destruct (leaf_find_leaf_delete leaf key t key' Hne) as (Hf & Hv).
    unfold GetValue. rewrite Hrt, (FetchPage_dom t t1 _ Hdom), (descent_fuel_dom t t1 Hdom).
    destruct (root_page_id_ t =? INVALID_PAGE_ID); [done|].
    rewrite Hroot. cbn [mbind option_bind].
    apply (GetValue_loop_leaf_write _ t t1 _ key' result leaf); try done.
    intros q. apply leaf_delete_IsLeafPage.
  - intros Hdist result.
    unfold GetValue. rewrite Hrt, (FetchPage_dom t t1 _ Hdom), (descent_fuel_dom t t1 Hdom).
    rewrite (proj2 (Z.eqb_neq _ _)) by done.
    rewrite Hroot. cbn [mbind option_bind].
    rewrite (GetValue_loop_after_leaf_write _ t t1 _ key [] leaf ws result Hd Hleaf);
      [|intros q; apply leaf_delete_IsLeafPage|done|done].
    pose proof (leaf_find_deleted leaf key t Hdist) as Hf. fold t1 in Hf. by rewrite Hf.
Qed.

(** What [Remove] returns when the leaf is the root or keeps its minimum
    size. *)
Lemma Remove_leaf_only t key root leaf ws ps :
  root_page_id_ t ≠ INVALID_PAGE_ID →
  FetchPage t (root_page_id_ t) = Some root →
  Remove_descend (descent_fuel t) t root key [root] [] = Some (leaf :: ws, ps) →
  ws = [] ∨ GetMinSize t leaf < GetSize t leaf →
  let t1 := leaf_delete leaf key t in
  Remove t key = Some t1 ∨
  (Remove t key = Some (set_root INVALID_PAGE_ID t1) ∧ leaf = root ∧ GetSize t1 leaf ≤ 0).
Proof.
  intros Hvalid Hroot Hd Hcase t1.
  pose proof (Remove_descend_Insert_descend _ _ _ _ _ _ _ _ Hd) as Hdi.
  unfold Remove. rewrite (proj2 (Z.eqb_neq _ _)) by done. rewrite Hroot.
  cbn [mbind option_bind]. rewrite Hd. cbn [mbind option_bind]. fold t1.
  destruct (Z.geb_spec (GetSize t1 leaf) (GetMinSize t1 leaf)) as [|Hlt]; [by left|].
  destruct Hcase as [->|Hmin].
  - destruct (Z.gtb_spec (GetSize t1 leaf) 0); [by left|]. right.
    split; [done|]. split; [|lia].
    destruct (Insert_descend_length _ _ _ _ _ _ Hdi) as [_ Heq].
    specialize (Heq eq_refl). by simplify_eq.
  - exfalso. destruct (leaf_delete_frame leaf key t) as (_ & _ & Hmax & _).
    pose proof (leaf_delete_GetSize leaf key t). fold t1 in Hmax, H.
    unfold GetMinSize in *. rewrite Hmax in Hlt. lia.
Qed.

(** *** Insert and then Remove of the same key *)

Lemma Insert_descend_Remove_descend fuel t root key ws ps ws' :
  Insert_descend fuel t root key ws = Some ws' →
  ∃ ps', Remove_descend fuel t root key ws ps = Some (ws', ps').
Proof.
  revert root ws ps. induction fuel as [|fuel IH]; intros root ws ps; simpl; [done|].
  destruct (IsLeafPage t root); [intros [= <-]; by eexists|].
  destruct (FetchPage t (descend_child t root key)) as [child|]; [|done].
  cbn [mbind option_bind]. apply IH.
Qed.

(** A write to a leaf does not move the write descent. *)
Lemma Insert_descend_ext fuel t t' root key ws leaf :
  IsLeafPage t leaf = true →
  (∀ q, IsLeafPage t' q = IsLeafPage t q) →
  (∀ q, q ≠ leaf → GetSize t' q = GetSize t q ∧ ∀ j, slot_at t' q j = slot_at t q j) →
  dom (pages_ t') = dom (pages_ t) →
  Insert_descend fuel t' root key ws = Insert_descend fuel t root key ws.
Proof.
  intros Hleaf Hty Hoth Hdom. revert root ws.
  induction fuel as [|fuel IH]; intros root ws; simpl; [done|].
  rewrite Hty. destruct (IsLeafPage t root) eqn:Hrl; [done|].
  assert (root ≠ leaf) as Hne by (intros ->; congruence).
  destruct (Hoth root Hne) as [Hs Hsl].
  rewrite (descend_child_ext t t' root key Hs Hsl), (FetchPage_dom t t' _ Hdom).
  destruct (FetchPage t (descend_child t root key)) as [child|]; [|done].
  cbn [mbind option_bind]. apply IH.
Qed.

(** "delete key" after the sorted insertion of the key gives the page its
    live slots back. *)
Lemma leaf_delete_shift_insert p key value t :
  0 ≤ GetSize t p →
  let t'' := leaf_delete p key (shift_insert p 0 key value t) in
  GetSize t'' p = GetSize t p ∧
  ∀ j, 0 ≤ j < GetSize t p → slot_at t'' p j = slot_at t p j.
Proof.
  intros Hs t''.
  destruct (shift_insert_pos p 0 key value t ltac:(lia))
    as (i & Hi & Hbelow & _ & Hsz & Hat & Hlow & Hhigh & _).
  set (t' := shift_insert p 0 key value t) in *.
  assert (leaf_find t' p key = i) as Hfind.
  { unfold leaf_find. rewrite Hsz.
    set (Q := λ k, comparator_ key (KeyAt t' p k) =? 0).
    destruct (scan_spec 0 (GetSize t p + 1) Q ltac:(lia)) as (Hr & Hbefore & Hfound).
    set (r := scan 0 (GetSize t p + 1) Q) in *.
    assert (Q i = true) as HQi.
    { unfold Q. rewrite comparator_eq, KeyAt_slot_at, Hat.
      by rewrite bool_decide_eq_true_2. }
    destruct (Z.lt_trichotomy r i) as [Hlt|[E|Hgt]]; [|done|].
    - exfalso. specialize (Hfound ltac:(lia)). unfold Q in Hfound.
      rewrite comparator_eq in Hfound. apply bool_decide_eq_true in Hfound.
      rewrite KeyAt_slot_at, Hlow in Hfound by lia.
      rewrite <- KeyAt_slot_at in Hfound.
      specialize (Hbelow r ltac:(lia)). lia.
    - exfalso. rewrite Hbefore in HQi by lia. done. }
  destruct (leaf_delete_pos p key t') as (_ & _ & Hsz' & Hlow' & Hhigh' & _).
  { rewrite Hfind, Hsz. lia. }
  fold t'' in Hsz', Hlow', Hhigh'. rewrite Hfind in Hlow', Hhigh'. rewrite Hsz in Hsz', Hhigh'.
  split; [lia|]. intros j Hj.
  destruct (decide (j < i)).
  - by rewrite Hlow', Hlow.
  - rewrite Hhigh' by lia. rewrite Hhigh by lia. by replace (j + 1 - 1) with j by lia.
Qed.

(** [Insert] into a leaf with room does not move the first leaf. *)
Lemma Begin_shift_insert t leaf key value :
  IsLeafPage t leaf = true → is_Some (pages_ t !! leaf) → 0 ≤ GetSize t leaf →
  Begin (shift_insert leaf 0 key value t) = Begin t.
Proof.
  intros Hleaf Hlp Hs.
  destruct (shift_insert_pos leaf 0 key value t ltac:(lia))
    as (_ & _ & _ & _ & _ & _ & _ & _ & Hoth).
  destruct (shift_insert_frame leaf 0 key value t) as (Hrt & Hh).
  pose proof (dom_shift_insert leaf 0 key value t Hlp) as Hdom.
  unfold Begin. rewrite Hrt, (FetchPage_dom t _ _ Hdom), (descent_fuel_dom t _ Hdom).
  destruct (root_page_id_ t =? INVALID_PAGE_ID); [done|].
  destruct (FetchPage t (root_page_id_ t)) as [root|]; [|done].
  cbn [mbind option_bind]. apply Begin_loop_ext; [intros q; apply Hh| |done].
  intros q j Hq. apply Hoth. intros ->. congruence.
Qed.

End bpt_more.

(** ** The split of an internal page in the earlier version *)
Section snapshot_split.
Implicit Types (t : BPlusTree) (p q : page_id_t).

Lemma hdr_shift_insert p lo key value t q :
  q ≠ p → hdr (shift_insert p lo key value t) q = hdr t q.
Proof.
  intros Hq. unfold shift_insert. destruct (_ <=? _); [|done].
  rewrite hdr_SetValueAt, hdr_SetKeyAt.
  rewrite hdr_for_down by (intros; apply hdr_copy_slot).
  by rewrite hdr_IncreaseSize, decide_False by done.
Qed.

(** The upper half of the slots, the middle one included, is copied behind
    slot 0 of the new page; slot 0 of the new page is never written. *)
Lemma Snapshot_split_internal_spec t root :
  root ≠ next_alloc_ t → 0 ≤ GetSize t root →
  let m := GetSize t root in
  let '(t', page_id, tmp_key) := Snapshot.split_internal root t in
  page_id = next_alloc_ t ∧ tmp_key = KeyAt t root ((m + 1) / 2) ∧
  root_page_id_ t' = root_page_id_ t ∧
  GetSize t' root = (m + 1) / 2 ∧
  hdr t' page_id = (INTERNAL_PAGE, 1 + m / 2, internal_max_size_ t, 0) ∧
  slot_at t' page_id 0 = (0, 0) ∧
  (∀ i, (m + 1) / 2 ≤ i < m → slot_at t' page_id (1 + (i - (m + 1) / 2)) = slot_at t root i) ∧
  (∀ q j, q ≠ page_id → slot_at t' q j = slot_at t q j) ∧
  (∀ q, q ≠ page_id → q ≠ root → hdr t' q = hdr t q).
Proof.
  intros Hfresh Hm0 m. unfold Snapshot.split_internal. fold m.
  destruct (half_sizes m Hm0) as [Hhalf Hquot].
  set (mid := (m + 1) / 2) in *.
  assert (0 ≤ mid ≤ m) as Hmid by (unfold mid; Z.div_mod_to_equations; lia).
  set (page_id := next_alloc_ t).
  cbn [NewPageGuarded fst snd]. fold page_id.
  change (mkTree _ _ _ _ _) with (NewPageGuarded t).2.
  change (internal_max_size_ (NewPageGuarded t).2) with (internal_max_size_ t).
  set (t1 := IncreaseSize page_id (m / 2)
               (InternalPage_Init page_id (internal_max_size_ t) (NewPageGuarded t).2)).
  set (body := λ (i : Z) (s : BPlusTree), copy_slot page_id (1 + (i - mid)) root i s).
  assert (∀ q, hdr (for_up mid m body t1) q = hdr t1 q) as Hh.
  { intros q. apply hdr_for_up. intros. apply hdr_copy_slot. }
  assert (∀ q, hdr t1 q = if decide (page_id = q)
                          then (INTERNAL_PAGE, 1 + m / 2, internal_max_size_ t, 0)
                          else hdr t q) as Hh1.
  { intros q. unfold t1. rewrite hdr_IncreaseSize, hdr_InternalPage_Init, hdr_NewPageGuarded.
    fold page_id. by case_decide. }
  assert (∀ q j, slot_at t1 q j = if decide (page_id = q) then (0, 0) else slot_at t q j) as Hs1.
  { intros q j. unfold t1.
    by rewrite slot_at_IncreaseSize, slot_at_InternalPage_Init, slot_at_NewPageGuarded. }
  (* the copying loop *)
  assert ((∀ i, mid ≤ i < m → slot_at (for_up mid m body t1) page_id (1 + (i - mid)) = slot_at t root i) ∧
          (∀ j, ¬ (1 ≤ j < 1 + (m - mid)) → slot_at (for_up mid m body t1) page_id j = (0, 0)) ∧
          (∀ q j, q ≠ page_id → slot_at (for_up mid m body t1) q j = slot_at t q j))
    as (Hcopied & Hrest & Hother).
  { assert (∀ s, (∀ q j, q ≠ page_id → slot_at s q j = slot_at t q j) →
                 ∀ j, slot_at s root j = slot_at t root j) as Hroot.
    { intros s Hs j. by apply Hs. }
    apply (for_up_invariant (λ k s,
      (∀ i, mid ≤ i < k → slot_at s page_id (1 + (i - mid)) = slot_at t root i) ∧
      (∀ j, ¬ (1 ≤ j < 1 + (k - mid)) → slot_at s page_id j = (0, 0)) ∧
      (∀ q j, q ≠ page_id → slot_at s q j = slot_at t q j))); [lia| |].
    - split; [intros; lia|]. split.
      + intros j _. by rewrite Hs1, decide_True.
      + intros q j Hq. by rewrite Hs1, decide_False.
    - intros k s Hk (H1 & H2 & H3). unfold body. split; [|split].
      + intros i Hi. rewrite slot_at_copy_slot.
        destruct (decide (i = k)) as [->|Hik].
        * rewrite decide_True by (split; [done | lia]). by apply H3.
        * rewrite decide_False by lia. apply H1. lia.
      + intros j Hj. rewrite slot_at_copy_slot, decide_False by lia. apply H2. lia.
      + intros q j Hq. rewrite slot_at_copy_slot.
        rewrite decide_False; [by apply H3 | intros (? & _); by apply Hq]. }
  split; [done|]. split; [done|].
  split. { cbn. by rewrite (for_up_preserves root_page_id_). }
  split.
  { rewrite GetSize_IncreaseSize, decide_True by done.
    rewrite !GetSize_alt, Hh, Hh1, decide_False by done. rewrite <- GetSize_alt. fold m. lia. }
  split. { by rewrite hdr_IncreaseSize, decide_False, Hh, Hh1, decide_True by done. }
  split. { rewrite slot_at_IncreaseSize. apply Hrest. lia. }
  split. { intros i Hi. rewrite slot_at_IncreaseSize. by apply Hcopied. }
  split. { intros q j Hq. rewrite slot_at_IncreaseSize. by apply Hother. }
  intros q Hq1 Hq2. by rewrite hdr_IncreaseSize, decide_False, Hh, Hh1, decide_False by done.
Qed.
End snapshot_split.

(** * Further properties of the B+Tree *)

Section bpt_extras.
Implicit Types (t : BPlusTree) (p q : page_id_t).

(** X1: [Insert] into an empty tree (the header holds no root) returns true
    and builds a one-leaf tree: the tree reported empty before and does not
    afterwards, the new leaf is the root and the page [Begin] starts at,
    and a lookup finds the inserted key with its value and misses every
    other key. *)
Theorem Insert_into_empty_tree t key value :
  root_page_id_ t = INVALID_PAGE_ID → next_alloc_ t ≠ INVALID_PAGE_ID →
  ∃ t', Insert t key value = Some (true, t') ∧
        IsEmpty t = Some true ∧ IsEmpty t' = Some false ∧
        GetRootPageId t' = next_alloc_ t ∧
        Begin t' = Some (next_alloc_ t) ∧
        ∀ key' result,
          GetValue t' key' result =
            Some (if bool_decide (key' = key) then (true, result ++ [value])
                  else (false, result)).
Proof.
  intros Hempty Hfresh. unfold Insert, IsEmpty at 1. rewrite Hempty, Z.eqb_refl.
  cbn [NewPageGuarded fst snd].
  change (mkTree _ _ _ _ _) with (NewPageGuarded t).2.
  set (root := next_alloc_ t) in *.
  change (leaf_max_size_ (set_root root (NewPageGuarded t).2)) with (leaf_max_size_ t).
  set (t1 := LeafPage_Init root (leaf_max_size_ t) (set_root root (NewPageGuarded t).2)).
  set (t' := SetValueAt root 0 value (SetKeyAt root 0 key (IncreaseSize root 1 t1))).
  assert (hdr t' root = (LEAF_PAGE, 1, leaf_max_size_ t, INVALID_PAGE_ID)) as Hh.
  { unfold t'. rewrite hdr_SetValueAt, hdr_SetKeyAt, hdr_IncreaseSize, decide_True by done.
    unfold t1. by rewrite hdr_LeafPage_Init, decide_True by done. }
  assert (slot_at t' root 0 = (key, value)) as Hs.
  { unfold t'. by store_rw. }
  assert (FetchPage t' root = Some root) as Hfetch.
  { apply FetchPage_Some. do 4 apply pool_upd. simpl. rewrite lookup_insert_eq. eauto. }
  assert (IsLeafPage t' root = true) as Hleaf.
  { unfold IsLeafPage. change (page_type_ (page t' root)) with (hdr t' root).1.1.1.
    by rewrite Hh. }
  assert (GetSize t' root = 1) as Hsz by (by rewrite GetSize_alt, Hh).
  exists t'. split; [done|]. split; [done|].
  split.
  { unfold IsEmpty. change (root_page_id_ t') with root.
    rewrite (proj2 (Z.eqb_neq _ _)) by done. rewrite Hfetch. cbn [mbind option_bind].
    by rewrite Hleaf, Hsz. }
  split; [done|].
  split.
  { unfold Begin. change (root_page_id_ t') with root.
    rewrite (proj2 (Z.eqb_neq _ _)) by done. rewrite Hfetch. cbn [mbind option_bind].
    unfold descent_fuel. cbn [Begin_loop]. by rewrite Hleaf. }
  intros key' result.
  unfold GetValue. change (root_page_id_ t') with root.
  rewrite (proj2 (Z.eqb_neq _ _)) by done. rewrite Hfetch.
  cbn [mbind option_bind]. unfold descent_fuel. cbn [GetValue_loop].
  rewrite Hleaf. unfold leaf_find. rewrite Hsz.
  unfold scan. simpl.
  rewrite comparator_eq, KeyAt_slot_at, Hs. cbn [fst].
  case_bool_decide; [|done].
  by rewrite ValueAt_slot_at, Hs.
Qed.

Lemma Insert_into_empty_tree_witness :
  ∃ t', Insert (BPlusTree_new 4 4) 10 (RID 10) = Some (true, t') ∧
        IsEmpty (BPlusTree_new 4 4) = Some true ∧ IsEmpty t' = Some false ∧
        GetRootPageId t' = 1 ∧ Begin t' = Some 1 ∧
        ∀ key' result,
          GetValue t' key' result =
            Some (if bool_decide (key' = 10) then (true, result ++ [RID 10])
                  else (false, result)).
Proof.
  exact (Insert_into_empty_tree (BPlusTree_new 4 4) 10 (RID 10) eq_refl ltac:(discriminate)).
Defined.

(** X2: in every tree, when the write descent for a key ends on a leaf
    that does not hold the key and is not full, [Insert] returns true and
    adds the pair and nothing else: the lookup of the key yields the value,
    the lookup of every other key yields what it did before, and [Begin]
    starts at the same leaf. *)
Theorem Insert_with_room_lookups t key value root leaf ws :
  root_page_id_ t ≠ INVALID_PAGE_ID →
  FetchPage t (root_page_id_ t) = Some root →
  Insert_descend (descent_fuel t) t root key [root] = Some (leaf :: ws) →
  (leaf_find t leaf key <? GetSize t leaf) = false →
  0 ≤ GetSize t leaf → GetSize t leaf ≠ GetMaxSize t leaf →
  ∃ t', Insert t key value = Some (true, t') ∧
        GetValue t' key [] = Some (true, [value]) ∧
        (∀ key' result, key' ≠ key → GetValue t' key' result = GetValue t key' result) ∧
        Begin t' = Begin t.
Proof.
  intros Hvalid Hroot Hd Habs Hs Hroom.
  destruct (Insert_with_room_then_GetValue t key value root leaf ws Hvalid Hroot Hd Habs Hs Hroom)
    as (t' & Hins & Hget).
  exists t'. split; [done|]. split; [done|].
  assert (t' = shift_insert leaf 0 key value t) as ->.
  { unfold Insert in Hins. rewrite (proj2 (Z.eqb_neq _ _)) in Hins by done.
    rewrite Hroot in Hins. cbn [mbind option_bind] in Hins. rewrite Hd in Hins.
    cbn [mbind option_bind] in Hins. rewrite Habs in Hins.
    rewrite (proj2 (Z.eqb_neq _ _)) in Hins by done.
    destruct (negb _); by simplify_eq. }
  apply FetchPage_inv in Hroot as Hr. destruct Hr as [-> Hrp].
  destruct (Insert_descend_leaf _ _ _ _ _ _ _ Hrp Hd) as [Hleaf Hlp].
  split; [|by apply Begin_shift_insert].
  intros key' result Hne.
  destruct (shift_insert_pos leaf 0 key value t ltac:(lia))
    as (i & _ & _ & _ & _ & _ & _ & _ & Hoth).
  destruct (shift_insert_frame leaf 0 key value t) as (Hrt & Hh).
  destruct (leaf_find_shift_insert leaf key value t key' Hs Hne) as (Hfound & Hval).
  pose proof (dom_shift_insert leaf 0 key value t Hlp) as Hdom.
  unfold GetValue. rewrite Hrt.
  destruct (root_page_id_ t =? INVALID_PAGE_ID); [done|].
  rewrite (FetchPage_dom t _ _ Hdom), Hroot. cbn [mbind option_bind].
  rewrite (descent_fuel_shift_insert leaf 0 key value t Hlp).
  apply (GetValue_loop_leaf_write _ t _ _ key' result leaf); try done.
  intros q. apply Hh.
Qed.

Lemma Insert_with_room_lookups_witness :
  ∃ t', Insert five_keys_tree 6 (RID 6) = Some (true, t') ∧
        GetValue t' 6 [] = Some (true, [RID 6]) ∧
        (∀ key' result, key' ≠ 6 → GetValue t' key' result = GetValue five_keys_tree key' result) ∧
        Begin t' = Begin five_keys_tree.
Proof.
  assert (root_page_id_ five_keys_tree ≠ INVALID_PAGE_ID) as H1 by (vm_compute; discriminate).
  assert (FetchPage five_keys_tree (root_page_id_ five_keys_tree) = Some 3) as H2
    by (vm_compute; reflexivity).
  assert (Insert_descend (descent_fuel five_keys_tree) five_keys_tree 3 6 [3] = Some [2; 3])
    as H3 by (vm_compute; reflexivity).
  assert ((leaf_find five_keys_tree 2 6 <? GetSize five_keys_tree 2) = false) as H4
    by (vm_compute; reflexivity).
  assert (0 ≤ GetSize five_keys_tree 2) as H5 by (vm_compute; discriminate).
  assert (GetSize five_keys_tree 2 ≠ GetMaxSize five_keys_tree 2) as H6
    by (vm_compute; discriminate).
  exact (Insert_with_room_lookups five_keys_tree 6 (RID 6) 3 2 [3] H1 H2 H3 H4 H5 H6).
Defined.

(** X3: [Insert] into a leaf with room keeps the keys of the leaf in
    order: when the keys of the leaf the descent ends on are strictly
    increasing and the key is not among them, the leaf holds one entry more
    afterwards, its keys are strictly increasing again, and each of them is
    the inserted key or was a key of the leaf before. *)
Theorem Insert_with_room_keeps_order t key value root leaf ws :
  root_page_id_ t ≠ INVALID_PAGE_ID →
  FetchPage t (root_page_id_ t) = Some root →
  Insert_descend (descent_fuel t) t root key [root] = Some (leaf :: ws) →
  (∀ i, 0 ≤ i < GetSize t leaf → KeyAt t leaf i ≠ key) →
  0 ≤ GetSize t leaf → GetSize t leaf ≠ GetMaxSize t leaf →
  (∀ i j, 0 ≤ i < j → j < GetSize t leaf → KeyAt t leaf i < KeyAt t leaf j) →
  ∃ t', Insert t key value = Some (true, t') ∧
        GetSize t' leaf = GetSize t leaf + 1 ∧
        (∀ i j, 0 ≤ i < j → j < GetSize t' leaf → KeyAt t' leaf i < KeyAt t' leaf j) ∧
        (∀ j, 0 ≤ j < GetSize t' leaf →
           KeyAt t' leaf j = key ∨
           ∃ j', 0 ≤ j' < GetSize t leaf ∧ KeyAt t' leaf j = KeyAt t leaf j').
Proof.
  intros Hvalid Hroot Hd Habs Hs Hroom Hsorted.
  pose proof (leaf_find_absent t leaf key Habs) as Hfind.
  apply FetchPage_inv in Hroot as Hr. destruct Hr as [Hrr Hrp]. rewrite <- Hrr in Hrp.
  destruct (Insert_descend_leaf _ _ _ _ _ _ _ Hrp Hd) as [Hleaf Hlp].
  destruct (shift_insert_sorted leaf key value t Hs Habs Hsorted) as (Hsz & Hord).
  exists (shift_insert leaf 0 key value t). split.
  { unfold Insert. rewrite (proj2 (Z.eqb_neq _ _)) by done.
    rewrite Hroot. cbn [mbind option_bind]. rewrite Hd. cbn [mbind option_bind].
    rewrite Hfind. rewrite (proj2 (Z.eqb_neq _ _)) by done. by rewrite Hleaf. }
  split; [done|]. split; [done|].
  intros j Hj. apply shift_insert_keys; lia.
Qed.

Lemma Insert_with_room_keeps_order_witness :
  ∃ t', Insert five_keys_tree 6 (RID 6) = Some (true, t') ∧
        GetSize t' 2 = GetSize five_keys_tree 2 + 1 ∧
        (∀ i j, 0 ≤ i < j → j < GetSize t' 2 → KeyAt t' 2 i < KeyAt t' 2 j) ∧
        (∀ j, 0 ≤ j < GetSize t' 2 →
           KeyAt t' 2 j = 6 ∨
           ∃ j', 0 ≤ j' < GetSize five_keys_tree 2 ∧ KeyAt t' 2 j = KeyAt five_keys_tree 2 j').
Proof.
  assert (GetSize five_keys_tree 2 = 3) as Hsz by (vm_compute; reflexivity).
  assert (∀ i, 0 ≤ i < GetSize five_keys_tree 2 → KeyAt five_keys_tree 2 i ≠ 6) as Habs.
  { intros i Hi. rewrite Hsz in Hi.
    assert (i = 0 ∨ i = 1 ∨ i = 2) as [->|[->| ->]] by lia; vm_compute; discriminate. }
  assert (∀ i j, 0 ≤ i < j → j < GetSize five_keys_tree 2 →
                 KeyAt five_keys_tree 2 i < KeyAt five_keys_tree 2 j) as Hsorted.
  { intros i j Hi Hj. rewrite Hsz in Hj.
    assert ((i = 0 ∧ j = 1) ∨ (i = 0 ∧ j = 2) ∨ (i = 1 ∧ j = 2))
      as [[-> ->]|[[-> ->]|[-> ->]]] by lia; vm_compute; reflexivity. }
  assert (root_page_id_ five_keys_tree ≠ INVALID_PAGE_ID) as H1 by (vm_compute; discriminate).
  assert (FetchPage five_keys_tree (root_page_id_ five_keys_tree) = Some 3) as H2
    by (vm_compute; reflexivity).
  assert (Insert_descend (descent_fuel five_keys_tree) five_keys_tree 3 6 [3] = Some [2; 3])
    as H3 by (vm_compute; reflexivity).
  assert (0 ≤ GetSize five_keys_tree 2) as H5 by (vm_compute; discriminate).
  assert (GetSize five_keys_tree 2 ≠ GetMaxSize five_keys_tree 2) as H6
    by (vm_compute; discriminate).
  exact (Insert_with_room_keeps_order five_keys_tree 6 (RID 6) 3 2 [3] H1 H2 H3 Habs H5 H6
           Hsorted).
Defined.

(** X4: [Insert] of a new key into a tree whose root is a full leaf of at
    least two entries with strictly increasing keys (the two page ids the
    pool hands out next being unused and valid): the root leaf is split,
    [Begin] still starts at the old leaf, whose successor is the new leaf,
    the lookup of the inserted key yields its value, and the lookup of every
    other key yields what it did before the split.  (For a full leaf of one
    entry the split promotes a slot the leaf does not hold, see C4.) *)
Theorem Insert_root_leaf_split_lookups t key value leaf :
  root_page_id_ t = leaf → leaf ≠ INVALID_PAGE_ID →
  is_Some (pages_ t !! leaf) → IsLeafPage t leaf = true →
  GetSize t leaf = GetMaxSize t leaf → 2 ≤ GetSize t leaf →
  (∀ i, 0 ≤ i < GetSize t leaf → KeyAt t leaf i ≠ key) →
  (∀ i j, 0 ≤ i < j → j < GetSize t leaf → KeyAt t leaf i < KeyAt t leaf j) →
  leaf ≠ next_alloc_ t → leaf ≠ next_alloc_ t + 1 →
  next_alloc_ t + 1 ≠ INVALID_PAGE_ID →
  ∃ t', Insert t key value = Some (true, t') ∧
    Begin t' = Some leaf ∧
    GetNextPageId t' leaf = next_alloc_ t ∧
    GetValue t' key [] = Some (true, [value]) ∧
    ∀ key' result, key' ≠ key → GetValue t' key' result = GetValue t key' result.
Proof.
  intros Hroot Hvalid Hpool Hleaf Hfull Hm Habs Hsorted Hf1 Hf2 Hf3.
  assert (0 ≤ (GetSize t leaf + 1) / 2 < GetSize t leaf) as Hmid
    by (Z.div_mod_to_equations; lia).
  set (leaf' := if bool_decide (KeyAt t leaf ((GetSize t leaf + 1) / 2) < key)
                then next_alloc_ t else leaf).
  assert (leaf' = leaf ∨ leaf' = next_alloc_ t) as Hleaf'.
  { unfold leaf'. case_bool_decide; [by right | by left]. }
  pose proof (root_leaf_split_lookups t key value leaf leaf' Hroot Hvalid Hpool Hleaf Hm
                Habs Hsorted Hf1 Hf2 Hf3 Hleaf') as Hcore.
  unfold Insert. rewrite Hroot.
  rewrite (proj2 (Z.eqb_neq _ _)) by done.
  rewrite (FetchPage_Some t leaf Hpool). cbn [mbind option_bind].
  unfold descent_fuel at 1. cbn [Insert_descend]. rewrite Hleaf. cbn [mbind option_bind].
  rewrite (leaf_find_absent t leaf key Habs).
  rewrite <- Hfull, Z.eqb_refl.
  destruct (Z.gtb_spec (GetSize t leaf) 0) as [_|]; [|lia]. cbn [negb].
  destruct (split_leaf leaf t) as [[t1 page_id] tmp_key]. cbv zeta in Hcore.
  destruct Hcore as (-> & -> & Hl2 & Hbegin & Hnext & Hkey & Hothers).
  assert (KeyAt t leaf ((GetSize t leaf + 1) / 2) ≠ key) as Hne.
  { by apply Habs. }
  assert ((if comparator_ key (KeyAt t leaf ((GetSize t leaf + 1) / 2)) >? 0
           then next_alloc_ t else leaf) = leaf') as ->.
  { unfold leaf'. by rewrite comparator_gt. }
  cbn [mbind option_bind]. rewrite Hl2. cbn [negb].
  eexists. split; [done|]. split; [done|]. split; [done|]. split; [|done].
  rewrite Hkey. rewrite bool_decide_eq_true_2; [done|].
  clear Hkey. unfold leaf'.
  destruct (decide (key < KeyAt t leaf ((GetSize t leaf + 1) / 2))) as [H1|H1].
  - rewrite bool_decide_eq_true_2, bool_decide_eq_false_2 by lia. done.
  - rewrite bool_decide_eq_false_2, bool_decide_eq_true_2 by lia. done.
Qed.

Lemma Insert_root_leaf_split_lookups_witness :
  ∃ t', Insert four_keys_tree 5 (RID 5) = Some (true, t') ∧
    Begin t' = Some 1 ∧
    GetNextPageId t' 1 = next_alloc_ four_keys_tree ∧
    GetValue t' 5 [] = Some (true, [RID 5]) ∧
    ∀ key' result, key' ≠ 5 → GetValue t' key' result = GetValue four_keys_tree key' result.
Proof.
  assert (GetSize four_keys_tree 1 = 4) as Hsz by (vm_compute; reflexivity).
  assert (∀ i, 0 ≤ i < GetSize four_keys_tree 1 → KeyAt four_keys_tree 1 i ≠ 5) as Habs.
  { intros i Hi. rewrite Hsz in Hi.
    assert (i = 0 ∨ i = 1 ∨ i = 2 ∨ i = 3) as [->|[->|[->| ->]]] by lia;
      vm_compute; discriminate. }
  assert (∀ i j, 0 ≤ i < j → j < GetSize four_keys_tree 1 →
                 KeyAt four_keys_tree 1 i < KeyAt four_keys_tree 1 j) as Hsorted.
  { intros i j Hi Hj. rewrite Hsz in Hj.
    assert ((i = 0 ∧ j = 1) ∨ (i = 0 ∧ j = 2) ∨ (i = 0 ∧ j = 3) ∨
            (i = 1 ∧ j = 2) ∨ (i = 1 ∧ j = 3) ∨ (i = 2 ∧ j = 3))
      as [[-> ->]|[[-> ->]|[[-> ->]|[[-> ->]|[[-> ->]|[-> ->]]]]]] by lia;
      vm_compute; reflexivity. }
  assert (root_page_id_ four_keys_tree = 1) as H1 by (vm_compute; reflexivity).
  assert ((1 : Z) ≠ INVALID_PAGE_ID) as H2 by (vm_compute; discriminate).
  assert (is_Some (pages_ four_keys_tree !! 1)) as Hp by (vm_compute; eauto).
  assert (IsLeafPage four_keys_tree 1 = true) as H3 by (vm_compute; reflexivity).
  assert (GetSize four_keys_tree 1 = GetMaxSize four_keys_tree 1) as H4
    by (vm_compute; reflexivity).
  assert (2 ≤ GetSize four_keys_tree 1) as H5 by (vm_compute; discriminate).
  assert (1 ≠ next_alloc_ four_keys_tree) as H6 by (vm_compute; discriminate).
  assert (1 ≠ next_alloc_ four_keys_tree + 1) as H7 by (vm_compute; discriminate).
  assert (next_alloc_ four_keys_tree + 1 ≠ INVALID_PAGE_ID) as H8 by (vm_compute; discriminate).
  exact (Insert_root_leaf_split_lookups four_keys_tree 5 (RID 5) 1 H1 H2 Hp H3 H4 H5 Habs Hsorted H6 H7 H8).
Defined.

(** X5: [Remove] that does not restructure the tree (the leaf the descent
    ends on is the root, or holds more entries than its minimum size): the
    lookup of every other key yields what it did before, and when no two
    entries of the leaf share a key the lookup of the removed key misses
    afterwards. *)
Theorem Remove_leaf_only_lookups t key root leaf ws ps :
  root_page_id_ t ≠ INVALID_PAGE_ID →
  FetchPage t (root_page_id_ t) = Some root →
  Remove_descend (descent_fuel t) t root key [root] [] = Some (leaf :: ws, ps) →
  ws = [] ∨ GetMinSize t leaf < GetSize t leaf →
  ∃ t', Remove t key = Some t' ∧
    (∀ key' result, key' ≠ key → GetValue t' key' result = GetValue t key' result) ∧
    ((∀ i j, 0 ≤ i < j → j < GetSize t leaf → KeyAt t leaf i ≠ KeyAt t leaf j) →
     ∀ result, GetValue t' key result = Some (false, result)).
Proof.
  intros Hvalid Hroot Hd Hcase.
  pose proof (Remove_descend_Insert_descend _ _ _ _ _ _ _ _ Hd) as Hdi.
  destruct (leaf_delete_lookups t key root leaf ws Hvalid Hroot Hdi) as (Hother & Hgone).
  destruct (Remove_leaf_only t key root leaf ws ps Hvalid Hroot Hd Hcase)
    as [Hrem|(Hrem & -> & Hsz)].
  - eexists. split; [exact Hrem|]. done.
  - eexists. split; [exact Hrem|].
    set (t1 := leaf_delete root key t) in *.
    apply FetchPage_inv in Hroot as Hr. destruct Hr as [Hrr Hrp].
    rewrite <- Hrr in Hrp.
    destruct (Insert_descend_leaf _ _ _ _ _ _ _ Hrp Hdi) as [Hleaf Hlp].
    destruct (leaf_delete_frame root key t) as (Hrt & _ & _ & _).
    pose proof (dom_leaf_delete root key t Hlp) as Hdom. fold t1 in Hrt, Hdom.
    assert (∀ key' result, GetValue t1 key' result = Some (false, result)) as Hnone.
    { intros key' result.
      rewrite (GetValue_root_leaf t1 key' result root).
      - pose proof (leaf_find_nonneg t1 root key').
        by rewrite (proj2 (Z.ltb_ge _ _)) by lia.
      - by rewrite Hrt.
      - by rewrite Hrt, (FetchPage_dom t t1 _ Hdom).
      - unfold t1. by rewrite leaf_delete_IsLeafPage. }
    split.
    + intros key' result Hne. rewrite <- (Hother key' result Hne), Hnone. done.
    + intros _ result. done.
Qed.

Lemma Remove_leaf_only_lookups_witness :
  ∃ t', Remove five_keys_tree 5 = Some t' ∧
    (∀ key' result, key' ≠ 5 → GetValue t' key' result = GetValue five_keys_tree key' result) ∧
    ((∀ i j, 0 ≤ i < j → j < GetSize five_keys_tree 2 →
             KeyAt five_keys_tree 2 i ≠ KeyAt five_keys_tree 2 j) →
     ∀ result, GetValue t' 5 result = Some (false, result)).
Proof.
  assert (GetMinSize five_keys_tree 2 < GetSize five_keys_tree 2) as Hmin
    by (vm_compute; reflexivity).
  assert (root_page_id_ five_keys_tree ≠ INVALID_PAGE_ID) as H1 by (vm_compute; discriminate).
  assert (FetchPage five_keys_tree (root_page_id_ five_keys_tree) = Some 3) as H2
    by (vm_compute; reflexivity).
  assert (Remove_descend (descent_fuel five_keys_tree) five_keys_tree 3 5 [3] [] =
            Some ([2; 3], [1])) as H3 by (vm_compute; reflexivity).
  exact (Remove_leaf_only_lookups five_keys_tree 5 3 2 [3] [1] H1 H2 H3 (or_intror Hmin)).
Defined.

(** X6: a key that the lookup misses is removed without a change: when
    [GetValue] returns false for the key and the leaf the descent of
    [Remove] ends on holds at least its minimum size (or is a root that is
    not empty), [Remove] returns the tree it was given. *)
Theorem Remove_missing_key t key result result' root leaf ws ps :
  GetValue t key result = Some (false, result') →
  FetchPage t (root_page_id_ t) = Some root →
  Remove_descend (descent_fuel t) t root key [root] [] = Some (leaf :: ws, ps) →
  GetMinSize t leaf ≤ GetSize t leaf ∨ (ws = [] ∧ 0 < GetSize t leaf) →
  Remove t key = Some t.
Proof.
  intros Hget Hroot Hd Hfull. unfold Remove. unfold GetValue in Hget.
  destruct (root_page_id_ t =? INVALID_PAGE_ID); [done|].
  rewrite Hroot in Hget |- *. cbn [mbind option_bind] in Hget |- *.
  rewrite Hd. cbn [mbind option_bind].
  pose proof (GetValue_loop_Remove_descend _ _ _ _ _ _ _ _ _ _ _ _ Hget Hd) as Habs.
  rewrite leaf_delete_absent by done.
  destruct (Z.geb_spec (GetSize t leaf) (GetMinSize t leaf)); [done|].
  destruct Hfull as [?|[-> Hpos]]; [lia|].
  by rewrite (proj2 (Z.gtb_gt _ _)) by lia.
Qed.

Lemma Remove_missing_key_witness :
  GetValue five_keys_tree 6 [] = Some (false, []) ∧
  Remove five_keys_tree 6 = Some five_keys_tree.
Proof.
  assert (GetMinSize five_keys_tree 2 ≤ GetSize five_keys_tree 2) as Hmin
    by (vm_compute; discriminate).
  assert (GetValue five_keys_tree 6 [] = Some (false, [])) as H1 by (vm_compute; reflexivity).
  assert (FetchPage five_keys_tree (root_page_id_ five_keys_tree) = Some 3) as H2
    by (vm_compute; reflexivity).
  assert (Remove_descend (descent_fuel five_keys_tree) five_keys_tree 3 6 [3] [] =
            Some ([2; 3], [1])) as H3 by (vm_compute; reflexivity).
  split; [exact H1|].
  exact (Remove_missing_key five_keys_tree 6 [] [] 3 2 [3] [1] H1 H2 H3 (or_introl Hmin)).
Defined.

(** X7: [Insert] of a new key into a leaf with room followed by [Remove]
    of that key (the leaf being the root or holding at least its minimum
    size before) gives a tree in which every lookup yields what it did
    before the two operations. *)
Theorem Insert_then_Remove_lookups t key value root leaf ws :
  root_page_id_ t ≠ INVALID_PAGE_ID →
  FetchPage t (root_page_id_ t) = Some root →
  Insert_descend (descent_fuel t) t root key [root] = Some (leaf :: ws) →
  (leaf_find t leaf key <? GetSize t leaf) = false →
  0 ≤ GetSize t leaf → GetSize t leaf ≠ GetMaxSize t leaf →
  ws = [] ∨ GetMinSize t leaf ≤ GetSize t leaf →
  ∃ t' t'', Insert t key value = Some (true, t') ∧ Remove t' key = Some t'' ∧
    ∀ key' result, GetValue t'' key' result = GetValue t key' result.
Proof.
  intros Hvalid Hroot Hd Habs Hs Hroom Hcase.
  destruct (Insert_with_room_then_GetValue t key value root leaf ws Hvalid Hroot Hd Habs Hs Hroom)
    as (t' & Hins & _).
  assert (t' = shift_insert leaf 0 key value t) as Ht'.
  { unfold Insert in Hins. rewrite (proj2 (Z.eqb_neq _ _)) in Hins by done.
    rewrite Hroot in Hins. cbn [mbind option_bind] in Hins. rewrite Hd in Hins.
    cbn [mbind option_bind] in Hins. rewrite Habs in Hins.
    rewrite (proj2 (Z.eqb_neq _ _)) in Hins by done.
    destruct (negb _); by simplify_eq. }
  apply FetchPage_inv in Hroot as Hr. destruct Hr as [Hrr Hrp]. rewrite <- Hrr in Hrp.
  destruct (Insert_descend_leaf _ _ _ _ _ _ _ Hrp Hd) as [Hleaf Hlp].
  destruct (shift_insert_pos leaf 0 key value t ltac:(lia))
    as (_ & _ & _ & _ & Hsz & _ & _ & _ & Hoth).
  destruct (shift_insert_frame leaf 0 key value t) as (Hrt & Hh).
  pose proof (dom_shift_insert leaf 0 key value t Hlp) as Hdom.
  rewrite <- Ht' in Hsz, Hoth, Hrt, Hh, Hdom.
  (* the descent of Remove in the new tree *)
  assert (Insert_descend (descent_fuel t') t' root key [root] = Some (leaf :: ws)) as Hd'.
  { rewrite (descent_fuel_dom t t' Hdom).
    rewrite (Insert_descend_ext _ t t' root key [root] leaf Hleaf); try done.
    intros q. apply Hh. }
  destruct (Insert_descend_Remove_descend _ _ _ _ _ [] _ Hd') as (ps & Hrd).
  assert (root_page_id_ t' ≠ INVALID_PAGE_ID) as Hvalid' by (by rewrite Hrt).
  assert (FetchPage t' (root_page_id_ t') = Some root) as Hroot'.
  { by rewrite Hrt, (FetchPage_dom t t' _ Hdom). }
  assert (is_Some (pages_ t' !! leaf)) as Hlp'.
  { apply elem_of_dom. rewrite Hdom. by apply elem_of_dom. }
  set (t1 := leaf_delete leaf key t').
  (* the leaf is as it was *)
  destruct (leaf_delete_shift_insert leaf key value t Hs) as (Hsz1 & Hsl1).
  rewrite <- Ht' in Hsz1, Hsl1. fold t1 in Hsz1, Hsl1.
  destruct (leaf_delete_frame leaf key t') as (Hrt1 & _ & _ & Hoth1).
  pose proof (dom_leaf_delete leaf key t' Hlp') as Hdom1.
  fold t1 in Hrt1, Hoth1, Hdom1.
  assert (∀ key' result, GetValue t1 key' result = GetValue t key' result) as Hsame.
  { intros key' result. unfold GetValue.
    rewrite Hrt1, Hrt. destruct (root_page_id_ t =? INVALID_PAGE_ID); [done|].
    rewrite (FetchPage_dom t' t1 _ Hdom1), (FetchPage_dom t t' _ Hdom), Hroot.
    cbn [mbind option_bind].
    rewrite (descent_fuel_dom t' t1 Hdom1), (descent_fuel_dom t t' Hdom).
    destruct (leaf_find_window t t1 leaf leaf key' 0) as (Hf & Hv); try lia.
    { intros j Hj. rewrite Hsl1 by lia. by replace (0 + j) with j by lia. }
    apply (GetValue_loop_leaf_write _ t t1 _ key' result leaf); try done.
    - intros q. unfold t1. rewrite leaf_delete_IsLeafPage. apply Hh.
    - intros q Hq. destruct (Hoth1 q Hq) as (E1 & E2). destruct (Hoth q Hq) as (E3 & E4).
      split; [congruence|]. intros j. by rewrite E2, E4.
    - by rewrite Hdom1. }
  destruct (Remove_leaf_only t' key root leaf ws ps Hvalid' Hroot' Hrd)
    as [Hrem|(Hrem & -> & Hsz0)].
  { destruct Hcase as [?|Hmin]; [by left|]. right.
    unfold GetMinSize in *. rewrite (proj2 (proj2 (Hh leaf))). lia. }
  - exists t', t1. done.
  - exists t', (set_root INVALID_PAGE_ID t1). split; [done|]. split; [done|].
    intros key' result. rewrite <- Hsame.
    fold t1 in Hsz0.
    rewrite (GetValue_root_leaf t1 key' result root).
    + pose proof (leaf_find_nonneg t1 root key').
      by rewrite (proj2 (Z.ltb_ge _ _)) by lia.
    + by rewrite Hrt1.
    + by rewrite Hrt1, (FetchPage_dom t' t1 _ Hdom1).
    + unfold t1. by rewrite leaf_delete_IsLeafPage, (proj1 (Hh root)).
Qed.

Lemma Insert_then_Remove_lookups_witness :
  ∃ t' t'', Insert five_keys_tree 6 (RID 6) = Some (true, t') ∧ Remove t' 6 = Some t'' ∧
    ∀ key' result, GetValue t'' key' result = GetValue five_keys_tree key' result.
Proof.
  assert (GetMinSize five_keys_tree 2 ≤ GetSize five_keys_tree 2) as Hmin
    by (vm_compute; discriminate).
  assert (root_page_id_ five_keys_tree ≠ INVALID_PAGE_ID) as H1 by (vm_compute; discriminate).
  assert (FetchPage five_keys_tree (root_page_id_ five_keys_tree) = Some 3) as H2
    by (vm_compute; reflexivity).
  assert (Insert_descend (descent_fuel five_keys_tree) five_keys_tree 3 6 [3] = Some [2; 3])
    as H3 by (vm_compute; reflexivity).
  assert ((leaf_find five_keys_tree 2 6 <? GetSize five_keys_tree 2) = false) as H4
    by (vm_compute; reflexivity).
  assert (0 ≤ GetSize five_keys_tree 2) as H5 by (vm_compute; discriminate).
  assert (GetSize five_keys_tree 2 ≠ GetMaxSize five_keys_tree 2) as H6
    by (vm_compute; discriminate).
  exact (Insert_then_Remove_lookups five_keys_tree 6 (RID 6) 3 2 [3] H1 H2 H3 H4 H5 H6
           (or_intror Hmin)).
Defined.

(** X8: on a tree whose header holds no root [Begin] returns the page id
    of [End], the invalid id; on a tree whose root is a leaf it returns the
    root.  And whenever [Begin] returns (the invalid id being no page of the
    pool), its result is the id of [End] exactly when the header holds no
    root, and otherwise a leaf page of the pool, never an internal page. *)
Theorem Begin_result t :
  (root_page_id_ t = INVALID_PAGE_ID → Begin t = Some (End_ t)) ∧
  (∀ root,
     root_page_id_ t ≠ INVALID_PAGE_ID →
     FetchPage t (root_page_id_ t) = Some root → IsLeafPage t root = true →
     Begin t = Some root) ∧
  (pages_ t !! INVALID_PAGE_ID = None →
   ∀ p, Begin t = Some p →
     (p = End_ t ↔ root_page_id_ t = INVALID_PAGE_ID) ∧
     (p ≠ End_ t → IsLeafPage t p = true ∧ is_Some (pages_ t !! p))).
Proof.
  split; [|split].
  - intros E. unfold Begin, End_. by rewrite E, Z.eqb_refl.
  - intros root Hvalid Hroot Hleaf. unfold Begin.
    rewrite (proj2 (Z.eqb_neq _ _)) by done. rewrite Hroot. cbn [mbind option_bind].
    apply FetchPage_inv in Hroot as [-> _].
    unfold descent_fuel. cbn [Begin_loop]. by rewrite Hleaf.
  - intros Hinv p. unfold Begin, End_.
    destruct (Z.eqb_spec (root_page_id_ t) INVALID_PAGE_ID) as [E|E].
    + intros [= <-]. done.
    + destruct (FetchPage t (root_page_id_ t)) as [root|] eqn:Hfetch; [|done].
      cbn [mbind option_bind]. apply FetchPage_inv in Hfetch as [-> Hrp].
      intros Hb. destruct (Begin_loop_leaf _ _ _ _ Hrp Hb) as [Hleaf Hp].
      split; [|done]. split; [|done].
      intros ->. rewrite Hinv in Hp. by destruct Hp.
Qed.

Lemma Begin_result_witness :
  Begin (BPlusTree_new 4 4) = Some (End_ (BPlusTree_new 4 4)) ∧
  Begin one_key_tree = Some 1 ∧
  (Begin five_keys_tree = Some 1 ∧
   (1 = End_ five_keys_tree ↔ root_page_id_ five_keys_tree = INVALID_PAGE_ID) ∧
   (1 ≠ End_ five_keys_tree →
    IsLeafPage five_keys_tree 1 = true ∧ is_Some (pages_ five_keys_tree !! 1))).
Proof.
  assert (root_page_id_ one_key_tree ≠ INVALID_PAGE_ID) as H1 by (vm_compute; discriminate).
  assert (FetchPage one_key_tree (root_page_id_ one_key_tree) = Some 1) as H2
    by (vm_compute; reflexivity).
  assert (IsLeafPage one_key_tree 1 = true) as H3 by (vm_compute; reflexivity).
  assert (pages_ five_keys_tree !! INVALID_PAGE_ID = None) as H4 by (vm_compute; reflexivity).
  assert (Begin five_keys_tree = Some 1) as H5 by (vm_compute; reflexivity).
  split; [|split].
  - exact (proj1 (Begin_result (BPlusTree_new 4 4)) eq_refl).
  - exact (proj1 (proj2 (Begin_result one_key_tree)) 1 H1 H2 H3).
  - split; [exact H5|].
    exact (proj2 (proj2 (Begin_result five_keys_tree)) H4 1 H5).
Defined.

(** X9: for a tree whose root is a leaf, [IsEmpty] returns true exactly
    when the lookup of every key misses. *)
Theorem IsEmpty_root_leaf t root :
  root_page_id_ t ≠ INVALID_PAGE_ID →
  FetchPage t (root_page_id_ t) = Some root → IsLeafPage t root = true →
  0 ≤ GetSize t root →
  (IsEmpty t = Some true ↔ ∀ key result, GetValue t key result = Some (false, result)).
Proof.
  intros Hvalid Hroot Hleaf Hs.
  unfold IsEmpty. rewrite (proj2 (Z.eqb_neq _ _)) by done. rewrite Hroot.
  cbn [mbind option_bind]. rewrite Hleaf.
  split.
  - intros [= E%Z.eqb_eq] key result.
    rewrite (GetValue_root_leaf t key result root Hvalid Hroot Hleaf).
    pose proof (leaf_find_nonneg t root key).
    by rewrite (proj2 (Z.ltb_ge _ _)) by lia.
  - intros Hmiss. f_equal. apply Z.eqb_eq.
    destruct (decide (GetSize t root = 0)) as [|Hne]; [done|]. exfalso.
    specialize (Hmiss (KeyAt t root 0) []).
    rewrite (GetValue_root_leaf t _ [] root Hvalid Hroot Hleaf) in Hmiss.
    destruct (Z.ltb_spec (leaf_find t root (KeyAt t root 0)) (GetSize t root)) as [|Hge];
      [done|].
    unfold leaf_find in Hge.
    destruct (scan_spec 0 (GetSize t root)
                (λ i, comparator_ (KeyAt t root 0) (KeyAt t root i) =? 0) Hs)
      as (Hr & Hbefore & _).
    specialize (Hbefore 0 ltac:(lia)). cbv beta in Hbefore.
    rewrite comparator_eq in Hbefore. by apply bool_decide_eq_false in Hbefore.
Qed.

Lemma IsEmpty_root_leaf_witness :
  IsEmpty one_key_tree = Some true ↔
  ∀ key result, GetValue one_key_tree key result = Some (false, result).
Proof.
  assert (root_page_id_ one_key_tree ≠ INVALID_PAGE_ID) as H1 by (vm_compute; discriminate).
  assert (FetchPage one_key_tree (root_page_id_ one_key_tree) = Some 1) as H2
    by (vm_compute; reflexivity).
  assert (IsLeafPage one_key_tree 1 = true) as H3 by (vm_compute; reflexivity).
  assert (0 ≤ GetSize one_key_tree 1) as H4 by (vm_compute; discriminate).
  exact (IsEmpty_root_leaf one_key_tree 1 H1 H2 H3 H4).
Defined.
(** X10: [Remove] that does not restructure the tree keeps the leaf
    ordered: when the keys of the leaf the descent ends on are strictly
    increasing, the leaf loses one entry if it holds the key and none
    otherwise, its keys are strictly increasing afterwards, none of them is
    the removed key, and each of them was a key of the leaf before. *)
Theorem Remove_leaf_only_keeps_order t key root leaf ws ps :
  root_page_id_ t ≠ INVALID_PAGE_ID →
  FetchPage t (root_page_id_ t) = Some root →
  Remove_descend (descent_fuel t) t root key [root] [] = Some (leaf :: ws, ps) →
  ws = [] ∨ GetMinSize t leaf < GetSize t leaf →
  (∀ i j, 0 ≤ i < j → j < GetSize t leaf → KeyAt t leaf i < KeyAt t leaf j) →
  ∃ t', Remove t key = Some t' ∧
    GetSize t' leaf =
      GetSize t leaf - (if leaf_find t leaf key <? GetSize t leaf then 1 else 0) ∧
    (∀ i j, 0 ≤ i < j → j < GetSize t' leaf → KeyAt t' leaf i < KeyAt t' leaf j) ∧
    (∀ j, 0 ≤ j < GetSize t' leaf →
       KeyAt t' leaf j ≠ key ∧
       ∃ j', 0 ≤ j' < GetSize t leaf ∧ KeyAt t' leaf j = KeyAt t leaf j').
Proof.
  intros Hvalid Hroot Hd Hcase Hsorted.
  set (t1 := leaf_delete leaf key t).
  assert (GetSize t1 leaf =
            GetSize t leaf - (if leaf_find t leaf key <? GetSize t leaf then 1 else 0) ∧
          (∀ i j, 0 ≤ i < j → j < GetSize t1 leaf → KeyAt t1 leaf i < KeyAt t1 leaf j) ∧
          (∀ j, 0 ≤ j < GetSize t1 leaf →
             KeyAt t1 leaf j ≠ key ∧
             ∃ j', 0 ≤ j' < GetSize t leaf ∧ KeyAt t1 leaf j = KeyAt t leaf j')) as Hleaf.
  { destruct (Z.ltb_spec (leaf_find t leaf key) (GetSize t leaf)) as [His|His].
    - destruct (leaf_delete_pos leaf key t His) as (Hi0 & Hk & Hsz & Hlow & Hhigh & _).
      fold t1 in Hsz, Hlow, Hhigh.
      set (i := leaf_find t leaf key) in *.
      assert (∀ j, 0 ≤ j < GetSize t leaf - 1 →
                KeyAt t1 leaf j = KeyAt t leaf (if decide (j < i) then j else j + 1)) as Hkeys.
      { intros j Hj. rewrite !KeyAt_slot_at. destruct (decide (j < i)).
        - by rewrite Hlow.
        - by rewrite Hhigh by lia. }
      split; [lia|]. rewrite Hsz. split.
      + intros a b Hab Hb. rewrite !Hkeys by lia.
        apply Hsorted; destruct (decide (a < i)), (decide (b < i)); lia.
      + intros j Hj. rewrite Hkeys by lia. split.
        * rewrite <- Hk. destruct (decide (j < i)).
          -- pose proof (Hsorted j i ltac:(lia) ltac:(lia)). lia.
          -- pose proof (Hsorted i (j + 1) ltac:(lia) ltac:(lia)). lia.
        * eexists. split; [|done]. destruct (decide (j < i)); lia.
    - unfold t1. rewrite leaf_delete_absent by (by apply Z.ltb_ge).
      split; [lia|]. split; [done|]. intros j Hj. split.
      + assert (∀ k, 0 ≤ k < GetSize t leaf → KeyAt t leaf k ≠ key) as Habs; [|by apply Habs].
        intros k Hk Heq. unfold leaf_find in His.
        destruct (decide (0 ≤ GetSize t leaf)) as [H0|]; [|lia].
        destruct (scan_spec 0 (GetSize t leaf)
                    (λ i, comparator_ key (KeyAt t leaf i) =? 0) H0) as (Hr & Hbefore & _).
        specialize (Hbefore k ltac:(lia)). cbv beta in Hbefore.
        rewrite comparator_eq in Hbefore. by apply bool_decide_eq_false in Hbefore.
      + by exists j. }
  destruct (Remove_leaf_only t key root leaf ws ps Hvalid Hroot Hd Hcase)
    as [Hrem|(Hrem & _ & _)]; fold t1 in Hrem.
  - by exists t1.
  - exists (set_root INVALID_PAGE_ID t1). split; [done|]. exact Hleaf.
Qed.

Lemma Remove_leaf_only_keeps_order_witness :
  ∃ t', Remove five_keys_tree 5 = Some t' ∧
    GetSize t' 2 =
      GetSize five_keys_tree 2 -
      (if leaf_find five_keys_tree 2 5 <? GetSize five_keys_tree 2 then 1 else 0) ∧
    (∀ i j, 0 ≤ i < j → j < GetSize t' 2 → KeyAt t' 2 i < KeyAt t' 2 j) ∧
    (∀ j, 0 ≤ j < GetSize t' 2 →
       KeyAt t' 2 j ≠ 5 ∧
       ∃ j', 0 ≤ j' < GetSize five_keys_tree 2 ∧ KeyAt t' 2 j = KeyAt five_keys_tree 2 j').
Proof.
  assert (GetSize five_keys_tree 2 = 3) as Hsz by (vm_compute; reflexivity).
  assert (∀ i j, 0 ≤ i < j → j < GetSize five_keys_tree 2 →
                 KeyAt five_keys_tree 2 i < KeyAt five_keys_tree 2 j) as Hsorted.
  { intros i j Hi Hj. rewrite Hsz in Hj.
    assert ((i = 0 ∧ j = 1) ∨ (i = 0 ∧ j = 2) ∨ (i = 1 ∧ j = 2))
      as [[-> ->]|[[-> ->]|[-> ->]]] by lia; vm_compute; reflexivity. }
  assert (GetMinSize five_keys_tree 2 < GetSize five_keys_tree 2) as Hmin
    by (vm_compute; reflexivity).
  assert (root_page_id_ five_keys_tree ≠ INVALID_PAGE_ID) as H1 by (vm_compute; discriminate).
  assert (FetchPage five_keys_tree (root_page_id_ five_keys_tree) = Some 3) as H2
    by (vm_compute; reflexivity).
  assert (Remove_descend (descent_fuel five_keys_tree) five_keys_tree 3 5 [3] [] =
            Some ([2; 3], [1])) as H3 by (vm_compute; reflexivity).
  exact (Remove_leaf_only_keeps_order five_keys_tree 5 3 2 [3] [1] H1 H2 H3
           (or_intror Hmin) Hsorted).
Defined.

(** X11: a call of [GetValue] that returns appends exactly one value to
    the result vector on a hit and leaves the vector as it was on a miss,
    and neither the outcome nor the value depends on what the vector held
    before the call. *)
Theorem GetValue_appends_one t key result b result' :
  GetValue t key result = Some (b, result') →
  ∃ vs, result' = result ++ vs ∧ length vs = (if b then 1%nat else 0%nat) ∧
        ∀ other, GetValue t key other = Some (b, other ++ vs).
Proof.
  unfold GetValue.
  destruct (root_page_id_ t =? INVALID_PAGE_ID).
  { intros [= <- <-]. exists []. split; [by rewrite app_nil_r|]. split; [done|].
    intros other. by rewrite app_nil_r. }
  destruct (FetchPage t (root_page_id_ t)) as [root|] eqn:Hroot; [|done].
  cbn [mbind option_bind]. intros Hget.
  apply FetchPage_inv in Hroot as [-> Hrp].
  destruct (GetValue_loop_Insert_descend _ _ _ _ _ _ _ [] Hget)
    as (leaf & ws' & Hd & Hleaf & -> & ->).
  assert (∀ other, GetValue_loop (descent_fuel t) t (root_page_id_ t) key other =
            Some (if leaf_find t leaf key <? GetSize t leaf
                  then (true, other ++ [ValueAt t leaf (leaf_find t leaf key)])
                  else (false, other))) as Hany.
  { intros other.
    by apply (GetValue_loop_after_leaf_write _ t t _ key [] leaf ws' other Hd Hleaf). }
  destruct (leaf_find t leaf key <? GetSize t leaf).
  - eexists [_]. split; [done|]. split; [done|]. intros other. by rewrite Hany.
  - exists []. split; [by rewrite app_nil_r|]. split; [done|].
    intros other. by rewrite Hany, app_nil_r.
Qed.

Lemma GetValue_appends_one_witness :
  GetValue five_keys_tree 3 [] = Some (true, [RID 3]) ∧
  ∃ vs, [RID 3] = [] ++ vs ∧ length vs = 1%nat ∧
        ∀ other, GetValue five_keys_tree 3 other = Some (true, other ++ vs).
Proof.
  assert (GetValue five_keys_tree 3 [] = Some (true, [RID 3])) as H
    by (vm_compute; reflexivity).
  split; [exact H|].
  exact (GetValue_appends_one five_keys_tree 3 [] true [RID 3] H).
Defined.

(** X12: [Insert] returns false only for a key the tree holds: when it
    returns false the tree is the one it was given and [GetValue] finds the
    key in it. *)
Theorem Insert_false_is_duplicate t key value t' :
  Insert t key value = Some (false, t') →
  t' = t ∧ ∃ v, GetValue t key [] = Some (true, [v]).
Proof.
  unfold Insert, GetValue.
  destruct (root_page_id_ t =? INVALID_PAGE_ID); [done|].
  destruct (FetchPage t (root_page_id_ t)) as [root|] eqn:Hroot; [|done].
  cbn [mbind option_bind].
  destruct (Insert_descend _ _ _ _ _) as [[|leaf ws]|] eqn:Hd; [done| |done].
  cbn [mbind option_bind].
  apply FetchPage_inv in Hroot as [-> Hrp].
  destruct (Insert_descend_leaf _ _ _ _ _ _ _ Hrp Hd) as [Hleaf _].
  destruct (leaf_find t leaf key <? GetSize t leaf) eqn:Hfound.
  - intros [= <-]. split; [done|].
    rewrite (GetValue_loop_after_leaf_write _ t t _ key [] leaf ws [] Hd Hleaf) by done.
    rewrite Hfound. by eexists.
  - destruct (_ =? _).
    + destruct (negb _); [done|].
      destruct (split_leaf leaf t) as [[t1 page_id] tmp_key].
      destruct ws as [|parent ws']; cbn [mbind option_bind].
      * by destruct (negb _).
      * destruct (Insert_split_up _ _ _ _ _); cbn [mbind option_bind]; [|done].
        by destruct (negb _).
    + by destruct (negb _).
Qed.

Lemma Insert_false_is_duplicate_witness :
  Insert five_keys_tree 3 (RID 33) = Some (false, five_keys_tree) ∧
  five_keys_tree = five_keys_tree ∧
  ∃ v, GetValue five_keys_tree 3 [] = Some (true, [v]).
Proof.
  assert (Insert five_keys_tree 3 (RID 33) = Some (false, five_keys_tree)) as H
    by (vm_compute; reflexivity).
  split; [exact H|].
  exact (Insert_false_is_duplicate five_keys_tree 3 (RID 33) five_keys_tree H).
Defined.
End bpt_extras.

(** * The earlier version of Insert *)

Section snapshot_extras.
Implicit Types (t : BPlusTree) (p q : page_id_t).

(** X13: where no leaf is split the earlier version of [Insert]
    (storage/index/b_plus_tree.cpp) and the later one return the same result
    and the same tree: on an empty tree, on a key the leaf holds already,
    and on a leaf with room. *)
Theorem Snapshot_Insert_no_split t key value :
  (root_page_id_ t ≠ INVALID_PAGE_ID →
   ∃ root leaf ws,
     FetchPage t (root_page_id_ t) = Some root ∧
     Insert_descend (descent_fuel t) t root key [root] = Some (leaf :: ws) ∧
     ((leaf_find t leaf key <? GetSize t leaf) = true ∨
      GetSize t leaf ≠ GetMaxSize t leaf)) →
  Snapshot.Insert t key value = Insert t key value.
Proof.
  intros H. unfold Snapshot.Insert, Insert.
  destruct (Z.eqb_spec (root_page_id_ t) INVALID_PAGE_ID) as [|Hvalid]; [done|].
  destruct (H Hvalid) as (root & leaf & ws & Hroot & Hd & Hcase).
  rewrite Hroot. cbn [mbind option_bind]. rewrite Hd. cbn [mbind option_bind].
  apply FetchPage_inv in Hroot as [-> Hrp].
  destruct (Insert_descend_leaf _ _ _ _ _ _ _ Hrp Hd) as [Hleaf _].
  destruct (leaf_find t leaf key <? GetSize t leaf); [done|].
  destruct Hcase as [|Hroom]; [done|].
  rewrite (proj2 (Z.eqb_neq _ _)) by done. by rewrite Hleaf.
Qed.

Lemma Snapshot_Insert_no_split_witness :
  Snapshot.Insert five_keys_tree 6 (RID 6) = Insert five_keys_tree 6 (RID 6).
Proof.
  refine (Snapshot_Insert_no_split five_keys_tree 6 (RID 6) _).
  intros _. exists 3, 2, [3].
  split; [vm_compute; reflexivity|]. split; [vm_compute; reflexivity|].
  right. vm_compute. discriminate.
Defined.

(** X14: the earlier version of [Insert] on a tree whose root is a full
    leaf of at least two entries with strictly increasing keys (the two page
    ids the pool hands out next being unused and valid) puts the new pair
    into the new leaf whatever the key: [Insert] returns true, the lookup of
    every other key yields what it did before, but the lookup of the
    inserted key succeeds only for a key above the promoted one (where the
    result is the tree of the later version) and misses for a key below
    it. *)
Theorem Snapshot_Insert_root_leaf_split t key value leaf :
  root_page_id_ t = leaf → leaf ≠ INVALID_PAGE_ID →
  is_Some (pages_ t !! leaf) → IsLeafPage t leaf = true →
  GetSize t leaf = GetMaxSize t leaf → 2 ≤ GetSize t leaf →
  (∀ i, 0 ≤ i < GetSize t leaf → KeyAt t leaf i ≠ key) →
  (∀ i j, 0 ≤ i < j → j < GetSize t leaf → KeyAt t leaf i < KeyAt t leaf j) →
  leaf ≠ next_alloc_ t → leaf ≠ next_alloc_ t + 1 →
  next_alloc_ t + 1 ≠ INVALID_PAGE_ID →
  ∃ t', Snapshot.Insert t key value = Some (true, t') ∧
    GetValue t' key [] =
      Some (if bool_decide (KeyAt t leaf ((GetSize t leaf + 1) / 2) < key)
            then (true, [value]) else (false, [])) ∧
    (∀ key' result, key' ≠ key → GetValue t' key' result = GetValue t key' result) ∧
    (KeyAt t leaf ((GetSize t leaf + 1) / 2) < key → Insert t key value = Some (true, t')).
Proof.
  intros Hroot Hvalid Hpool Hleaf Hfull Hm Habs Hsorted Hf1 Hf2 Hf3.
  assert (0 ≤ (GetSize t leaf + 1) / 2 < GetSize t leaf) as Hmid
    by (Z.div_mod_to_equations; lia).
  pose proof (root_leaf_split_lookups t key value leaf (next_alloc_ t) Hroot Hvalid Hpool
                Hleaf Hm Habs Hsorted Hf1 Hf2 Hf3 ltac:(by right)) as Hcore.
  unfold Snapshot.Insert, Insert. rewrite Hroot.
  rewrite (proj2 (Z.eqb_neq _ _)) by done.
  rewrite (FetchPage_Some t leaf Hpool). cbn [mbind option_bind].
  unfold descent_fuel at 1 2. cbn [Insert_descend]. rewrite Hleaf. cbn [mbind option_bind].
  rewrite (leaf_find_absent t leaf key Habs).
  rewrite <- Hfull, Z.eqb_refl.
  destruct (Z.gtb_spec (GetSize t leaf) 0) as [_|]; [|lia]. cbn [negb].
  destruct (split_leaf leaf t) as [[t1 page_id] tmp_key]. cbv zeta in Hcore.
  destruct Hcore as (-> & -> & Hl2 & _ & _ & Hkey & Hothers).
  assert (KeyAt t leaf ((GetSize t leaf + 1) / 2) ≠ key) as Hne by (by apply Habs).
  eexists. split; [done|]. split; [|split; [done|]].
  - rewrite Hkey. clear Hkey.
    destruct (decide (key < KeyAt t leaf ((GetSize t leaf + 1) / 2))) as [H1|H1].
    + rewrite (bool_decide_eq_true_2 (key < _)) by done.
      rewrite bool_decide_eq_false_2 by done.
      by rewrite bool_decide_eq_false_2 by lia.
    + rewrite (bool_decide_eq_false_2 (key < _)) by done.
      rewrite bool_decide_eq_true_2 by done.
      by rewrite bool_decide_eq_true_2 by lia.
  - intros Hgt. rewrite comparator_gt, bool_decide_eq_true_2 by done.
    cbn [mbind option_bind]. by rewrite Hl2.
Qed.

Lemma Snapshot_Insert_root_leaf_split_witness :
  ∃ t', Snapshot.Insert four_keys_tree 0 (RID 0) = Some (true, t') ∧
    GetValue t' 0 [] =
      Some (if bool_decide (KeyAt four_keys_tree 1 ((GetSize four_keys_tree 1 + 1) / 2) < 0)
            then (true, [RID 0]) else (false, [])) ∧
    (∀ key' result, key' ≠ 0 → GetValue t' key' result = GetValue four_keys_tree key' result) ∧
    (KeyAt four_keys_tree 1 ((GetSize four_keys_tree 1 + 1) / 2) < 0 →
     Insert four_keys_tree 0 (RID 0) = Some (true, t')).
Proof.
  assert (GetSize four_keys_tree 1 = 4) as Hsz by (vm_compute; reflexivity).
  assert (∀ i, 0 ≤ i < GetSize four_keys_tree 1 → KeyAt four_keys_tree 1 i ≠ 0) as Habs.
  { intros i Hi. rewrite Hsz in Hi.
    assert (i = 0 ∨ i = 1 ∨ i = 2 ∨ i = 3) as [->|[->|[->| ->]]] by lia;
      vm_compute; discriminate. }
  assert (∀ i j, 0 ≤ i < j → j < GetSize four_keys_tree 1 →
                 KeyAt four_keys_tree 1 i < KeyAt four_keys_tree 1 j) as Hsorted.
  { intros i j Hi Hj. rewrite Hsz in Hj.
    assert ((i = 0 ∧ j = 1) ∨ (i = 0 ∧ j = 2) ∨ (i = 0 ∧ j = 3) ∨
            (i = 1 ∧ j = 2) ∨ (i = 1 ∧ j = 3) ∨ (i = 2 ∧ j = 3))
      as [[-> ->]|[[-> ->]|[[-> ->]|[[-> ->]|[[-> ->]|[-> ->]]]]]] by lia;
      vm_compute; reflexivity. }
  assert (root_page_id_ four_keys_tree = 1) as H1 by (vm_compute; reflexivity).
  assert ((1 : Z) ≠ INVALID_PAGE_ID) as H2 by (vm_compute; discriminate).
  assert (is_Some (pages_ four_keys_tree !! 1)) as Hp by (vm_compute; eauto).
  assert (IsLeafPage four_keys_tree 1 = true) as H3 by (vm_compute; reflexivity).
  assert (GetSize four_keys_tree 1 = GetMaxSize four_keys_tree 1) as H4
    by (vm_compute; reflexivity).
  assert (2 ≤ GetSize four_keys_tree 1) as H5 by (vm_compute; discriminate).
  assert (1 ≠ next_alloc_ four_keys_tree) as H6 by (vm_compute; discriminate).
  assert (1 ≠ next_alloc_ four_keys_tree + 1) as H7 by (vm_compute; discriminate).
  assert (next_alloc_ four_keys_tree + 1 ≠ INVALID_PAGE_ID) as H8 by (vm_compute; discriminate).
  exact (Snapshot_Insert_root_leaf_split four_keys_tree 0 (RID 0) 1 H1 H2 Hp H3 H4 H5 Habs Hsorted H6 H7 H8).
Defined.

(** X15: the loop of the earlier version that carries a split upwards,
    entered with a full internal page whose parent is the last page of the
    path and has room: the full page is cut to its lower half and the
    pending pair goes to the new page, but the loop ends without an
    insertion into the parent.  No slot of a page that existed before is
    written and the header keeps its root, so the new page, with the upper
    half of the entries, is the child of no page. *)
Theorem Snapshot_split_up_drops t root parent insert_key insert_val :
  GetMaxSize t root ≤ GetSize t root → 0 ≤ GetSize t root →
  parent ≠ root → parent ≠ next_alloc_ t → root ≠ next_alloc_ t →
  GetSize t parent ≠ GetMaxSize t parent →
  let t' := Snapshot.Insert_split_up [parent] root insert_key insert_val t in
  root_page_id_ t' = root_page_id_ t ∧
  GetSize t' root = (GetSize t root + 1) / 2 ∧
  (∀ q j, q ≠ next_alloc_ t → slot_at t' q j = slot_at t q j) ∧
  (∀ q, q ≠ next_alloc_ t → q ≠ root → hdr t' q = hdr t q).
Proof.
  intros Hfull Hm0 Hpr Hpf Hrf Hroom t'. subst t'.
  cbn [Snapshot.Insert_split_up].
  rewrite (proj2 (Z.ltb_ge _ _)) by lia.
  pose proof (Snapshot_split_internal_spec t root Hrf Hm0) as Hspec. cbv zeta in Hspec.
  destruct (Snapshot.split_internal root t) as [[t1 page_id] tmp_key].
  destruct Hspec as (-> & _ & Hr1 & Hsz1 & Hh1 & _ & _ & Hsl1 & Hoth1).
  assert (1 ≤ GetSize t1 (next_alloc_ t)) as Hsz.
  { rewrite GetSize_alt, Hh1. cbn [fst snd]. Z.div_mod_to_equations. lia. }
  destruct (shift_insert_pos (next_alloc_ t) 1 insert_key insert_val t1 ltac:(lia))
    as (_ & _ & _ & _ & _ & _ & _ & _ & Hoth2).
  destruct (shift_insert_frame (next_alloc_ t) 1 insert_key insert_val t1) as (Hr2 & Hh2).
  set (t2 := shift_insert (next_alloc_ t) 1 insert_key insert_val t1) in *.
  assert (∀ q, q ≠ next_alloc_ t → hdr t2 q = hdr t1 q) as Hhdr2.
  { intros q Hq. unfold t2. by apply hdr_shift_insert. }
  unfold Snapshot.after_loop.
  rewrite !GetSize_alt, !GetMaxSize_alt, (Hhdr2 parent Hpf), (Hoth1 parent Hpf Hpr).
  rewrite <- !GetSize_alt, <- !GetMaxSize_alt.
  rewrite (proj2 (Z.eqb_neq _ _)) by done.
  split. { by rewrite Hr2. }
  split. { by rewrite (proj1 (Hoth2 root Hrf)). }
  split. { intros q j Hq. by rewrite (proj2 (Hoth2 q Hq)), Hsl1. }
  intros q Hq1 Hq2. by rewrite Hhdr2, Hoth1.
Qed.

Lemma Snapshot_split_up_drops_witness :
  let t' := Snapshot.Insert_split_up [6] 7 50 8 Snapshot.five_inserts_tree in
  root_page_id_ t' = root_page_id_ Snapshot.five_inserts_tree ∧
  GetSize t' 7 = (GetSize Snapshot.five_inserts_tree 7 + 1) / 2 ∧
  (∀ q j, q ≠ next_alloc_ Snapshot.five_inserts_tree →
          slot_at t' q j = slot_at Snapshot.five_inserts_tree q j) ∧
  (∀ q, q ≠ next_alloc_ Snapshot.five_inserts_tree → q ≠ 7 →
        hdr t' q = hdr Snapshot.five_inserts_tree q).
Proof.
  assert (GetMaxSize Snapshot.five_inserts_tree 7 ≤ GetSize Snapshot.five_inserts_tree 7)
    as H1 by (vm_compute; discriminate).
  assert (0 ≤ GetSize Snapshot.five_inserts_tree 7) as H2 by (vm_compute; discriminate).
  assert ((6 : Z) ≠ 7) as H3 by discriminate.
  assert (6 ≠ next_alloc_ Snapshot.five_inserts_tree) as H4 by (vm_compute; discriminate).
  assert (7 ≠ next_alloc_ Snapshot.five_inserts_tree) as H5 by (vm_compute; discriminate).
  assert (GetSize Snapshot.five_inserts_tree 6 ≠ GetMaxSize Snapshot.five_inserts_tree 6)
    as H6 by (vm_compute; discriminate).
  exact (Snapshot_split_up_drops Snapshot.five_inserts_tree 7 6 50 8 H1 H2 H3 H4 H5 H6).
Defined.

(** X26: in the earlier version of [Insert] the split of an internal page
    of at least two entries (on another page than the one the pool hands
    out next) copies the middle entry, whose key is promoted, into slot 1 of
    the new page, together with the entries behind it, and never writes
    slot 0 of the new page: the promoted key remains a live key of the
    right sibling, and child 0 of the right sibling is what the new frame
    held, not the child the separator carried. *)
Theorem Snapshot_split_internal_copies t root :
  root ≠ next_alloc_ t → 2 ≤ GetSize t root →
  let m := GetSize t root in
  let '(t', page_id, tmp_key) := Snapshot.split_internal root t in
  page_id = next_alloc_ t ∧
  tmp_key = KeyAt t root ((m + 1) / 2) ∧
  GetSize t' root = (m + 1) / 2 ∧
  GetSize t' page_id = 1 + m / 2 ∧
  (∀ i, (m + 1) / 2 ≤ i < m →
        slot_at t' page_id (1 + (i - (m + 1) / 2)) = slot_at t root i) ∧
  KeyAt t' page_id 1 = tmp_key ∧ 1 < GetSize t' page_id ∧
  slot_at t' page_id 0 = slot_at (NewPageGuarded t).2 page_id 0.
Proof.
  intros Hfresh Hm m.
  pose proof (Snapshot_split_internal_spec t root Hfresh ltac:(lia)) as Hspec.
  cbv zeta in Hspec. fold m in Hspec.
  destruct (Snapshot.split_internal root t) as [[t' page_id] tmp_key].
  destruct Hspec as (-> & -> & _ & Hszr & Hh & Hs0 & Hcopied & _ & _).
  assert ((m + 1) / 2 < m ∧ 1 ≤ m / 2) as [Hmid Hhalf]
    by (unfold m in *; Z.div_mod_to_equations; lia).
  split; [done|]. split; [done|]. split; [done|].
  split. { by rewrite GetSize_alt, Hh. }
  split; [done|].
  split.
  { rewrite KeyAt_slot_at.
    replace 1 with (1 + ((m + 1) / 2 - (m + 1) / 2)) at 1 by lia.
    rewrite Hcopied by lia. by rewrite <- KeyAt_slot_at. }
  split. { rewrite GetSize_alt, Hh. cbn [fst snd]. lia. }
  by rewrite Hs0, slot_at_NewPageGuarded, decide_True.
Qed.

Lemma Snapshot_split_internal_copies_witness :
  let '(t', page_id, tmp_key) := Snapshot.split_internal 7 Snapshot.five_inserts_tree in
  page_id = next_alloc_ Snapshot.five_inserts_tree ∧
  tmp_key = KeyAt Snapshot.five_inserts_tree 7
              ((GetSize Snapshot.five_inserts_tree 7 + 1) / 2) ∧
  GetSize t' 7 = (GetSize Snapshot.five_inserts_tree 7 + 1) / 2 ∧
  GetSize t' page_id = 1 + GetSize Snapshot.five_inserts_tree 7 / 2 ∧
  (∀ i, (GetSize Snapshot.five_inserts_tree 7 + 1) / 2 ≤ i
        < GetSize Snapshot.five_inserts_tree 7 →
        slot_at t' page_id (1 + (i - (GetSize Snapshot.five_inserts_tree 7 + 1) / 2)) =
          slot_at Snapshot.five_inserts_tree 7 i) ∧
  KeyAt t' page_id 1 = tmp_key ∧ 1 < GetSize t' page_id ∧
  slot_at t' page_id 0 = slot_at (NewPageGuarded Snapshot.five_inserts_tree).2 page_id 0.
Proof.
  assert (7 ≠ next_alloc_ Snapshot.five_inserts_tree) as H1 by (vm_compute; discriminate).
  assert (2 ≤ GetSize Snapshot.five_inserts_tree 7) as H2 by (vm_compute; discriminate).
  exact (Snapshot_split_internal_copies Snapshot.five_inserts_tree 7 H1 H2).
Defined.
End snapshot_extras.


Import Trie.

(** * The specification of the trie, property by property *)

Section trie.
Implicit Types (t n : TrieNode).

(** The walk of [GetValue] ends on a node exactly when the key is a path to
    it. *)
Lemma GetValue_walk_reaches t (key : list ascii) n :
  GetValue_walk t key = Some n ↔ reaches t key n.
Proof.
  split.
  - revert t. induction key as [|c rest IH]; intros t; simpl.
    + intros [= ->]. constructor.
    + unfold GetChildNode. destruct (children_ t !! c) as [child|] eqn:Hc; [|done].
      intros Hw. econstructor; [done|]. by apply IH.
  - induction 1 as [|t c child rest n Hc _ IH]; simpl; [done|].
    unfold GetChildNode. by rewrite Hc.
Qed.

Lemma GetValue_walk_none t (key : list ascii) :
  GetValue_walk t key = None ↔ ∀ n, ¬ reaches t key n.
Proof.
  split.
  - intros Hw n Hr. apply GetValue_walk_reaches in Hr. congruence.
  - intros Hno. destruct (GetValue_walk t key) as [n|] eqn:Hw; [|done].
    exfalso. apply (Hno n). by apply GetValue_walk_reaches.
Qed.

Lemma set_children_id t : set_children t (children_ t) = t.
Proof. by destruct t. Qed.

Lemma store_child_id t c child : children_ t !! c = Some child → store_child t c child = t.
Proof. intros H. unfold store_child. by rewrite insert_id, set_children_id. Qed.

Lemma HasChildren_lookup t c child : children_ t !! c = Some child → HasChildren t = true.
Proof.
  intros H. unfold HasChildren. rewrite bool_decide_eq_false_2; [done|].
  intros E. rewrite E in H. by rewrite lookup_empty in H.
Qed.

(** [RemoveHelper] on a key whose node is terminal and has children puts the
    node back as it was: the trie it returns is the trie it was given. *)
Lemma RemoveHelper_keeps_terminal t (key : list ascii) n :
  reaches t key n → last key = Some (key_ n) →
  is_end_ n = true → children_ n ≠ ∅ →
  RemoveHelper t key = Some (true, t).
Proof.
  intros Hr. induction Hr as [|t c child rest n Hc Hr IH]; intros Hlast Hend Hch; [done|].
  cbn [RemoveHelper]. unfold GetChildNode at 1. rewrite Hc.
  destruct rest as [|c' rest'].
  - inversion Hr; subst. simpl in Hlast. injection Hlast as Hk.
    unfold IsEndNode. rewrite Hend.
    unfold HasChildren. rewrite bool_decide_eq_false_2 by done. cbn [negb].
    unfold InsertChildNode. rewrite bool_decide_eq_true_2 by done.
    unfold HasChild, RemoveChildNode. cbn [children_ set_children].
    rewrite lookup_delete_eq. rewrite bool_decide_eq_false_2 by (by intros [? ?]).
    cbn [default]. unfold set_children. cbn [key_ is_end_ value_ children_].
    rewrite insert_delete_eq, insert_id by done. by destruct t.
  - rewrite IH; [|done..]. cbn [mbind option_bind].
    rewrite (store_child_id t c child Hc).
    unfold GetChildNode. rewrite Hc.
    inversion Hr as [|? ? grandchild ? ? Hgc]; subst.
    rewrite (HasChildren_lookup child c' grandchild Hgc). cbn [negb].
    by rewrite andb_false_r.
Qed.

(** [RemoveHelper] returns false when the key is no path or its node is
    not terminal. *)
Lemma RemoveHelper_false t (key : list ascii) :
  key ≠ [] → (∀ n, reaches t key n → is_end_ n = false) →
  ∃ t', RemoveHelper t key = Some (false, t').
Proof.
  revert t. induction key as [|c rest IH]; intros t Hne Hno; [done|].
  cbn [RemoveHelper]. unfold GetChildNode at 1.
  destruct (children_ t !! c) as [node|] eqn:Hc; [|by eexists].
  destruct rest as [|c' rest'].
  - unfold IsEndNode. rewrite (Hno node); [by eexists|].
    eapply reaches_step; [done | constructor].
  - destruct (IH node) as (node' & ->); [done| |].
    { intros n Hr. apply Hno. by eapply reaches_step. }
    cbn [mbind option_bind].
    destruct (GetChildNode _ c) as [tmp|]; [|by eexists].
    destruct (negb (IsEndNode tmp) && negb (HasChildren tmp)); by eexists.
Qed.

(** C9: "Remove on a key whose terminal node has children ... clears only
    that node's terminal marking and value, so a subsequent GetValue on that
    key fails".  The code does not keep this: [RemoveHelper] puts the very
    node back, so for every key whose node is terminal and has children
    [Remove] returns true and hands back the trie it was given, in which the
    key is as retrievable as before.  [Remove] does return false for a key
    that is no path or whose node is not terminal.  After Insert("abc", 7)
    and Insert("abcd", 9), Remove("abc") returns true and leaves the trie as
    it was; GetValue<int>("abcd") returns 9, and GetValue<int>("abc") still
    returns 7 with success set. *)
Theorem C9_remove_keeps_terminal :
  (∀ trie key n,
     reaches (root_ trie) (String.list_ascii_of_string key) n →
     last (String.list_ascii_of_string key) = Some (key_ n) →
     is_end_ n = true → children_ n ≠ ∅ →
     Remove trie key = Some (true, trie)) ∧
  (∀ trie key,
     key ≠ ""%string →
     (∀ n, reaches (root_ trie) (String.list_ascii_of_string key) n → is_end_ n = false) →
     ∃ trie', Remove trie key = Some (false, trie')) ∧
  Insert Trie_new "abc" (VInt 7) = (true, abc_trie) ∧
  Insert abc_trie "abcd" (VInt 9) = (true, abcd_trie) ∧
  Remove abcd_trie "abc" = Some (true, abcd_trie) ∧
  GetValue T_int abcd_trie "abcd" = (VInt 9, true) ∧
  GetValue T_int abcd_trie "abc" = (VInt 7, true).
Proof.
  split; [|split; [|repeat split; vm_compute; reflexivity]].
  - intros trie key n Hr Hlast Hend Hch. unfold Remove.
    rewrite (RemoveHelper_keeps_terminal _ _ n Hr Hlast Hend Hch).
    cbn [mbind option_bind]. by destruct trie.
  - intros trie key Hkey Hno. unfold Remove.
    destruct (RemoveHelper_false (root_ trie) (String.list_ascii_of_string key))
      as (root' & ->); [by destruct key | done |].
    cbn [mbind option_bind]. by eexists.
Qed.

Lemma C9_remove_keeps_terminal_witness :
  (GetValue_walk (root_ abcd_trie) (String.list_ascii_of_string "abc") =
     Some (TrieNodeWithValue_from
             (mkTrieNode "c" false {[ "d"%char := TrieNodeWithValue_new "d" (VInt 9) ]} None)
             (VInt 7)) ∧
   Remove abcd_trie "abc" = Some (true, abcd_trie)) ∧
  ((∀ n, reaches (root_ abc_trie) (String.list_ascii_of_string "abd") n → is_end_ n = false) ∧
   ∃ trie', Remove abc_trie "abd" = Some (false, trie')).
Proof.
  set (n := TrieNodeWithValue_from
              (mkTrieNode "c" false {[ "d"%char := TrieNodeWithValue_new "d" (VInt 9) ]} None)
              (VInt 7)).
  assert (GetValue_walk (root_ abcd_trie) (String.list_ascii_of_string "abc") = Some n) as Hw
    by (vm_compute; reflexivity).
  assert (children_ n ≠ ∅) as Hch.
  { intros E. assert (children_ n !! "d"%char = None) as Hd by (rewrite E; apply lookup_empty).
    vm_compute in Hd. discriminate Hd. }
  assert (∀ m, reaches (root_ abc_trie) (String.list_ascii_of_string "abd") m →
               is_end_ m = false) as Hno.
  { intros m Hr. apply GetValue_walk_reaches in Hr. vm_compute in Hr. discriminate Hr. }
  split.
  - split; [exact Hw|].
    exact (proj1 C9_remove_keeps_terminal abcd_trie "abc"%string n
             (proj1 (GetValue_walk_reaches _ _ _) Hw) eq_refl eq_refl Hch).
  - split; [exact Hno|].
    exact (proj1 (proj2 C9_remove_keeps_terminal) abc_trie "abd"%string
             ltac:(discriminate) Hno).
Defined.

(** C10: [GetValue<T>] sets success to false and returns a
    default-constructed [T] for the empty key, for a key that is no path in
    the trie, and for a key whose node is not terminal, carries no value or
    carries a value of another type; for a key whose node is terminal and
    carries a value of type [T] it sets success to true and returns that
    value.  After Insert("abc", 7), GetValue<int>("abc") returns 7 and
    GetValue<string>("abc") fails. *)
Theorem C10_GetValue :
  (∀ T trie, GetValue T trie "" = (default_value T, false)) ∧
  (∀ T trie key,
     (∀ n, ¬ reaches (root_ trie) (String.list_ascii_of_string key) n) →
     GetValue T trie key = (default_value T, false)) ∧
  (∀ T trie key n,
     reaches (root_ trie) (String.list_ascii_of_string key) n →
     is_end_ n = false ∨ value_ n = None ∨ (∃ v, value_ n = Some v ∧ type_of v ≠ T) →
     GetValue T trie key = (default_value T, false)) ∧
  (∀ T trie key n v,
     key ≠ ""%string →
     reaches (root_ trie) (String.list_ascii_of_string key) n →
     is_end_ n = true → value_ n = Some v → type_of v = T →
     GetValue T trie key = (v, true)) ∧
  GetValue T_int abc_trie "abc" = (VInt 7, true) ∧
  GetValue T_string abc_trie "abc" = (VString "", false).
Proof.
  split; [done|]. split; [|split; [|split]].
  - intros T trie key Hno. unfold GetValue. case_bool_decide; [done|].
    apply GetValue_walk_none in Hno. by rewrite Hno.
  - intros T trie key n Hr Hcase. unfold GetValue. case_bool_decide; [done|].
    apply GetValue_walk_reaches in Hr. rewrite Hr. unfold IsEndNode.
    destruct (is_end_ n); simpl; [|done].
    destruct Hcase as [?|[->|(v & -> & Hty)]]; [done..|].
    by rewrite bool_decide_eq_false_2.
  - intros T trie key n v Hkey Hr Hend Hv Hty. unfold GetValue.
    rewrite bool_decide_eq_false_2 by done.
    apply GetValue_walk_reaches in Hr. rewrite Hr. unfold IsEndNode. rewrite Hend, Hv.
    simpl. by rewrite bool_decide_eq_true_2.
  - split; vm_compute; reflexivity.
Qed.

Lemma C10_GetValue_witness :
  ((∀ n, ¬ reaches (root_ abc_trie) (String.list_ascii_of_string "abd") n) ∧
   GetValue T_int abc_trie "abd" = (VInt 0, false)) ∧
  ((reaches (root_ abc_trie) (String.list_ascii_of_string "ab")
      (mkTrieNode "b" false {[ "c"%char := TrieNodeWithValue_new "c" (VInt 7) ]} None) ∧
    is_end_ (mkTrieNode "b" false {[ "c"%char := TrieNodeWithValue_new "c" (VInt 7) ]} None)
      = false) ∧
   GetValue T_int abc_trie "ab" = (VInt 0, false)) ∧
  (("abc"%string ≠ ""%string ∧
    reaches (root_ abc_trie) (String.list_ascii_of_string "abc")
      (TrieNodeWithValue_new "c" (VInt 7)) ∧
    is_end_ (TrieNodeWithValue_new "c" (VInt 7)) = true ∧
    value_ (TrieNodeWithValue_new "c" (VInt 7)) = Some (VInt 7) ∧
    type_of (VInt 7) = T_int) ∧
   GetValue T_int abc_trie "abc" = (VInt 7, true)).
Proof.
  assert (∀ n, ¬ reaches (root_ abc_trie) (String.list_ascii_of_string "abd") n) as Hno.
  { intros n Hr. apply GetValue_walk_reaches in Hr. vm_compute in Hr. discriminate Hr. }
  assert (reaches (root_ abc_trie) (String.list_ascii_of_string "ab")
            (mkTrieNode "b" false {[ "c"%char := TrieNodeWithValue_new "c" (VInt 7) ]} None))
    as Hb.
  { apply GetValue_walk_reaches. vm_compute. reflexivity. }
  assert (reaches (root_ abc_trie) (String.list_ascii_of_string "abc")
            (TrieNodeWithValue_new "c" (VInt 7))) as Hr.
  { do 3 (eapply reaches_step; [vm_compute; reflexivity|]). apply reaches_here. }
  split; [|split].
  - split; [exact Hno|].
    exact (proj1 (proj2 C10_GetValue) T_int abc_trie "abd"%string Hno).
  - split; [split; [exact Hb | reflexivity]|].
    exact (proj1 (proj2 (proj2 C10_GetValue)) T_int abc_trie "ab"%string _ Hb
             (or_introl eq_refl)).
  - split.
    + split; [discriminate|]. split; [exact Hr|]. repeat split.
    + exact (proj1 (proj2 (proj2 (proj2 C10_GetValue))) T_int abc_trie "abc"
               (TrieNodeWithValue_new "c" (VInt 7)) (VInt 7)
               ltac:(discriminate) Hr eq_refl eq_refl eq_refl).
Defined.
End trie.

(** * Further facts about the trie *)

Section trie_more.
Implicit Types (t n : TrieNode).

Lemma keyed_key t c child : keyed t → children_ t !! c = Some child → key_ child = c.
Proof. intros [? Hk _]. apply Hk. Qed.
Lemma keyed_child t c child : keyed t → children_ t !! c = Some child → keyed child.
Proof. intros [? _ Hk]. apply Hk. Qed.

Lemma keyed_no_children t : children_ t = ∅ → keyed t.
Proof. intros E. constructor; intros c child; rewrite E, lookup_empty; done. Qed.

Lemma keyed_insert t c child :
  keyed t → key_ child = c → keyed child →
  keyed (set_children t (<[c := child]> (children_ t))).
Proof.
  intros Ht Hk Hc. constructor; intros c' child'; cbn [children_ set_children];
    rewrite lookup_insert; case_decide; intros; simplify_eq; eauto using keyed_key, keyed_child.
Qed.

Lemma keyed_delete t c : keyed t → keyed (RemoveChildNode t c).
Proof.
  intros Ht. constructor; intros c' child'; cbn [children_ set_children RemoveChildNode];
    rewrite lookup_delete; case_decide; intros; simplify_eq; eauto using keyed_key, keyed_child.
Qed.

(** [GetValue] looks at the terminal state of the node its walk ends on
    only. *)
Lemma GetValue_terminal_value T trie key :
  GetValue T trie key =
    if bool_decide (key = ""%string) then (default_value T, false)
    else match terminal_value (GetValue_walk (root_ trie) (String.list_ascii_of_string key)) with
         | Some (Some v) => if bool_decide (type_of v = T) then (v, true)
                            else (default_value T, false)
         | _ => (default_value T, false)
         end.
Proof.
  unfold GetValue. case_bool_decide; [done|].
  destruct (GetValue_walk _ _) as [n|]; [|done]. simpl. unfold IsEndNode.
  by destruct (is_end_ n).
Qed.

(** *** InsertChildNode on a free character *)
Lemma InsertChildNode_free t c child :
  children_ t !! c = None → key_ child = c →
  InsertChildNode t c child = Some (set_children t (<[c := child]> (children_ t))).
Proof.
  intros Hc Hk. unfold InsertChildNode, HasChild.
  rewrite bool_decide_eq_true_2 by done.
  rewrite bool_decide_eq_false_2; [done|]. rewrite Hc. by intros [? ?].
Qed.

Lemma InsertChildNode_top t c child t' :
  InsertChildNode t c child = Some t' →
  key_ t' = key_ t ∧ is_end_ t' = is_end_ t ∧ value_ t' = value_ t ∧
  children_ t' = <[c := child]> (children_ t).
Proof.
  unfold InsertChildNode. destruct (bool_decide _); [|done].
  destruct (HasChild t c); [done|]. by intros [= <-].
Qed.

(** The fields of the node [Insert] walks through stay. *)
Lemma Insert_loop_top t key v t' :
  Insert_loop t key v = Some t' →
  key_ t' = key_ t ∧ is_end_ t' = is_end_ t ∧ value_ t' = value_ t.
Proof.
  destruct key as [|c rest]; simpl; [by intros [= <-]|].
  destruct (GetChildNode t c) as [node|] eqn:Hc.
  - destruct rest as [|c' rest'].
    + destruct (IsEndNode node); [done|]. intros [= <-].
      destruct (InsertChildNode _ _ _) as [t1|] eqn:E; simpl; [|done].
      apply InsertChildNode_top in E as (? & ? & ? & _). done.
    + destruct (Insert_loop node _ v); simpl; [|done]. by intros [= <-].
  - destruct (Insert_loop _ rest v); simpl; [|done]. intros [= <-].
    destruct (InsertChildNode t c _) as [t1|] eqn:E; simpl; [|done].
    apply InsertChildNode_top in E as (? & ? & ? & _). done.
Qed.

(** What [Insert] does to the children of the node it walks through, in a
    trie whose children sit under their own characters. *)
Lemma Insert_loop_children t c rest v t' :
  keyed t → Insert_loop t (c :: rest) v = Some t' →
  ∃ child',
    children_ t' = <[c := child']> (children_ t) ∧ key_ child' = c ∧
    match children_ t !! c, rest with
    | None, [] => child' = TrieNodeWithValue_new c v
    | None, _ :: _ => Insert_loop (TrieNode_new c) rest v = Some child'
    | Some node, [] => is_end_ node = false ∧ child' = TrieNodeWithValue_from node v
    | Some node, _ :: _ => Insert_loop node rest v = Some child'
    end.
Proof.
  intros Hk. cbn [Insert_loop]. unfold GetChildNode.
  destruct (children_ t !! c) as [node|] eqn:Hc.
  - destruct rest as [|c' rest'].
    + unfold IsEndNode. destruct (is_end_ node) eqn:He; [done|]. intros [= <-].
      assert (key_ node = c) as Hkn by (by eapply keyed_key).
      rewrite InsertChildNode_free; [|apply lookup_delete_eq|done].
      eexists. cbn [default id children_ set_children RemoveChildNode].
      split; [by rewrite insert_delete_eq|]. done.
    + destruct (Insert_loop node _ v) as [child'|] eqn:E; simpl; [|done]. intros [= <-].
      exists child'. split; [done|]. split; [|done].
      apply Insert_loop_top in E as (-> & _). by eapply keyed_key.
  - destruct (Insert_loop _ rest v) as [child'|] eqn:E; simpl; [|done]. intros [= <-].
    exists child'.
    rewrite InsertChildNode_free; [|done|by destruct rest].
    cbn [default id children_ set_children store_child].
    split; [by rewrite insert_insert_eq|].
    split. { apply Insert_loop_top in E as (-> & _). by destruct rest. }
    destruct rest; [|done]. simpl in E. by injection E as <-.
Qed.


(** [Insert] keeps every child under its own character. *)
Lemma Insert_loop_keyed t key v t' :
  keyed t → Insert_loop t key v = Some t' → keyed t'.
Proof.
  revert t t'. induction key as [|c rest IH]; intros t t' Hk H.
  { simpl in H. by simplify_eq. }
  destruct (Insert_loop_children t c rest v t' Hk H) as (child' & Hch & Hkc & Hcase).
  assert (keyed child') as Hkc'.
  { destruct (children_ t !! c) as [node|] eqn:Hc; destruct rest as [|c' rest'].
    - destruct Hcase as [_ ->].
      pose proof (keyed_child _ _ _ Hk Hc) as [? Hn1 Hn2]. by constructor.
    - apply (IH node); [exact (keyed_child _ _ _ Hk Hc) | done].
    - rewrite Hcase. by apply keyed_no_children.
    - apply (IH (TrieNode_new c)); [by apply keyed_no_children | done]. }
  constructor; intros c0 ch0; rewrite Hch, lookup_insert; case_decide; intros; simplify_eq;
    eauto using keyed_key, keyed_child.
Qed.

(** After a successful [Insert] the key leads to a terminal node that
    carries the value. *)
Lemma Insert_loop_walk t key v t' :
  keyed t → key ≠ [] → Insert_loop t key v = Some t' →
  ∃ n, GetValue_walk t' key = Some n ∧ is_end_ n = true ∧ value_ n = Some v.
Proof.
  revert t t'. induction key as [|c rest IH]; intros t t' Hk Hne H; [done|].
  destruct (Insert_loop_children t c rest v t' Hk H) as (child' & Hch & Hkc & Hcase).
  cbn [GetValue_walk]. unfold GetChildNode. rewrite Hch, lookup_insert_eq.
  destruct (children_ t !! c) as [node|] eqn:Hc; destruct rest as [|c' rest'].
  - destruct Hcase as [_ ->]. by eexists.
  - apply (IH node); [exact (keyed_child _ _ _ Hk Hc) | done | done].
  - rewrite Hcase. by eexists.
  - apply (IH (TrieNode_new c)); [by apply keyed_no_children | done | done].
Qed.

(** [Insert] cannot fail below a node without children. *)
Lemma Insert_loop_fresh t key v :
  children_ t = ∅ → is_Some (Insert_loop t key v).
Proof.
  revert t. induction key as [|c rest IH]; intros t Hc; [by eexists|].
  cbn [Insert_loop]. unfold GetChildNode. rewrite Hc, lookup_empty.
  destruct (IH (match rest with [] => TrieNodeWithValue_new c v | _ :: _ => TrieNode_new c end))
    as [child' ->]; [by destruct rest|].
  by eexists.
Qed.

(** [Insert] fails exactly on a key that is stored already. *)
Lemma Insert_loop_None t key v :
  Insert_loop t key v = None ↔
  ∃ n, key ≠ [] ∧ GetValue_walk t key = Some n ∧ is_end_ n = true.
Proof.
  revert t. induction key as [|c rest IH]; intros t.
  { split; [done|]. by intros (n & ? & _). }
  cbn [Insert_loop GetValue_walk]. unfold GetChildNode.
  destruct (children_ t !! c) as [node|] eqn:Hc.
  - destruct rest as [|c' rest'].
    + unfold IsEndNode. cbn [GetValue_walk]. destruct (is_end_ node) eqn:He.
      * split; [|done]. intros _. by exists node.
      * split; [done|]. intros (n & _ & [= <-] & ?). congruence.
    + destruct (Insert_loop node (c' :: rest') v) as [child'|] eqn:E; cbn [mbind option_bind].
      * split; [done|]. intros (n & _ & Hw & He).
        assert (Insert_loop node (c' :: rest') v = None) as E'
          by (apply IH; by exists n).
        congruence.
      * split; [|done]. intros _. apply IH in E as (n & _ & ? & ?). by exists n.
  - destruct (Insert_loop_fresh
                (match rest with [] => TrieNodeWithValue_new c v | _ :: _ => TrieNode_new c end)
                rest v) as [child' ->]; [by destruct rest|].
    cbn [mbind option_bind]. split; [done|]. by intros (n & _ & ? & _).
Qed.

(** [Insert] leaves every other key as it was: what a walk along another
    key ends on is terminal with the same value, or is not terminal, as
    before. *)
Lemma Insert_loop_other t key v t' key' :
  keyed t → Insert_loop t key v = Some t' → key' ≠ key →
  terminal_value (GetValue_walk t' key') = terminal_value (GetValue_walk t key').
Proof.
  revert t t' key'. induction key as [|c rest IH]; intros t t' key' Hk H Hne.
  { simpl in H. by simplify_eq. }
  destruct (Insert_loop_children t c rest v t' Hk H) as (child' & Hch & Hkc & Hcase).
  pose proof (Insert_loop_top _ _ _ _ H) as (_ & He & Hv).
  destruct key' as [|c0 rest0].
  { simpl. by rewrite He, Hv. }
  cbn [GetValue_walk]. unfold GetChildNode. rewrite Hch, lookup_insert.
  case_decide as Hcc; [subst c0|done].
  assert (rest0 ≠ rest) as Hr by congruence.
  destruct (children_ t !! c) as [node|] eqn:Hc; destruct rest as [|c' rest'].
  - destruct Hcase as [_ ->]. by destruct rest0.
  - apply IH; [exact (keyed_child _ _ _ Hk Hc) | done | done].
  - rewrite Hcase. destruct rest0 as [|c1 r]; [done|].
    cbn [GetValue_walk]. unfold GetChildNode. simpl. by rewrite lookup_empty.
  - rewrite (IH (TrieNode_new c) child' rest0); [|by apply keyed_no_children|done|done].
    destruct rest0 as [|c1 r]; [done|].
    cbn [GetValue_walk]. unfold GetChildNode. simpl. by rewrite lookup_empty.
Qed.

(** *** Remove *)

Lemma RemoveChildNode_store t c node : RemoveChildNode (store_child t c node) c = RemoveChildNode t c.
Proof.
  unfold RemoveChildNode, store_child, set_children. cbn [key_ is_end_ value_ children_].
  by rewrite delete_insert_eq.
Qed.

(** What [RemoveHelper] does at the node it is called on, in a trie whose
    children sit under their own characters. *)
Lemma RemoveHelper_step t c rest :
  keyed t →
  RemoveHelper t (c :: rest) =
    match children_ t !! c with
    | None => Some (false, t)
    | Some node =>
        match rest with
        | [] =>
            if is_end_ node then
              Some (true, if HasChildren node then t else RemoveChildNode t c)
            else Some (false, t)
        | _ :: _ =>
            '(flag, node') ← RemoveHelper node rest;
            Some (flag, if negb (is_end_ node') && negb (HasChildren node')
                        then RemoveChildNode t c else store_child t c node')
        end
    end.
Proof.
  intros Hk. cbn [RemoveHelper]. unfold GetChildNode at 1.
  destruct (children_ t !! c) as [node|] eqn:Hc; [|done].
  destruct rest as [|c' rest'].
  - unfold IsEndNode. destruct (is_end_ node); [|done].
    destruct (HasChildren node); [|done].
    rewrite InsertChildNode_free; [|apply lookup_delete_eq|exact (keyed_key _ _ _ Hk Hc)].
    cbn [default id]. do 2 f_equal.
    unfold RemoveChildNode, set_children. cbn [key_ is_end_ value_ children_].
    rewrite insert_delete_eq, insert_id by done. by destruct t.
  - destruct (RemoveHelper node (c' :: rest')) as [[flag node']|]; [|done].
    cbn [mbind option_bind]. unfold GetChildNode, store_child at 1.
    cbn [children_ set_children]. rewrite lookup_insert_eq. unfold IsEndNode.
    destruct (negb (is_end_ node') && negb (HasChildren node')); [|done].
    by rewrite RemoveChildNode_store.
Qed.

Lemma RemoveHelper_top t key flag t' :
  keyed t → RemoveHelper t key = Some (flag, t') →
  key_ t' = key_ t ∧ is_end_ t' = is_end_ t ∧ value_ t' = value_ t.
Proof.
  intros Hk. destruct key as [|c rest]; [done|]. rewrite RemoveHelper_step by done.
  destruct (children_ t !! c) as [node|]; [|by intros [= <- <-]].
  destruct rest as [|c' rest'].
  - destruct (is_end_ node); [|by intros [= <- <-]].
    destruct (HasChildren node); by intros [= <- <-].
  - destruct (RemoveHelper node _) as [[flag0 node']|]; [|done]. cbn [mbind option_bind].
    destruct (negb _ && negb _); by intros [= <- <-].
Qed.

(** [Remove] keeps every child under its own character. *)
Lemma RemoveHelper_keyed t key flag t' :
  keyed t → RemoveHelper t key = Some (flag, t') → keyed t'.
Proof.
  revert t flag t'. induction key as [|c rest IH]; intros t flag t' Hk; [done|].
  rewrite RemoveHelper_step by done.
  destruct (children_ t !! c) as [node|] eqn:Hc; [|by intros [= <- <-]].
  destruct rest as [|c' rest'].
  - destruct (is_end_ node); [|by intros [= <- <-]].
    destruct (HasChildren node); intros [= <- <-]; [done | by apply keyed_delete].
  - destruct (RemoveHelper node _) as [[flag0 node']|] eqn:E; [|done]. cbn [mbind option_bind].
    pose proof (IH node flag0 node' (keyed_child _ _ _ Hk Hc) E) as Hk'.
    pose proof (RemoveHelper_top _ _ _ _ (keyed_child _ _ _ Hk Hc) E) as (Hkey & _).
    destruct (negb _ && negb _); intros [= <- <-]; [by apply keyed_delete|].
    apply keyed_insert; [done| |done]. rewrite Hkey. exact (keyed_key _ _ _ Hk Hc).
Qed.

(** [Remove] returns (the empty key apart), and returns true exactly for a
    key whose node is terminal. *)
Lemma RemoveHelper_flag t key :
  keyed t → key ≠ [] →
  ∃ t', RemoveHelper t key =
          Some (match terminal_value (GetValue_walk t key) with
                | Some _ => true | None => false end, t').
Proof.
  revert t. induction key as [|c rest IH]; intros t Hk Hne; [done|].
  rewrite RemoveHelper_step by done. cbn [GetValue_walk]. unfold GetChildNode.
  destruct (children_ t !! c) as [node|] eqn:Hc; [|by eexists].
  destruct rest as [|c' rest'].
  - simpl. destruct (is_end_ node); by eexists.
  - destruct (IH node (keyed_child _ _ _ Hk Hc) ltac:(done)) as (node' & ->).
    cbn [mbind option_bind]. by eexists.
Qed.

(** [Remove] of a key whose node is terminal and has no children takes the
    node out: the key is no path any more. *)
Lemma RemoveHelper_leaf t key n :
  keyed t → GetValue_walk t key = Some n → key ≠ [] →
  is_end_ n = true → children_ n = ∅ →
  ∃ t', RemoveHelper t key = Some (true, t') ∧ GetValue_walk t' key = None.
Proof.
  revert t. induction key as [|c rest IH]; intros t Hk Hw Hne He Hch; [done|].
  rewrite RemoveHelper_step by done.
  cbn [GetValue_walk] in Hw. unfold GetChildNode in Hw.
  destruct (children_ t !! c) as [node|] eqn:Hc; [|done].
  destruct rest as [|c' rest'].
  - simpl in Hw. injection Hw as ->. rewrite He.
    unfold HasChildren. rewrite bool_decide_eq_true_2 by done. cbn [negb].
    eexists. split; [done|]. cbn [GetValue_walk]. unfold GetChildNode, RemoveChildNode.
    cbn [children_ set_children]. by rewrite lookup_delete_eq.
  - destruct (IH node (keyed_child _ _ _ Hk Hc) Hw ltac:(done) He Hch) as (node' & -> & Hw').
    cbn [mbind option_bind]. eexists. split; [done|].
    cbn [GetValue_walk]. unfold GetChildNode.
    destruct (negb _ && negb _).
    + unfold RemoveChildNode. cbn [children_ set_children]. by rewrite lookup_delete_eq.
    + unfold store_child. cbn [children_ set_children]. by rewrite lookup_insert_eq.
Qed.

(** [Remove] leaves every other key as it was. *)
Lemma RemoveHelper_other t key flag t' key' :
  keyed t → RemoveHelper t key = Some (flag, t') → key' ≠ key →
  terminal_value (GetValue_walk t' key') = terminal_value (GetValue_walk t key').
Proof.
  revert t flag t' key'. induction key as [|c rest IH]; intros t flag t' key' Hk H Hne; [done|].
  pose proof (RemoveHelper_top _ _ _ _ Hk H) as (_ & He & Hv).
  rewrite RemoveHelper_step in H by done.
  destruct key' as [|c0 rest0].
  { simpl. by rewrite He, Hv. }
  cbn [GetValue_walk]. unfold GetChildNode.
  destruct (children_ t !! c) as [node|] eqn:Hc; [|by simplify_eq].
  destruct rest as [|c' rest'].
  - destruct (is_end_ node) eqn:Hen; [|by simplify_eq].
    destruct (HasChildren node) eqn:Hhc; [by simplify_eq|].
    injection H as <- <-. unfold RemoveChildNode. cbn [children_ set_children].
    rewrite lookup_delete. case_decide as Hcc; [subst c0|done].
    rewrite Hc. destruct rest0 as [|c1 r]; [done|].
    cbn [GetValue_walk]. unfold GetChildNode.
    unfold HasChildren in Hhc. apply negb_false_iff, bool_decide_eq_true in Hhc.
    by rewrite Hhc, lookup_empty.
  - destruct (RemoveHelper node _) as [[flag0 node']|] eqn:E; [|done].
    cbn [mbind option_bind] in H.
    pose proof (keyed_child _ _ _ Hk Hc) as Hkn.
    destruct (decide (c0 = c)) as [->|Hcc].
    + rewrite Hc. assert (rest0 ≠ c' :: rest') as Hr by congruence.
      pose proof (IH node flag0 node' rest0 Hkn E Hr) as Hsame.
      destruct (negb (is_end_ node') && negb (HasChildren node')) eqn:Hprune;
        injection H as <- <-.
      * unfold RemoveChildNode. cbn [children_ set_children]. rewrite lookup_delete_eq.
        rewrite <- Hsame. apply andb_true_iff in Hprune as [Hne' Hnc].
        apply negb_true_iff in Hne', Hnc.
        destruct rest0 as [|c1 r]; simpl; [by rewrite Hne'|].
        unfold GetChildNode.
        unfold HasChildren in Hnc. apply negb_false_iff, bool_decide_eq_true in Hnc.
        by rewrite Hnc, lookup_empty.
      * unfold store_child. cbn [children_ set_children]. by rewrite lookup_insert_eq.
    + destruct (negb (is_end_ node') && negb (HasChildren node')); injection H as <- <-.
      * unfold RemoveChildNode. cbn [children_ set_children]. by rewrite lookup_delete_ne.
      * unfold store_child. cbn [children_ set_children]. by rewrite lookup_insert_ne.
Qed.

(** After [Insert] on a key that was no path, the node of the key has no
    children. *)
Lemma Insert_loop_walk_fresh t key v t' :
  keyed t → GetValue_walk t key = None → Insert_loop t key v = Some t' →
  ∃ n, GetValue_walk t' key = Some n ∧ is_end_ n = true ∧ children_ n = ∅.
Proof.
  revert t t'. induction key as [|c rest IH]; intros t t' Hk Hw H; [done|].
  destruct (Insert_loop_children t c rest v t' Hk H) as (child' & Hch & Hkc & Hcase).
  cbn [GetValue_walk] in *. unfold GetChildNode in *. rewrite Hch, lookup_insert_eq.
  destruct (children_ t !! c) as [node|] eqn:Hc; destruct rest as [|c' rest'].
  - done.
  - apply (IH node); [exact (keyed_child _ _ _ Hk Hc) | done | done].
  - rewrite Hcase. by eexists.
  - apply (IH (TrieNode_new c)); [by apply keyed_no_children | | done].
    cbn [GetValue_walk]. unfold GetChildNode. simpl. by rewrite lookup_empty.
Qed.

Lemma list_ascii_of_string_nil key : String.list_ascii_of_string key = [] ↔ key = ""%string.
Proof. by destruct key. Qed.

Lemma list_ascii_of_string_inj key key' :
  String.list_ascii_of_string key = String.list_ascii_of_string key' → key = key'.
Proof.
  intros E. rewrite <- (String.string_of_list_ascii_of_string key),
                    <- (String.string_of_list_ascii_of_string key'). by rewrite E.
Qed.

(** [GetValue] on two tries agrees on a key whose walks end alike. *)
Lemma GetValue_same T trie trie' key :
  terminal_value (GetValue_walk (root_ trie') (String.list_ascii_of_string key)) =
  terminal_value (GetValue_walk (root_ trie) (String.list_ascii_of_string key)) →
  GetValue T trie' key = GetValue T trie key.
Proof. intros E. by rewrite !GetValue_terminal_value, E. Qed.

Lemma Trie_new_keyed : keyed (root_ Trie_new).
Proof. by apply keyed_no_children. Qed.

Lemma Insert_keyed trie key v : keyed (root_ trie) → keyed (root_ (Insert trie key v).2).
Proof.
  intros Hk. unfold Insert. case_bool_decide; [done|].
  destruct (Insert_loop _ _ v) as [root'|] eqn:E; [|done].
  by eapply Insert_loop_keyed.
Qed.

Lemma abc_trie_keyed : keyed (root_ abc_trie).
Proof. apply Insert_keyed, Trie_new_keyed. Qed.
Lemma abcd_trie_keyed : keyed (root_ abcd_trie).
Proof. apply Insert_keyed, abc_trie_keyed. Qed.
End trie_more.

(** * Further properties of the trie *)

Section trie_extras.
Implicit Types (t n : TrieNode).

(** X16: the trie keeps every child filed under the child's own key
    character: this holds in the empty trie, and [Insert] and [Remove]
    preserve it, whatever they return. *)
Theorem Trie_children_keyed :
  keyed (root_ Trie_new) ∧
  (∀ trie key v, keyed (root_ trie) → keyed (root_ (Insert trie key v).2)) ∧
  (∀ trie key res trie',
     keyed (root_ trie) → Remove trie key = Some (res, trie') → keyed (root_ trie')).
Proof.
  split; [apply Trie_new_keyed|]. split; [apply Insert_keyed|].
  intros trie key res trie' Hk. unfold Remove.
  destruct (RemoveHelper _ _) as [[flag root']|] eqn:E; [|done].
  intros [= <- <-]. by eapply RemoveHelper_keyed.
Qed.

Lemma Trie_children_keyed_witness :
  keyed (root_ abc_trie) ∧ keyed (root_ (Insert abc_trie "abcd" (VInt 9)).2) ∧
  keyed (root_ abc_trie).
Proof.
  split; [exact abc_trie_keyed|]. split.
  - exact (proj1 (proj2 Trie_children_keyed) abc_trie "abcd"%string (VInt 9) abc_trie_keyed).
  - refine (proj2 (proj2 Trie_children_keyed) abcd_trie "abcd"%string true abc_trie
              abcd_trie_keyed _).
    vm_compute. reflexivity.
Defined.

(** X17: when [Insert] returns true, [GetValue] of the same key at the
    type of the inserted value returns that value and reports success. *)
Theorem Trie_Insert_then_GetValue trie key v :
  keyed (root_ trie) → (Insert trie key v).1 = true →
  GetValue (type_of v) (Insert trie key v).2 key = (v, true).
Proof.
  intros Hk. unfold Insert. case_bool_decide as Hkey; [done|].
  destruct (Insert_loop _ _ v) as [root'|] eqn:E; [|done]. intros _.
  destruct (Insert_loop_walk _ _ _ _ Hk ltac:(by rewrite list_ascii_of_string_nil) E)
    as (n & Hw & He & Hv).
  rewrite GetValue_terminal_value. rewrite bool_decide_eq_false_2 by done.
  cbn [snd root_]. rewrite Hw. simpl. rewrite He, Hv.
  by rewrite bool_decide_eq_true_2.
Qed.

Lemma Trie_Insert_then_GetValue_witness :
  (Insert abc_trie "abcd" (VString "x")).1 = true ∧
  GetValue T_string (Insert abc_trie "abcd" (VString "x")).2 "abcd" = (VString "x", true).
Proof.
  split; [reflexivity|].
  exact (Trie_Insert_then_GetValue abc_trie "abcd"%string (VString "x") abc_trie_keyed eq_refl).
Defined.

(** X18: [Insert] returns false exactly for the empty key and for a key
    whose node exists and is terminal already, and a failed [Insert]
    returns the trie it was given. *)
Theorem Trie_Insert_rejects trie key v :
  ((Insert trie key v).1 = false ↔
   key = ""%string ∨
   ∃ n, reaches (root_ trie) (String.list_ascii_of_string key) n ∧ is_end_ n = true) ∧
  ((Insert trie key v).1 = false → (Insert trie key v).2 = trie).
Proof.
  unfold Insert. case_bool_decide as Hkey.
  { split; [|done]. split; [by left | done]. }
  destruct (Insert_loop _ _ v) as [root'|] eqn:E; cbn [fst snd].
  - split; [|done]. split; [done|]. intros [?|(n & Hr & He)]; [done|].
    assert (Insert_loop (root_ trie) (String.list_ascii_of_string key) v = None) as E'.
    { apply Insert_loop_None. exists n. split; [by rewrite list_ascii_of_string_nil|].
      split; [by apply GetValue_walk_reaches | done]. }
    congruence.
  - split; [|done]. split; [|done]. intros _. right.
    apply Insert_loop_None in E as (n & _ & Hw & He). exists n.
    split; [by apply GetValue_walk_reaches | done].
Qed.

Lemma Trie_Insert_rejects_witness :
  (Insert abc_trie "abc" (VInt 1)).1 = false ∧ (Insert abc_trie "abc" (VInt 1)).2 = abc_trie.
Proof.
  assert ((Insert abc_trie "abc" (VInt 1)).1 = false) as H by reflexivity.
  split; [exact H|].
  exact (proj2 (Trie_Insert_rejects abc_trie "abc"%string (VInt 1)) H).
Defined.

(** X19: [Insert], successful or not, changes the lookup of no other
    key, at any type. *)
Theorem Trie_Insert_other_keys trie key v key' T :
  keyed (root_ trie) → key' ≠ key →
  GetValue T (Insert trie key v).2 key' = GetValue T trie key'.
Proof.
  intros Hk Hne. unfold Insert. case_bool_decide; [done|].
  destruct (Insert_loop _ _ v) as [root'|] eqn:E; [|done].
  apply GetValue_same. cbn [snd root_].
  eapply Insert_loop_other; [done | done |].
  intros E'. by apply list_ascii_of_string_inj in E'.
Qed.

Lemma Trie_Insert_other_keys_witness :
  GetValue T_int (Insert abc_trie "abcd" (VInt 9)).2 "abc" = GetValue T_int abc_trie "abc".
Proof.
  exact (Trie_Insert_other_keys abc_trie "abcd"%string (VInt 9) "abc"%string T_int
           abc_trie_keyed ltac:(discriminate)).
Defined.

(** X20: [Remove] raises (the result is [None]) exactly for the empty
    key; for every other key its boolean result says whether the node of
    the key exists and is terminal. *)
Theorem Trie_Remove_result trie key :
  keyed (root_ trie) →
  (Remove trie key = None ↔ key = ""%string) ∧
  (∀ res trie', Remove trie key = Some (res, trie') →
     (res = true ↔
      ∃ n, reaches (root_ trie) (String.list_ascii_of_string key) n ∧ is_end_ n = true)).
Proof.
  intros Hk. unfold Remove.
  destruct (decide (key = ""%string)) as [->|Hkey].
  { split; [done|]. intros res trie'. done. }
  destruct (RemoveHelper_flag (root_ trie) (String.list_ascii_of_string key) Hk)
    as (root' & ->); [by rewrite list_ascii_of_string_nil|].
  cbn [mbind option_bind]. split; [done|].
  intros res trie' [= <- <-].
  destruct (GetValue_walk _ _) as [n|] eqn:Hw; simpl.
  - destruct (is_end_ n) eqn:He.
    + split; [|done]. intros _. exists n. split; [by apply GetValue_walk_reaches | done].
    + split; [done|]. intros (n' & Hr & He'). apply GetValue_walk_reaches in Hr.
      congruence.
  - split; [done|]. intros (n' & Hr & _). apply GetValue_walk_reaches in Hr. congruence.
Qed.

Lemma Trie_Remove_result_witness :
  (Remove abc_trie "abc" = None ↔ "abc"%string = ""%string) ∧
  (∀ res trie', Remove abc_trie "abc" = Some (res, trie') →
     (res = true ↔
      ∃ n, reaches (root_ abc_trie) (String.list_ascii_of_string "abc") n ∧ is_end_ n = true)).
Proof. exact (Trie_Remove_result abc_trie "abc"%string abc_trie_keyed). Defined.

(** X21: [Remove] of a key whose node is terminal and has no children
    returns true, and afterwards [GetValue] of the key fails at every
    type. *)
Theorem Trie_Remove_leaf_key trie key n :
  keyed (root_ trie) →
  reaches (root_ trie) (String.list_ascii_of_string key) n → key ≠ ""%string →
  is_end_ n = true → children_ n = ∅ →
  ∃ trie', Remove trie key = Some (true, trie') ∧
           ∀ T, GetValue T trie' key = (default_value T, false).
Proof.
  intros Hk Hr Hkey He Hch. unfold Remove.
  apply GetValue_walk_reaches in Hr.
  destruct (RemoveHelper_leaf _ _ n Hk Hr ltac:(by rewrite list_ascii_of_string_nil) He Hch)
    as (root' & -> & Hw).
  cbn [mbind option_bind]. eexists. split; [done|].
  intros T. rewrite GetValue_terminal_value. cbn [root_]. rewrite Hw. simpl.
  by case_bool_decide.
Qed.

Lemma Trie_Remove_leaf_key_witness :
  (reaches (root_ abcd_trie) (String.list_ascii_of_string "abcd")
     (TrieNodeWithValue_new "d" (VInt 9))) ∧
  ∃ trie', Remove abcd_trie "abcd" = Some (true, trie') ∧
           ∀ T, GetValue T trie' "abcd" = (default_value T, false).
Proof.
  assert (reaches (root_ abcd_trie) (String.list_ascii_of_string "abcd")
            (TrieNodeWithValue_new "d" (VInt 9))) as Hr.
  { apply GetValue_walk_reaches. vm_compute. reflexivity. }
  split; [exact Hr|].
  exact (Trie_Remove_leaf_key abcd_trie "abcd"%string _ abcd_trie_keyed Hr
           ltac:(discriminate) eq_refl eq_refl).
Defined.

(** X22: [Remove] changes the lookup of no other key, at any type. *)
Theorem Trie_Remove_other_keys trie key res trie' key' T :
  keyed (root_ trie) → Remove trie key = Some (res, trie') → key' ≠ key →
  GetValue T trie' key' = GetValue T trie key'.
Proof.
  intros Hk. unfold Remove.
  destruct (RemoveHelper _ _) as [[flag root']|] eqn:E; [|done].
  intros [= <- <-] Hne. apply GetValue_same. cbn [root_].
  eapply RemoveHelper_other; [done | done |].
  intros E'. by apply list_ascii_of_string_inj in E'.
Qed.

Lemma Trie_Remove_other_keys_witness :
  Remove abcd_trie "abcd" = Some (true, abc_trie) ∧
  GetValue T_int abc_trie "abc" = GetValue T_int abcd_trie "abc".
Proof.
  assert (Remove abcd_trie "abcd" = Some (true, abc_trie)) as H by (vm_compute; reflexivity).
  split; [exact H|].
  exact (Trie_Remove_other_keys abcd_trie "abcd"%string true abc_trie "abc"%string T_int
           abcd_trie_keyed H ltac:(discriminate)).
Defined.

(** X23: for a key whose path does not exist in the trie, [Insert]
    succeeds, [Remove] of the key then returns true, and every lookup in
    the resulting trie yields what it did before the two operations. *)
Theorem Trie_Insert_then_Remove trie key v :
  keyed (root_ trie) → key ≠ ""%string →
  GetValue_walk (root_ trie) (String.list_ascii_of_string key) = None →
  ∃ trie1 trie2,
    Insert trie key v = (true, trie1) ∧ Remove trie1 key = Some (true, trie2) ∧
    ∀ T key', GetValue T trie2 key' = GetValue T trie key'.
Proof.
  intros Hk Hkey Hw.
  assert (String.list_ascii_of_string key ≠ []) as Hne by (by rewrite list_ascii_of_string_nil).
  destruct (Insert_loop (root_ trie) (String.list_ascii_of_string key) v) as [root1|] eqn:E.
  2: { apply Insert_loop_None in E as (n & _ & Hw' & _). congruence. }
  pose proof (Insert_loop_keyed _ _ _ _ Hk E) as Hk1.
  destruct (Insert_loop_walk_fresh _ _ _ _ Hk Hw E) as (n & Hw1 & He & Hch).
  destruct (RemoveHelper_leaf _ _ n Hk1 Hw1 Hne He Hch) as (root2 & Hrm & Hw2).
  exists (mkTrie root1), (mkTrie root2).
  split. { unfold Insert. rewrite bool_decide_eq_false_2 by done. by rewrite E. }
  split. { unfold Remove. cbn [root_]. by rewrite Hrm. }
  intros T key'. apply GetValue_same. cbn [root_].
  destruct (decide (key' = key)) as [->|Hne'].
  - by rewrite Hw2, Hw.
  - assert (String.list_ascii_of_string key' ≠ String.list_ascii_of_string key) as Hl.
    { intros E'. by apply list_ascii_of_string_inj in E'. }
    rewrite (RemoveHelper_other _ _ _ _ _ Hk1 Hrm Hl).
    exact (Insert_loop_other _ _ v _ _ Hk E Hl).
Qed.

Lemma Trie_Insert_then_Remove_witness :
  GetValue_walk (root_ abc_trie) (String.list_ascii_of_string "abd") = None ∧
  ∃ trie1 trie2,
    Insert abc_trie "abd" (VInt 1) = (true, trie1) ∧
    Remove trie1 "abd" = Some (true, trie2) ∧
    ∀ T key', GetValue T trie2 key' = GetValue T abc_trie key'.
Proof.
  split; [reflexivity|].
  exact (Trie_Insert_then_Remove abc_trie "abd"%string (VInt 1) abc_trie_keyed
           ltac:(discriminate) eq_refl).
Defined.

(** X24: [InsertChildNode] fails exactly when the child's key character
    differs from the given one or the character is taken; when it succeeds
    the child is found under the character, the other characters are
    untouched, [RemoveChildNode] takes the child out again, and the node's
    own key, terminal flag and value are unchanged. *)
Theorem TrieNode_InsertChildNode t c child :
  (InsertChildNode t c child = None ↔ key_ child ≠ c ∨ HasChild t c = true) ∧
  (∀ t', InsertChildNode t c child = Some t' →
     GetChildNode t' c = Some child ∧ HasChild t' c = true ∧
     (∀ c', c' ≠ c → GetChildNode t' c' = GetChildNode t c') ∧
     GetChildNode (RemoveChildNode t' c) c = None ∧
     (key_ t', is_end_ t', value_ t') = (key_ t, is_end_ t, value_ t)).
Proof.
  unfold InsertChildNode. case_bool_decide as Hk.
  - destruct (HasChild t c) eqn:Hh.
    + split; [split; [by right | done] | done].
    + split. { split; [done|]. intros [?|?]; done. }
      intros t' [= <-]. unfold GetChildNode, HasChild, RemoveChildNode.
      cbn [children_ set_children key_ is_end_ value_].
      rewrite lookup_insert_eq, lookup_delete_eq.
      split; [done|]. split; [by rewrite bool_decide_eq_true_2 by eauto|].
      split; [|done]. intros c' Hc'. by rewrite lookup_insert_ne.
  - split; [|done]. split; [by left | done].
Qed.

Lemma TrieNode_InsertChildNode_witness :
  InsertChildNode (TrieNode_new "a") "b" (TrieNode_new "b") =
    Some (set_children (TrieNode_new "a") (<["b"%char := TrieNode_new "b"]> ∅)) ∧
  GetChildNode (set_children (TrieNode_new "a") (<["b"%char := TrieNode_new "b"]> ∅)) "b" =
    Some (TrieNode_new "b").
Proof.
  assert (InsertChildNode (TrieNode_new "a") "b" (TrieNode_new "b") =
            Some (set_children (TrieNode_new "a") (<["b"%char := TrieNode_new "b"]> ∅))) as H
    by reflexivity.
  split; [exact H|].
  exact (proj1 (proj2 (TrieNode_InsertChildNode (TrieNode_new "a") "b" (TrieNode_new "b")) _ H)).
Defined.
End trie_extras.

(** * The sequential scan *)

Import SeqScan.

Section seq_scan.
Context {TableIterator TupleMeta Tuple RID : Type}.
Variable IsEnd : TableIterator → bool.
Variable GetTuple : TableIterator → TupleMeta * Tuple.
Variable GetRID : TableIterator → RID.
Variable incr : TableIterator → TableIterator.
Variable is_deleted_ : TupleMeta → bool.

#[local] Abbreviation Next := (Next IsEnd GetTuple GetRID incr is_deleted_).

Lemma Next_skip it tuple rid fuel :
  IsEnd it = false → is_deleted_ (GetTuple it).1 = true →
  Next (S fuel) it tuple rid = Next fuel (incr it) (GetTuple it).2 (GetRID it).
Proof. intros H1 H2. cbn [SeqScan.Next]. by rewrite H1, H2. Qed.

Lemma Next_skips n : ∀ it tuple rid fuel,
  (∀ k, (k < n)%nat →
        IsEnd (Nat.iter k incr it) = false ∧
        is_deleted_ (GetTuple (Nat.iter k incr it)).1 = true) →
  Next (n + fuel) it tuple rid =
    Next fuel (Nat.iter n incr it)
      (match n with O => tuple | S k => (GetTuple (Nat.iter k incr it)).2 end)
      (match n with O => rid | S k => GetRID (Nat.iter k incr it) end).
Proof.
  induction n as [|n IH]; intros it tuple rid fuel Hdel; [done|].
  destruct (Hdel 0%nat ltac:(lia)) as [H1 H2]. cbn [Nat.iter] in H1, H2.
  change (S n + fuel)%nat with (S (n + fuel)). rewrite (Next_skip _ _ _ _ H1 H2).
  rewrite IH.
  - rewrite <- !Nat.iter_succ_r. destruct n as [|n]; [done|].
    by rewrite <- !Nat.iter_succ_r.
  - intros k Hk. rewrite <- !Nat.iter_succ_r. apply Hdel. lia.
Qed.

(** X25: [Next] of the sequential scan passes the deleted tuples and stops
    behind the first tuple that is not deleted, which it hands out with its
    record id; when only deleted tuples are left it reports exhaustion, and
    the out parameters hold the last of them (or what the caller passed, if
    the iterator was at its end already). *)
Theorem Next_first_live n it tuple rid fuel :
  (∀ k, (k < n)%nat →
        IsEnd (Nat.iter k incr it) = false ∧
        is_deleted_ (GetTuple (Nat.iter k incr it)).1 = true) →
  (n < fuel)%nat →
  let it_n := Nat.iter n incr it in
  (IsEnd it_n = false → is_deleted_ (GetTuple it_n).1 = false →
   Next fuel it tuple rid = Some (EXECUTOR_ACTIVE, incr it_n, (GetTuple it_n).2, GetRID it_n)) ∧
  (IsEnd it_n = true →
   Next fuel it tuple rid =
     Some (EXECUTOR_EXHAUSTED, it_n,
           match n with O => tuple | S k => (GetTuple (Nat.iter k incr it)).2 end,
           match n with O => rid | S k => GetRID (Nat.iter k incr it) end)).
Proof.
  intros Hdel Hfuel it_n.
  replace fuel with (n + S (fuel - S n))%nat by lia.
  rewrite (Next_skips n it tuple rid _ Hdel). fold it_n.
  cbn [SeqScan.Next]. split.
  - intros H1 H2. by rewrite H1, H2.
  - intros H1. by rewrite H1.
Qed.
End seq_scan.

Lemma Next_first_live_witness :
  SeqScan.Next rows_IsEnd rows_GetTuple rows_GetRID (@tail _) id 3
    [(true, 10, 1); (true, 20, 2); (false, 30, 3); (false, 40, 4)]%Z 0%Z 0%Z
  = Some (EXECUTOR_ACTIVE, [(false, 40, 4)]%Z, 30%Z, 3%Z).
Proof.
  refine (proj1 (Next_first_live rows_IsEnd rows_GetTuple rows_GetRID (@tail _) id 2
            [(true, 10, 1); (true, 20, 2); (false, 30, 3); (false, 40, 4)]%Z 0%Z 0%Z 3 _ _) _ _).
  - intros k Hk. destruct k as [|[|k]]; [done | done | lia].
  - lia.
  - reflexivity.
  - reflexivity.
Defined.
